(** * pipedream: multipart uploads to S3-compatible stores

    A shallow embedding of the upload orchestration of package [pipedream]
    ([MultipartUpload.Send], [run], [uploadPart], [complete], [Abort] and
    [EnglishJoin]) together with the properties of its event stream.

    Modelling choices.
    - Go's integers are [Z] here.  An [int64] is 64 bits wide; an [int]
      is as wide as the target makes it ([Go.IntSize]): 64 bits on amd64
      and arm64, 32 bits on 386, the three targets of the release
      configuration.  Every addition the source performs on an [int] is
      wrapped by [Go.int_add].  A statement made in a section that binds
      [W : IntSize] holds on every target; the sections that fix
      [Int64] speak of the 64-bit targets.
    - An [io.Reader] is the sequence of results its successive [Read] calls
      return; once that sequence is used up, [Read] reports [(0, io.EOF)].
    - The S3 service is an abstract state machine ([Backend]); each request
      returns the pair [(output, err)] of the SDK call.
    - A goroutine's observable behaviour is its log: the events sent on the
      channel and the requests made to the service, in program order,
      together with the way the goroutine ended (return or run-time panic).
      The channel is unbuffered; the log records each send statement [run]
      executes, the receiver being taken to accept every event.
    - The [Body] of an [UploadPart] request is a [*bytes.Reader]: a
      slice and a read position.  [uploadPart] builds it once, before its
      loop, and hands the same request to every attempt; the SDK reads
      from it, so each attempt finds the reader where the one before
      left it.  The model threads that reader through the attempts: a
      request is logged with the reader as it is when the call is made,
      and the service says at which position it leaves it.
    - The buffer [buf] is reused by every [Read]; each chunk [buf[:n]] is
      used up by [uploadPart] before the next [Read], so the model keeps
      the capacity of the buffer and hands the bytes read on as
      [buf[:n]]. *)

From Stdlib Require Import ZArith List String Ascii Bool Lia Sorted.
From Stdlib Require Import Strings.Byte.
Import ListNotations.

Local Open Scope string_scope.
Local Open Scope list_scope.
Local Open Scope Z_scope.

(* ================================================================== *)
(** ** Go values *)

Module Go.

(** The size of an [int], which Go leaves to the target: 32 bits on
    386, 64 bits on amd64 and arm64. *)
Inductive IntSize : Type := Int32 | Int64.

Existing Class IntSize.

Definition int_bits {W : IntSize} : Z :=
  match W with Int32 => 32 | Int64 => 64 end.

(** Signed integers of [bits] bits, in two's complement. *)
Definition wrap (bits : Z) (z : Z) : Z :=
  (z + 2 ^ (bits - 1)) mod 2 ^ bits - 2 ^ (bits - 1).

(** [int] *)
Definition min_int {W : IntSize} : Z := - 2 ^ (int_bits - 1).
Definition max_int {W : IntSize} : Z := 2 ^ (int_bits - 1) - 1.

Definition int_wrap {W : IntSize} (z : Z) : Z := wrap int_bits z.

Definition int_add {W : IntSize} (a b : Z) : Z := int_wrap (a + b).

Definition in_int {W : IntSize} (z : Z) : Prop := min_int <= z <= max_int.

(** [int64] *)
Definition int64_wrap (z : Z) : Z := wrap 64 z.

(** The conversion [int(x)] of an [int64]: nothing changes where an
    [int] has 64 bits, the low 32 bits are kept where it has 32. *)
Definition int_of_int64 {W : IntSize} (x : Z) : Z :=
  match W with Int32 => wrap 32 x | Int64 => x end.

(** Values of the [error] interface.  [io_EOF] is the sentinel [io.EOF];
    the other constructors carry the text their [Error()] method returns.
    [awserr_Error] marks values that also satisfy [awserr.Error]. *)
Inductive error : Type :=
| io_EOF
| errors_New (text : string)
| awserr_Error (text : string).

Definition Error_text (e : error) : string :=
  match e with
  | io_EOF => "EOF"
  | errors_New s => s
  | awserr_Error s => s
  end.

(** [err == io.EOF] *)
Definition is_EOF (e : error) : bool :=
  match e with io_EOF => true | _ => false end.

(** The type assertion [err.(awserr.Error)]. *)
Definition as_awserr (e : error) : option error :=
  match e with awserr_Error _ => Some e | _ => None end.

(** [fmt.Errorf(format, a, b)] for a format with two [%v] verbs, given as
    the three literal pieces around them. *)
Definition fmt_Errorf2 (p0 p1 p2 : string) (a b : error) : error :=
  errors_New (p0 ++ Error_text a ++ p1 ++ Error_text b ++ p2)%string.

End Go.

Import Go.

(* ================================================================== *)
(** ** bytes.Reader *)

Module bytes.

(** A [*bytes.Reader]: the slice [s] it reads from and the position [i]
    of the next byte to read.  The slice never changes; reading and
    seeking move the position. *)
Record Reader : Type := { s : list byte; i : Z }.

(** [bytes.NewReader(b)] *)
Definition NewReader (b : list byte) : Reader := {| s := b; i := 0 |}.

(** The bytes a reader still has to give: [s[i:]]. *)
Definition unread (r : Reader) : list byte := skipn (Z.to_nat (i r)) (s r).

(** The reader moved to the position [pos]. *)
Definition at_position (r : Reader) (pos : Z) : Reader :=
  {| s := s r; i := pos |}.

End bytes.

(* ================================================================== *)
(** ** The S3 SDK types the package uses *)

Module s3.

Module CreateMultipartUploadInput.
Record t : Type := mk { Bucket : string; Key : string; ContentType : string }.
End CreateMultipartUploadInput.

Module CreateMultipartUploadOutput.
Record t : Type := mk { Bucket : string; Key : string; UploadId : string }.
End CreateMultipartUploadOutput.

Module UploadPartInput.
Record t : Type := mk {
  Body : bytes.Reader;
  Bucket : string;
  Key : string;
  PartNumber : Z;
  UploadId : string;
  ContentLength : Z }.

(** The same request once its [Body], which it holds by pointer, has
    been moved to [pos]. *)
Definition body_at (input : t) (pos : Z) : t :=
  {| Body := bytes.at_position (Body input) pos;
     Bucket := Bucket input;
     Key := Key input;
     PartNumber := PartNumber input;
     UploadId := UploadId input;
     ContentLength := ContentLength input |}.
End UploadPartInput.

Module UploadPartOutput.
Record t : Type := mk { ETag : string }.
End UploadPartOutput.

Module CompletedPart.
Record t : Type := mk { ETag : string; PartNumber : Z }.
End CompletedPart.

Module CompleteMultipartUploadInput.
Record t : Type := mk {
  Bucket : string;
  Key : string;
  UploadId : string;
  Parts : list CompletedPart.t }.
End CompleteMultipartUploadInput.

Module CompleteMultipartUploadOutput.
Record t : Type := mk { Location : string; ETag : string }.
End CompleteMultipartUploadOutput.

Module AbortMultipartUploadInput.
Record t : Type := mk { Bucket : string; Key : string; UploadId : string }.
End AbortMultipartUploadInput.

(** The service client [*s3.S3], determined by the [aws.Config] it was
    built from. *)
Record S3 : Type := New {
  AccessKeyID : string;
  SecretAccessKey : string;
  Endpoint : string;
  Region : string }.

(** One request, as it is when the call is made, with the
    [(output, err)] it got. *)
Inductive request : Type :=
| CreateMultipartUpload
    (input : CreateMultipartUploadInput.t)
    (output : CreateMultipartUploadOutput.t) (err : option error)
| UploadPart
    (input : UploadPartInput.t)
    (output : UploadPartOutput.t) (err : option error)
| CompleteMultipartUpload
    (input : CompleteMultipartUploadInput.t)
    (output : CompleteMultipartUploadOutput.t) (err : option error)
| AbortMultipartUpload
    (input : AbortMultipartUploadInput.t) (err : option error).

End s3.

(** The service, reached through the SDK, and the one library function
    [run] relies on.  [UploadPart] reads the [Body] of its request; beside
    [(output, err)] it gives the position at which it leaves that
    reader. *)
Record Backend : Type := {
  World : Type;
  CreateMultipartUpload :
    s3.S3 -> s3.CreateMultipartUploadInput.t -> World ->
    (s3.CreateMultipartUploadOutput.t * option error) * World;
  UploadPart :
    s3.S3 -> s3.UploadPartInput.t -> World ->
    (s3.UploadPartOutput.t * option error * Z) * World;
  CompleteMultipartUpload :
    s3.S3 -> s3.CompleteMultipartUploadInput.t -> World ->
    (s3.CompleteMultipartUploadOutput.t * option error) * World;
  AbortMultipartUpload :
    s3.S3 -> s3.AbortMultipartUploadInput.t -> World ->
    option error * World;
  (** [http.DetectContentType] *)
  DetectContentType : list byte -> string }.

(* ================================================================== *)
(** ** Package constants and events *)

Definition Kilobyte : Z := 1024.
Definition Megabyte : Z := Kilobyte * 1024.
Definition DefaultRegion : string := "us-east-1".

Inductive Event : Type :=
| Progress (PartNumber Bytes : Z)
| Retry (PartNumber RetryNumber MaxRetries : Z)
| Complete (Bytes : Z) (Result : s3.CompleteMultipartUploadOutput.t)
| Error (Err : error).

(** What one [Read] call returns: [n = len data] bytes placed at the start
    of the buffer, and [err]. *)
Record ReadResult : Type := { data : list byte; rerr : option error }.

Definition Reader : Type := list ReadResult.

Record MultipartUpload : Type := {
  Endpoint : string;
  Region : string;
  Bucket : string;
  AccessKey : string;
  SecretKey : string;
  MaxRetries : Z;
  MaxPartSize : Z;
  svc : option s3.S3;
  res : option s3.CreateMultipartUploadOutput.t;
  completedParts : list s3.CompletedPart.t;
  currentPartNumber : Z;
  path : string;
  reader : Reader }.

Definition set_Endpoint (m : MultipartUpload) (v : string) : MultipartUpload :=
  {| Endpoint := v; Region := Region m; Bucket := Bucket m;
     AccessKey := AccessKey m; SecretKey := SecretKey m;
     MaxRetries := MaxRetries m; MaxPartSize := MaxPartSize m;
     svc := svc m; res := res m; completedParts := completedParts m;
     currentPartNumber := currentPartNumber m; path := path m;
     reader := reader m |}.

Definition set_Region (m : MultipartUpload) (v : string) : MultipartUpload :=
  {| Endpoint := Endpoint m; Region := v; Bucket := Bucket m;
     AccessKey := AccessKey m; SecretKey := SecretKey m;
     MaxRetries := MaxRetries m; MaxPartSize := MaxPartSize m;
     svc := svc m; res := res m; completedParts := completedParts m;
     currentPartNumber := currentPartNumber m; path := path m;
     reader := reader m |}.

Definition set_MaxRetries (m : MultipartUpload) (v : Z) : MultipartUpload :=
  {| Endpoint := Endpoint m; Region := Region m; Bucket := Bucket m;
     AccessKey := AccessKey m; SecretKey := SecretKey m;
     MaxRetries := v; MaxPartSize := MaxPartSize m;
     svc := svc m; res := res m; completedParts := completedParts m;
     currentPartNumber := currentPartNumber m; path := path m;
     reader := reader m |}.

Definition set_MaxPartSize (m : MultipartUpload) (v : Z) : MultipartUpload :=
  {| Endpoint := Endpoint m; Region := Region m; Bucket := Bucket m;
     AccessKey := AccessKey m; SecretKey := SecretKey m;
     MaxRetries := MaxRetries m; MaxPartSize := v;
     svc := svc m; res := res m; completedParts := completedParts m;
     currentPartNumber := currentPartNumber m; path := path m;
     reader := reader m |}.

Definition set_svc (m : MultipartUpload) (v : option s3.S3) : MultipartUpload :=
  {| Endpoint := Endpoint m; Region := Region m; Bucket := Bucket m;
     AccessKey := AccessKey m; SecretKey := SecretKey m;
     MaxRetries := MaxRetries m; MaxPartSize := MaxPartSize m;
     svc := v; res := res m; completedParts := completedParts m;
     currentPartNumber := currentPartNumber m; path := path m;
     reader := reader m |}.

Definition set_res (m : MultipartUpload)
    (v : option s3.CreateMultipartUploadOutput.t) : MultipartUpload :=
  {| Endpoint := Endpoint m; Region := Region m; Bucket := Bucket m;
     AccessKey := AccessKey m; SecretKey := SecretKey m;
     MaxRetries := MaxRetries m; MaxPartSize := MaxPartSize m;
     svc := svc m; res := v; completedParts := completedParts m;
     currentPartNumber := currentPartNumber m; path := path m;
     reader := reader m |}.

Definition set_completedParts (m : MultipartUpload)
    (v : list s3.CompletedPart.t) : MultipartUpload :=
  {| Endpoint := Endpoint m; Region := Region m; Bucket := Bucket m;
     AccessKey := AccessKey m; SecretKey := SecretKey m;
     MaxRetries := MaxRetries m; MaxPartSize := MaxPartSize m;
     svc := svc m; res := res m; completedParts := v;
     currentPartNumber := currentPartNumber m; path := path m;
     reader := reader m |}.

Definition set_currentPartNumber (m : MultipartUpload) (v : Z) : MultipartUpload :=
  {| Endpoint := Endpoint m; Region := Region m; Bucket := Bucket m;
     AccessKey := AccessKey m; SecretKey := SecretKey m;
     MaxRetries := MaxRetries m; MaxPartSize := MaxPartSize m;
     svc := svc m; res := res m; completedParts := completedParts m;
     currentPartNumber := v; path := path m;
     reader := reader m |}.

Definition set_path (m : MultipartUpload) (v : string) : MultipartUpload :=
  {| Endpoint := Endpoint m; Region := Region m; Bucket := Bucket m;
     AccessKey := AccessKey m; SecretKey := SecretKey m;
     MaxRetries := MaxRetries m; MaxPartSize := MaxPartSize m;
     svc := svc m; res := res m; completedParts := completedParts m;
     currentPartNumber := currentPartNumber m; path := v;
     reader := reader m |}.

Definition set_reader (m : MultipartUpload) (v : Reader) : MultipartUpload :=
  {| Endpoint := Endpoint m; Region := Region m; Bucket := Bucket m;
     AccessKey := AccessKey m; SecretKey := SecretKey m;
     MaxRetries := MaxRetries m; MaxPartSize := MaxPartSize m;
     svc := svc m; res := res m; completedParts := completedParts m;
     currentPartNumber := currentPartNumber m; path := path m;
     reader := v |}.

(* ================================================================== *)
(** ** EnglishJoin *)

(** The body of [for i, w := range words]; [b] is the [strings.Builder]. *)
Definition EnglishJoin_body (len : Z) (oxfordComma : bool)
    (i : Z) (w : string) (b : string) : string :=
  if i =? 0 then (b ++ w)%string
  else if (1 <? len) && (i =? len - 1) then
    let b := if oxfordComma && (2 <? i) then (b ++ ",")%string else b in
    let b := (b ++ " and")%string in
    (b ++ (" " ++ w))%string
  else (b ++ (", " ++ w))%string.

Fixpoint EnglishJoin_range (len : Z) (oxfordComma : bool)
    (i : Z) (words : list string) (b : string) : string :=
  match words with
  | [] => b
  | w :: rest =>
      EnglishJoin_range len oxfordComma (i + 1) rest
        (EnglishJoin_body len oxfordComma i w b)
  end.

Definition EnglishJoin (words : list string) (oxfordComma : bool) : string :=
  EnglishJoin_range (Z.of_nat (List.length words)) oxfordComma 0 words "".

(* ================================================================== *)
(** ** The goroutine's effects *)

(** One observable step of the goroutine: a send on the event channel or
    a request to the service. *)
Inductive Action : Type :=
| Emit (e : Event)
| Call (c : s3.request).

(** How a computation ended.  [Panic] is a Go run-time panic, which is
    never recovered in this package.  [OutOfFuel] belongs to the model
    only: it marks a loop cut off by its fuel. *)
Inductive Outcome (A : Type) : Type :=
| Ok (a : A)
| Panic (why : string)
| OutOfFuel.

Arguments Ok {A} a.
Arguments Panic {A} why.
Arguments OutOfFuel {A}.

Definition nil_dereference : string :=
  "invalid memory address or nil pointer dereference".

Section Upload.

Context {W : IntSize} (be : Backend).

Record Result (A : Type) : Type := {
  out : Outcome A;
  log : list Action;
  final : World be }.

Arguments out {A} r.
Arguments log {A} r.
Arguments final {A} r.

Definition M (A : Type) : Type := World be -> Result A.

Definition ret {A} (a : A) : M A :=
  fun w => {| out := Ok a; log := []; final := w |}.

Definition bind {A B} (c : M A) (k : A -> M B) : M B :=
  fun w =>
    let r := c w in
    match out r with
    | Ok a =>
        let r' := k a (final r) in
        {| out := out r'; log := log r ++ log r'; final := final r' |}
    | Panic why => {| out := Panic why; log := log r; final := final r |}
    | OutOfFuel => {| out := OutOfFuel; log := log r; final := final r |}
    end.

Definition panic {A} (why : string) : M A :=
  fun w => {| out := Panic why; log := []; final := w |}.

Definition out_of_fuel {A} : M A :=
  fun w => {| out := OutOfFuel; log := []; final := w |}.

(** [ch <- e] *)
Definition emit (e : Event) : M unit :=
  fun w => {| out := Ok tt; log := [Emit e]; final := w |}.

(** A result with more log in front of it. *)
Definition prefix_log {A} (l : list Action) (r : Result A) : Result A :=
  {| out := out r; log := l ++ log r; final := final r |}.

Notation "x <- c ;; k" := (bind c (fun x => k))
  (at level 61, c at next level, right associativity).
Notation "' p <- c ;; k" := (bind c (fun x => let p := x in k))
  (at level 61, p pattern, c at next level, right associativity).
Notation "c ;; k" := (bind c (fun _ => k))
  (at level 61, right associativity).

(** Method calls on [m.svc]; a nil client panics. *)
Definition svc_CreateMultipartUpload (c : option s3.S3)
    (input : s3.CreateMultipartUploadInput.t)
    : M (s3.CreateMultipartUploadOutput.t * option error) :=
  match c with
  | None => panic nil_dereference
  | Some c => fun w =>
      let '((o, e), w') := CreateMultipartUpload be c input w in
      {| out := Ok (o, e);
         log := [Call (s3.CreateMultipartUpload input o e)];
         final := w' |}
  end.

(** Beside [(output, err)] the result carries the position at which the
    call leaves the [Body] of the request. *)
Definition svc_UploadPart (c : option s3.S3) (input : s3.UploadPartInput.t)
    : M (s3.UploadPartOutput.t * option error * Z) :=
  match c with
  | None => panic nil_dereference
  | Some c => fun w =>
      let '((o, e, pos), w') := UploadPart be c input w in
      {| out := Ok (o, e, pos);
         log := [Call (s3.UploadPart input o e)];
         final := w' |}
  end.

Definition svc_CompleteMultipartUpload (c : option s3.S3)
    (input : s3.CompleteMultipartUploadInput.t)
    : M (s3.CompleteMultipartUploadOutput.t * option error) :=
  match c with
  | None => panic nil_dereference
  | Some c => fun w =>
      let '((o, e), w') := CompleteMultipartUpload be c input w in
      {| out := Ok (o, e);
         log := [Call (s3.CompleteMultipartUpload input o e)];
         final := w' |}
  end.

Definition svc_AbortMultipartUpload (c : option s3.S3)
    (input : s3.AbortMultipartUploadInput.t) : M (option error) :=
  match c with
  | None => panic nil_dereference
  | Some c => fun w =>
      let '(e, w') := AbortMultipartUpload be c input w in
      {| out := Ok e;
         log := [Call (s3.AbortMultipartUpload input e)];
         final := w' |}
  end.

(** [*p] for a pointer [p]. *)
Definition deref {A} (p : option A) : M A :=
  match p with
  | None => panic nil_dereference
  | Some a => ret a
  end.

(** [make([]byte, size)] for an [int64] size: the run time converts the
    size to [int] and panics if that changes it or if it is negative.  The
    model keeps the capacity of the buffer. *)
Definition make_bytes (size : Z) : M Z :=
  let len := int_of_int64 size in
  if negb (len =? size) || (len <? 0)
  then panic "makeslice: len out of range"
  else ret size.

(** [buf[:n]] after a [Read] that returned [n] bytes: the bytes read,
    provided [n] is within the capacity. *)
Definition slice_to (buf : Z) (read : list byte) : M (list byte) :=
  if buf <? Z.of_nat (List.length read)
  then panic "slice bounds out of range"
  else ret read.

(* ---------------------------------------------------------------- *)
(** *** uploadPart *)

(** The [return] statement through which [uploadPart] leaves. *)
Inductive ReturnSite : Type := AtFailure | AtSuccess | AfterLoop.

(** [for tryNum <= m.MaxRetries { ... }] followed by the final
    [return].  [fuel] bounds the number of iterations.  [partInput] is
    the one request every attempt is made with; what an attempt did to
    its [Body] is there for the next. *)
Fixpoint uploadPart_loop (fuel : nat) (m : MultipartUpload)
    (partInput : s3.UploadPartInput.t) (partNum : Z) (tryNum : Z)
    : M (ReturnSite * (s3.CompletedPart.t + error)) :=
  if tryNum <=? MaxRetries m then
    match fuel with
    | O => out_of_fuel
    | S fuel' =>
        (* Attempt to upload part *)
        '(res, err, pos) <- svc_UploadPart (svc m) partInput ;;
        let partInput := s3.UploadPartInput.body_at partInput pos in
        match err with
        | Some err =>
            (* Fail *)
            if tryNum =? MaxRetries m then
              match as_awserr err with
              | Some aerr => ret (AtFailure, inr aerr)
              | None => ret (AtFailure, inr err)
              end
            else
              emit (Retry (currentPartNumber m) tryNum (MaxRetries m)) ;;
              uploadPart_loop fuel' m partInput partNum (int_add tryNum 1)
        | None =>
            (* Success *)
            ret (AtSuccess,
                 inl {| s3.CompletedPart.ETag := s3.UploadPartOutput.ETag res;
                        s3.CompletedPart.PartNumber := partNum |})
        end
    end
  else
    (* This should never happen *)
    ret (AfterLoop, inr (errors_New "could not upload part")).

(** The loop runs at most [MaxRetries] times. *)
Definition uploadPart_fuel (m : MultipartUpload) : nat :=
  Z.to_nat (MaxRetries m).

Definition uploadPart_traced (m : MultipartUpload) (chunk : list byte)
    (partNum : Z) : M (ReturnSite * (s3.CompletedPart.t + error)) :=
  r <- deref (res m) ;;
  let partInput :=
    {| s3.UploadPartInput.Body := bytes.NewReader chunk;
       s3.UploadPartInput.Bucket := s3.CreateMultipartUploadOutput.Bucket r;
       s3.UploadPartInput.Key := s3.CreateMultipartUploadOutput.Key r;
       s3.UploadPartInput.PartNumber := partNum;
       s3.UploadPartInput.UploadId := s3.CreateMultipartUploadOutput.UploadId r;
       s3.UploadPartInput.ContentLength := Z.of_nat (List.length chunk) |} in
  let tryNum := 1 in
  uploadPart_loop (uploadPart_fuel m) m partInput partNum tryNum.

Definition uploadPart (m : MultipartUpload) (chunk : list byte)
    (partNum : Z) : M (s3.CompletedPart.t + error) :=
  r <- uploadPart_traced m chunk partNum ;;
  ret (snd r).

(* ---------------------------------------------------------------- *)
(** *** complete and Abort *)

Definition complete (m : MultipartUpload)
    : M (s3.CompleteMultipartUploadOutput.t * option error) :=
  r <- deref (res m) ;;
  svc_CompleteMultipartUpload (svc m)
    {| s3.CompleteMultipartUploadInput.Bucket := s3.CreateMultipartUploadOutput.Bucket r;
       s3.CompleteMultipartUploadInput.Key := s3.CreateMultipartUploadOutput.Key r;
       s3.CompleteMultipartUploadInput.UploadId := s3.CreateMultipartUploadOutput.UploadId r;
       s3.CompleteMultipartUploadInput.Parts := completedParts m |}.

Definition Abort (m : MultipartUpload) : M (option error) :=
  r <- deref (res m) ;;
  svc_AbortMultipartUpload (svc m)
    {| s3.AbortMultipartUploadInput.Bucket := s3.CreateMultipartUploadOutput.Bucket r;
       s3.AbortMultipartUploadInput.Key := s3.CreateMultipartUploadOutput.Key r;
       s3.AbortMultipartUploadInput.UploadId := s3.CreateMultipartUploadOutput.UploadId r |}.

(* ---------------------------------------------------------------- *)
(** *** run *)

(** The failure path shared by a failed read and a failed part:
    abort the upload, send the [Error], return. *)
Definition abort_and_report (m : MultipartUpload) (err : error) : M unit :=
  abortErr <- Abort m ;;
  match abortErr with
  | Some abortErr =>
      emit (Error (fmt_Errorf2
              "upload error: "
              ", as well as an error aborting the upload: "
              "" err abortErr))
  | None => emit (Error err)
  end.

(** How one iteration of the [for] loop of [run] ends. *)
Inductive Flow : Type :=
| Continue (m : MultipartUpload) (totalBytes : Z)
| Break
| Return_ (m : MultipartUpload).

(** [if m.res == nil { ... }]: request the upload if we haven't already.
    The result is the updated struct and whether the body goes on
    ([false] for the [return] after a failed request). *)
Definition request_upload (m : MultipartUpload) (buf : Z) (rd : ReadResult)
    : M (MultipartUpload * bool) :=
  match res m with
  | None =>
      chunk <- slice_to buf (data rd) ;;
      let input :=
        {| s3.CreateMultipartUploadInput.Bucket := Bucket m;
           s3.CreateMultipartUploadInput.Key := path m;
           s3.CreateMultipartUploadInput.ContentType :=
             DetectContentType be chunk |} in
      '(o, err) <- svc_CreateMultipartUpload (svc m) input ;;
      let m := set_res m (Some o) in
      match err with
      | Some err => emit (Error err) ;; ret (m, false)
      | None => ret (m, true)
      end
  | Some _ => ret (m, true)
  end.

(** The rest of the body: perform the upload of [buf[:n]], report the
    progress, record the part. *)
Definition perform_upload (m : MultipartUpload) (buf : Z) (totalBytes : Z)
    (rd : ReadResult) : M Flow :=
  let n := Z.of_nat (List.length (data rd)) in
  chunk <- slice_to buf (data rd) ;;
  r <- uploadPart m chunk (currentPartNumber m) ;;
  match r with
  | inr err =>
      abort_and_report m err ;;
      ret (Return_ m)
  | inl part =>
      emit (Progress (currentPartNumber m) n) ;;
      let totalBytes := int_add totalBytes n in
      let m := set_completedParts m (completedParts m ++ [part]) in
      let m := set_currentPartNumber m (int_add (currentPartNumber m) 1) in
      ret (Continue m totalBytes)
  end.

(** The body of the loop, from the result [(n, err)] of
    [m.reader.Read(buf)] on. *)
Definition run_body (m : MultipartUpload) (buf : Z) (totalBytes : Z)
    (rd : ReadResult) : M Flow :=
  match rerr rd with
  | Some err =>
      if is_EOF err then
        (* There's no more data, so we've successfully uploaded all parts. *)
        ret Break
      else
        abort_and_report m err ;;
        ret (Return_ m)
  | None =>
      created <- request_upload m buf rd ;;
      let '(m, proceed) := created in
      if negb proceed then ret (Return_ m)
      else perform_upload m buf totalBytes rd
  end.

(** How the loop as a whole ends: by [break] or by a [return] inside. *)
Inductive LoopEnd : Type :=
| Broke (m : MultipartUpload) (totalBytes : Z)
| Returned (m : MultipartUpload).

(** [for { n, err := m.reader.Read(buf); ... }].  The recursion follows
    the reader; a reader with nothing left reports [io.EOF]. *)
Fixpoint run_loop (r : Reader) (m : MultipartUpload) (buf : Z)
    (totalBytes : Z) : M LoopEnd :=
  match r with
  | [] => ret (Broke m totalBytes)
  | rd :: r' =>
      f <- run_body m buf totalBytes rd ;;
      match f with
      | Continue m totalBytes => run_loop r' m buf totalBytes
      | Break => ret (Broke m totalBytes)
      | Return_ m => ret (Returned m)
      end
  end.

(** // Set defaults *)
Definition set_defaults (m : MultipartUpload) : MultipartUpload :=
  let m := if MaxRetries m =? 0 then set_MaxRetries m 3 else m in
  let m := if MaxPartSize m =? 0 then set_MaxPartSize m (Megabyte * 5) else m in
  let m := if (Endpoint m =? "")%string
           then set_Endpoint m "nyc3.digitaloceanspaces.com" else m in
  let m := if (Region m =? "")%string then set_Region m DefaultRegion else m in
  m.

(** // Validate *)
Definition missing_fields (m : MultipartUpload) : list string :=
  let missing := [] in
  let missing := if (AccessKey m =? "")%string
                 then missing ++ ["AccessKey"] else missing in
  let missing := if (SecretKey m =? "")%string
                 then missing ++ ["SecretKey"] else missing in
  let missing := if (Bucket m =? "")%string
                 then missing ++ ["Bucket"] else missing in
  missing.

(** The statements after the loop: complete the upload and report. *)
Definition run_finish (m : MultipartUpload) (totalBytes : Z)
    : M MultipartUpload :=
  '(res, err) <- complete m ;;
  match err with
  | Some err => emit (Error err)
  | None => ret tt
  end ;;
  emit (Complete totalBytes res) ;;
  ret m.

(** The struct as the loop finds it: client built from the
    configuration, part counter at 1. *)
Definition run_init (m : MultipartUpload) : MultipartUpload :=
  (* Make S3 config, init S3 session *)
  let m := set_svc m (Some (s3.New (AccessKey m) (SecretKey m)
                                   (Endpoint m) (Region m))) in
  set_currentPartNumber m 1.

Definition run (m : MultipartUpload) : M MultipartUpload :=
  let m := set_defaults m in
  let missing := missing_fields m in
  if 0 <? Z.of_nat (List.length missing) then
    emit (Error (errors_New ("missing " ++ EnglishJoin missing true)%string)) ;;
    ret m
  else
    let m := run_init m in
    (* Upload parts *)
    let totalBytes := 0 in
    buf <- make_bytes (MaxPartSize m) ;;
    e <- run_loop (reader m) m buf totalBytes ;;
    match e with
    | Returned m => ret m
    | Broke m totalBytes => run_finish m totalBytes
    end.

(** [Send] stores the reader and the path and starts [run] in a
    goroutine; the channel it returns carries the events of [run]. *)
Definition Send (m : MultipartUpload) (reader : Reader) (path : string)
    : M MultipartUpload :=
  let m := set_reader m reader in
  let m := set_path m path in
  run m.

(** A computation is within its fuel when it never ends in [OutOfFuel];
    [Q] is what it promises about the value it returns. *)
Definition within_fuel {A} (c : M A) (Q : A -> Prop) : Prop :=
  forall w, match out (c w) with
            | Ok a => Q a
            | Panic _ => True
            | OutOfFuel => False
            end.

(** The struct with which [run], started by [Send], enters its loop. *)
Definition loop_start (m : MultipartUpload) (reader : Reader)
    (path : string) : MultipartUpload :=
  run_init (set_defaults (set_path (set_reader m reader) path)).

End Upload.

Arguments out {be A} r.
Arguments log {be A} r.
Arguments final {be A} r.

(* ================================================================== *)
(** ** Observations on a log *)

Definition events (l : list Action) : list Event :=
  flat_map (fun a => match a with Emit e => [e] | Call _ => [] end) l.

Definition requests (l : list Action) : list s3.request :=
  flat_map (fun a => match a with Emit _ => [] | Call c => [c] end) l.

(** [Complete] and [Error] are the terminal events. *)
Definition is_terminal (e : Event) : bool :=
  match e with
  | Complete _ _ | Error _ => true
  | Progress _ _ | Retry _ _ _ => false
  end.

Definition is_Retry (e : Event) : bool :=
  match e with Retry _ _ _ => true | _ => false end.

(** The part number an event speaks about. *)
Definition event_part (e : Event) : list Z :=
  match e with
  | Progress p _ => [p]
  | Retry p _ _ => [p]
  | Complete _ _ | Error _ => []
  end.

Definition progress_part (e : Event) : list Z :=
  match e with Progress p _ => [p] | _ => [] end.

Definition progress_bytes (e : Event) : list Z :=
  match e with Progress _ b => [b] | _ => [] end.

Definition sum_Z (l : list Z) : Z := fold_right Z.add 0 l.

(** Sum of the [Bytes] fields of the [Progress] events of a log. *)
Definition sum_progress (l : list Action) : Z :=
  sum_Z (flat_map progress_bytes (events l)).

(** The sum of a list of [int]s as a Go program adds them up, from the
    left and starting at 0. *)
Definition sum_int {W : IntSize} (l : list Z) : Z := fold_left int_add l 0.

(** Number of [Retry] events of a log that carry part number [p]. *)
Definition count_retries (p : Z) (l : list Action) : Z :=
  Z.of_nat (List.length
    (filter (fun e => match e with Retry q _ _ => q =? p | _ => false end)
            (events l))).

(** Number of [Retry] events of a log, whatever their part. *)
Definition retry_events (l : list Action) : Z :=
  Z.of_nat (List.length (filter is_Retry (events l))).

(** The last [n] elements of a list. *)
Definition lastn {A} (n : nat) (l : list A) : list A :=
  skipn (List.length l - n) l.



(** The requests of the [UploadPart] calls that succeeded, in order:
    the requests that became parts. *)
Definition accepted (l : list Action) : list s3.UploadPartInput.t :=
  flat_map (fun c => match c with
                     | s3.UploadPart i _ None => [i]
                     | _ => []
                     end) (requests l).

(** The chunks the parts were built from: the slices behind the bodies
    of the requests that succeeded. *)
Definition part_sources (l : list Action) : list (list byte) :=
  map (fun i => bytes.s (s3.UploadPartInput.Body i)) (accepted l).

(** What the requests that succeeded had to send: the SDK sends a body
    from the position it finds it at, so these are the bytes their
    readers had not given yet when the calls were made. *)
Definition uploaded_chunks (l : list Action) : list (list byte) :=
  map (fun i => bytes.unread (s3.UploadPartInput.Body i)) (accepted l).

(** Part lists handed to [CompleteMultipartUpload]. *)
Definition completion_parts (l : list Action) : list (list s3.CompletedPart.t) :=
  flat_map (fun c => match c with
                     | s3.CompleteMultipartUpload i _ _ =>
                         [s3.CompleteMultipartUploadInput.Parts i]
                     | _ => []
                     end) (requests l).

(** [ceil(S / P)] *)
Definition ceil_div (S P : Z) : Z := (S + P - 1) / P.

(** The message of the validation error, by the set of empty fields. *)
Definition missing_message (noAccessKey noSecretKey noBucket : bool) : string :=
  match noAccessKey, noSecretKey, noBucket with
  | true, false, false => "missing AccessKey"
  | false, true, false => "missing SecretKey"
  | false, false, true => "missing Bucket"
  | true, true, false => "missing AccessKey and SecretKey"
  | true, false, true => "missing AccessKey and Bucket"
  | false, true, true => "missing SecretKey and Bucket"
  | true, true, true => "missing AccessKey, SecretKey and Bucket"
  | false, false, false => "missing "
  end.

(** What the first [Read] on a reader returns. *)
Definition first_read (r : Reader) : ReadResult :=
  match r with
  | [] => {| data := []; rerr := Some io_EOF |}
  | rd :: _ => rd
  end.

(** The reads that deliver a chunk: those before the first one that
    reports an error or the end of the stream. *)
Fixpoint chunks_read (r : Reader) : list (list byte) :=
  match r with
  | [] => []
  | rd :: r' =>
      match rerr rd with
      | None => data rd :: chunks_read r'
      | Some _ => []
      end
  end.

(** One attempt at a part: the request as the attempt finds it and the
    [(output, err)] of the service. *)
Abbreviation Attempt :=
  (s3.UploadPartInput.t * s3.UploadPartOutput.t * option error)%type.

Definition attempt_request (a : Attempt) : s3.request :=
  let '(i, o, e) := a in s3.UploadPart i o e.

Definition attempt_failed (a : Attempt) : Prop := snd a <> None.

(** What the service answers to at most [n] attempts at one part, the
    first made with [input] in the state [w]: the attempts stop at the
    first success, and each further one is made with the request as the
    attempt before has left it.  With the answers comes the state the
    service is left in. *)
Fixpoint attempts (be : Backend) (n : nat) (c : s3.S3)
    (input : s3.UploadPartInput.t) (w : World be)
    : list Attempt * World be :=
  match n with
  | O => ([], w)
  | S n' =>
      let '((o, e, pos), w') := UploadPart be c input w in
      match e with
      | None => ([(input, o, None)], w')
      | Some err =>
          let '(rest, w'') :=
            attempts be n' c (s3.UploadPartInput.body_at input pos) w' in
          ((input, o, Some err) :: rest, w'')
      end
  end.

(** The log the specification describes for a list of attempts, the first of
    them numbered [tryNum]: each request, followed at once by one [Retry]
    event with the part number, the number of the attempt and
    [maxRetries] when the attempt failed and was not attempt number
    [maxRetries]. *)
Fixpoint attempts_log (partNum maxRetries : Z) (tryNum : Z)
    (l : list Attempt) : list Action :=
  match l with
  | [] => []
  | a :: rest =>
      Call (attempt_request a)
        :: match snd a with
           | Some _ =>
               if tryNum =? maxRetries then []
               else [Emit (Retry partNum tryNum maxRetries)]
           | None => []
           end
        ++ attempts_log partNum maxRetries (tryNum + 1) rest
  end.

(** The request [uploadPart] builds for a chunk, as its first attempt
    finds it. *)
Definition part_input (r : s3.CreateMultipartUploadOutput.t)
    (chunk : list byte) (partNum : Z) : s3.UploadPartInput.t :=
  {| s3.UploadPartInput.Body := bytes.NewReader chunk;
     s3.UploadPartInput.Bucket := s3.CreateMultipartUploadOutput.Bucket r;
     s3.UploadPartInput.Key := s3.CreateMultipartUploadOutput.Key r;
     s3.UploadPartInput.PartNumber := partNum;
     s3.UploadPartInput.UploadId := s3.CreateMultipartUploadOutput.UploadId r;
     s3.UploadPartInput.ContentLength := Z.of_nat (List.length chunk) |}.

(** What one iteration of [run]'s loop for part [k] may log before its
    [Progress] event: requests other than the completion, and [Retry]
    events for part [k]. *)
Definition quiet (k : Z) (a : Action) : Prop :=
  match a with
  | Emit (Retry p _ _) => p = k
  | Emit _ => False
  | Call (s3.CompleteMultipartUpload _ _ _) => False
  | Call _ => True
  end.

(** The same, with [Error] events allowed: what an iteration that leaves
    the loop may log. *)
Definition tame (k : Z) (a : Action) : Prop :=
  match a with
  | Emit (Retry p _ _) => p = k
  | Emit (Error _) => True
  | Emit _ => False
  | Call (s3.CompleteMultipartUpload _ _ _) => False
  | Call _ => True
  end.

(** Every read fills the buffer of [P] bytes, except the last one, which
    brings at least one byte. *)
Fixpoint full_reads (P : Z) (chunks : list (list byte)) : Prop :=
  match chunks with
  | [] => True
  | c :: rest =>
      match rest with
      | [] => 0 < Z.of_nat (List.length c) <= P
      | _ :: _ => Z.of_nat (List.length c) = P /\ full_reads P rest
      end
  end.

(** The bytes a reader delivers: those of every [Read] up to and
    including the first one that reports an error or the end of the
    stream ([Read] may return bytes together with either). *)
Fixpoint bytes_delivered (r : Reader) : list byte :=
  match r with
  | [] => []
  | rd :: r' =>
      data rd ++
      match rerr rd with
      | None => bytes_delivered r'
      | Some _ => []
      end
  end.

(** The size of the input: the number of bytes delivered. *)
Definition input_size (r : Reader) : Z :=
  Z.of_nat (List.length (bytes_delivered r)).

(** Every part request of a log that does not come right after a
    [Retry] event finds its body at position 0; [after_retry] tells
    whether the log itself comes right after a [Retry]. *)
Fixpoint whole_unless_retried (after_retry : bool) (l : list Action) : Prop :=
  match l with
  | [] => True
  | Call (s3.UploadPart i _ _) :: l' =>
      (after_retry = false -> bytes.i (s3.UploadPartInput.Body i) = 0) /\
      whole_unless_retried false l'
  | Emit (Retry _ _ _) :: l' => whole_unless_retried true l'
  | _ :: l' => whole_unless_retried false l'
  end.

(* ================================================================== *)
(** ** A scripted service, for concrete runs *)

Module Scripted.

(** The failures the service will answer with: one entry per
    [UploadPart] request ([None] is a success; past the end of the list
    every request succeeds), and one for each other request.  Whatever
    it answers to an [UploadPart], the body of the request has been sent:
    the reader is left at its end. *)
Record world : Type := {
  create_err : option error;
  upload_errs : list (option error);
  complete_err : option error;
  abort_err : option error }.

Definition healthy : world :=
  {| create_err := None; upload_errs := [];
     complete_err := None; abort_err := None |}.

Definition sniff (b : list byte) : string :=
  match b with
  | [] => "text/plain; charset=utf-8"
  | x25 :: x50 :: x44 :: x46 :: x2d :: _ => "application/pdf"
  | _ => "application/octet-stream"
  end.

Definition backend : Backend :=
  {| World := world;
     CreateMultipartUpload := fun _ i w =>
       (({| s3.CreateMultipartUploadOutput.Bucket :=
              s3.CreateMultipartUploadInput.Bucket i;
            s3.CreateMultipartUploadOutput.Key :=
              s3.CreateMultipartUploadInput.Key i;
            s3.CreateMultipartUploadOutput.UploadId := "upload-1" |},
         create_err w), w);
     UploadPart := fun _ i w =>
       let sent :=
         Z.of_nat (List.length (bytes.s (s3.UploadPartInput.Body i))) in
       match upload_errs w with
       | [] => (({| s3.UploadPartOutput.ETag := "etag" |}, None, sent), w)
       | e :: rest =>
           (({| s3.UploadPartOutput.ETag := "etag" |}, e, sent),
            {| create_err := create_err w; upload_errs := rest;
               complete_err := complete_err w; abort_err := abort_err w |})
       end;
     CompleteMultipartUpload := fun _ i w =>
       (({| s3.CompleteMultipartUploadOutput.Location :=
              s3.CompleteMultipartUploadInput.Key i;
            s3.CompleteMultipartUploadOutput.ETag := "etag-final" |},
         complete_err w), w);
     AbortMultipartUpload := fun _ _ w => (abort_err w, w);
     DetectContentType := sniff |}.

(** A struct literal as a caller of the package writes it: the
    unexported fields have their zero values. *)
Definition upload (accessKey secretKey bucket : string)
    (maxRetries maxPartSize : Z) : MultipartUpload :=
  {| Endpoint := ""; Region := ""; Bucket := bucket;
     AccessKey := accessKey; SecretKey := secretKey;
     MaxRetries := maxRetries; MaxPartSize := maxPartSize;
     svc := None; res := None; completedParts := [];
     currentPartNumber := 0; path := ""; reader := [] |}.

(** The struct as [run] holds it while parts are uploaded. *)
Definition active (maxRetries partNumber : Z) : MultipartUpload :=
  {| Endpoint := "nyc3.digitaloceanspaces.com"; Region := DefaultRegion;
     Bucket := "bucket"; AccessKey := "key"; SecretKey := "secret";
     MaxRetries := maxRetries; MaxPartSize := Megabyte * 5;
     svc := Some (s3.New "key" "secret" "nyc3.digitaloceanspaces.com"
                         DefaultRegion);
     res := Some {| s3.CreateMultipartUploadOutput.Bucket := "bucket";
                    s3.CreateMultipartUploadOutput.Key := "dump.rdb";
                    s3.CreateMultipartUploadOutput.UploadId := "upload-1" |};
     completedParts := [];
     currentPartNumber := partNumber; path := "dump.rdb"; reader := [] |}.

Definition failing (uploads : list (option error))
    (completion abort : option error) : world :=
  {| create_err := None; upload_errs := uploads;
     complete_err := completion; abort_err := abort |}.

Definition completed : s3.CompleteMultipartUploadOutput.t :=
  {| s3.CompleteMultipartUploadOutput.Location := "dump.rdb";
     s3.CompleteMultipartUploadOutput.ETag := "etag-final" |}.

Definition chunk (s : string) : ReadResult :=
  {| data := list_byte_of_string s; rerr := None |}.

Definition failing_read (e : error) : ReadResult :=
  {| data := []; rerr := Some e |}.


End Scripted.

(* ================================================================== *)
(** ** Further observations *)

(** What [EnglishJoin] writes after the first word: the words but the
    last each after ", ", the last after " and ", with [comma] before
    " and". *)
Fixpoint english_tail (comma : string) (rest : list string) : string :=
  match rest with
  | [] => ""
  | w :: rest' =>
      match rest' with
      | [] => (comma ++ " and " ++ w)%string
      | _ :: _ => (", " ++ w ++ english_tail comma rest')%string
      end
  end.

(** The English list of [words]; the comma before "and" is written only
    when asked for and there are at least four words. *)
Definition english (words : list string) (oxfordComma : bool) : string :=
  match words with
  | [] => ""
  | w :: rest =>
      (w ++ english_tail
              (if oxfordComma && (3 <? Z.of_nat (List.length words))%Z
               then "," else "") rest)%string
  end.

(** The reads the loop of [run] makes use of: the successful ones up to
    the first read that reports an error; of that one only the error, and
    nothing at all if the error is [io.EOF]. *)
Fixpoint reads_used (r : Reader) : Reader :=
  match r with
  | [] => []
  | rd :: r' =>
      match rerr rd with
      | None => rd :: reads_used r'
      | Some e =>
          if is_EOF e then [] else [{| data := []; rerr := Some e |}]
      end
  end.

(** The inputs of the requests that end an upload. *)
Definition abort_input (o : s3.CreateMultipartUploadOutput.t)
    : s3.AbortMultipartUploadInput.t :=
  {| s3.AbortMultipartUploadInput.Bucket := s3.CreateMultipartUploadOutput.Bucket o;
     s3.AbortMultipartUploadInput.Key := s3.CreateMultipartUploadOutput.Key o;
     s3.AbortMultipartUploadInput.UploadId := s3.CreateMultipartUploadOutput.UploadId o |}.

Definition complete_input (o : s3.CreateMultipartUploadOutput.t)
    (parts : list s3.CompletedPart.t) : s3.CompleteMultipartUploadInput.t :=
  {| s3.CompleteMultipartUploadInput.Bucket := s3.CreateMultipartUploadOutput.Bucket o;
     s3.CompleteMultipartUploadInput.Key := s3.CreateMultipartUploadOutput.Key o;
     s3.CompleteMultipartUploadInput.UploadId := s3.CreateMultipartUploadOutput.UploadId o;
     s3.CompleteMultipartUploadInput.Parts := parts |}.

(** A request names the bucket, key and upload id that
    [CreateMultipartUpload] returned. *)
Definition addressed_to (o : s3.CreateMultipartUploadOutput.t)
    (c : s3.request) : Prop :=
  match c with
  | s3.CreateMultipartUpload _ _ _ => False
  | s3.UploadPart i _ _ =>
      s3.UploadPartInput.Bucket i = s3.CreateMultipartUploadOutput.Bucket o /\
      s3.UploadPartInput.Key i = s3.CreateMultipartUploadOutput.Key o /\
      s3.UploadPartInput.UploadId i = s3.CreateMultipartUploadOutput.UploadId o
  | s3.CompleteMultipartUpload i _ _ =>
      s3.CompleteMultipartUploadInput.Bucket i = s3.CreateMultipartUploadOutput.Bucket o /\
      s3.CompleteMultipartUploadInput.Key i = s3.CreateMultipartUploadOutput.Key o /\
      s3.CompleteMultipartUploadInput.UploadId i = s3.CreateMultipartUploadOutput.UploadId o
  | s3.AbortMultipartUpload i _ =>
      s3.AbortMultipartUploadInput.Bucket i = s3.CreateMultipartUploadOutput.Bucket o /\
      s3.AbortMultipartUploadInput.Key i = s3.CreateMultipartUploadOutput.Key o /\
      s3.AbortMultipartUploadInput.UploadId i = s3.CreateMultipartUploadOutput.UploadId o
  end.

(** A part request states as its length the length of the chunk its
    body reads from, and that chunk fits the buffer of [P] bytes. *)
Definition sized_part (P : Z) (c : s3.request) : Prop :=
  match c with
  | s3.UploadPart i _ _ =>
      s3.UploadPartInput.ContentLength i
        = Z.of_nat (List.length (bytes.s (s3.UploadPartInput.Body i))) /\
      Z.of_nat (List.length (bytes.s (s3.UploadPartInput.Body i))) <= P
  | _ => True
  end.

(** What the loop logs while parts of the upload [o] go up: [Retry] and
    [Progress] events and well-formed part requests for [o]. *)
Definition part_action (o : s3.CreateMultipartUploadOutput.t) (P : Z)
    (a : Action) : Prop :=
  match a with
  | Emit (Progress _ _) | Emit (Retry _ _ _) => True
  | Emit _ => False
  | Call (s3.UploadPart i o' e) =>
      addressed_to o (s3.UploadPart i o' e) /\ sized_part P (s3.UploadPart i o' e)
  | Call _ => False
  end.

(** The two ways an upload is ended: abort and one [Error]; or the
    completion request, an [Error] if it failed, and [Complete]. *)
Definition abort_tail (o : s3.CreateMultipartUploadOutput.t)
    (fin : list Action) : Prop :=
  exists ae e,
    fin = [Call (s3.AbortMultipartUpload (abort_input o) ae); Emit (Error e)].

Definition complete_tail (o : s3.CreateMultipartUploadOutput.t)
    (fin : list Action) : Prop :=
  exists parts out e b,
    fin = Call (s3.CompleteMultipartUpload (complete_input o parts) out e)
          :: match e with
             | Some err => [Emit (Error err)]
             | None => []
             end ++ [Emit (Complete b out)].

(** The log of an upload once it exists: parts, then at most one ending
    (none when the goroutine panics). *)
Definition upload_trace (o : s3.CreateMultipartUploadOutput.t) (P : Z)
    (rest : list Action) : Prop :=
  exists body fin,
    rest = body ++ fin /\
    Forall (part_action o P) body /\
    (fin = [] \/ abort_tail o fin \/ complete_tail o fin).

(** The log of [Send] on a struct without an upload. *)
Definition Send_trace (m : MultipartUpload) (path : string) (P : Z)
    (l : list Action) : Prop :=
  (exists e, l = [Emit (Error e)]) \/
  l = [] \/
  exists ct o e rest,
    l = Call (s3.CreateMultipartUpload
                {| s3.CreateMultipartUploadInput.Bucket := Bucket m;
                   s3.CreateMultipartUploadInput.Key := path;
                   s3.CreateMultipartUploadInput.ContentType := ct |} o e)
        :: rest /\
    match e with
    | Some err => rest = [Emit (Error err)]
    | None => upload_trace o P rest
    end.

Definition terminal_action (a : Action) : bool :=
  match a with
  | Emit e => is_terminal e
  | Call _ => false
  end.

Definition is_finalizer (c : s3.request) : bool :=
  match c with
  | s3.CompleteMultipartUpload _ _ _ | s3.AbortMultipartUpload _ _ => true
  | _ => false
  end.

(** The parts the service has acknowledged: for each part request that
    succeeded, in order, its part number with the ETag of the response. *)
Definition acknowledged (l : list Action) : list s3.CompletedPart.t :=
  flat_map (fun c => match c with
                     | s3.UploadPart i o None =>
                         [{| s3.CompletedPart.ETag := s3.UploadPartOutput.ETag o;
                             s3.CompletedPart.PartNumber :=
                               s3.UploadPartInput.PartNumber i |}]
                     | _ => []
                     end) (requests l).

(** Nothing of a part: no part request, no [Progress], no [Retry]. *)
Definition no_part (a : Action) : Prop :=
  match a with
  | Call (s3.UploadPart _ _ _) => False
  | Emit (Progress _ _) | Emit (Retry _ _ _) => False
  | _ => True
  end.

(** The part size in force. *)
Definition part_size (m : MultipartUpload) : Z :=
  if MaxPartSize m =? 0 then Megabyte * 5 else MaxPartSize m.

(** The [Progress] events of parts numbered from [k] on, one for each of
    the sizes. *)
Fixpoint progress_events (k : Z) (sizes : list Z) : list Event :=
  match sizes with
  | [] => []
  | n :: sizes' => Progress k n :: progress_events (k + 1) sizes'
  end.

(** The number of bytes each read of a source returns. *)
Definition read_sizes (r : Reader) : list Z :=
  map (fun rd => Z.of_nat (List.length (data rd))) r.

(** A service that, from a state in [Inv] on, accepts every request for
    an upload, for a part and for the completion. *)
Definition accepting (be : Backend) (Inv : World be -> Prop) : Prop :=
  (forall c i w, Inv w ->
     snd (fst (CreateMultipartUpload be c i w)) = None /\
     Inv (snd (CreateMultipartUpload be c i w))) /\
  (forall c i w, Inv w ->
     snd (fst (fst (UploadPart be c i w))) = None /\
     Inv (snd (UploadPart be c i w))) /\
  (forall c i w, Inv w ->
     snd (fst (CompleteMultipartUpload be c i w)) = None /\
     Inv (snd (CompleteMultipartUpload be c i w))).

(* ================================================================== *)
(** ** The command line program *)

Module main.

Module config.
Record t : Type := mk {
  AccessKey : string;
  SecretKey : string;
  Endpoint : string;
  Region : string }.
End config.

(** The flags, as cobra has parsed them. *)
Record Flags : Type := {
  endpoint : string;
  region : string;
  bucket : string;
  remotePath : string;
  maxRetries : Z;
  maxPartSize : Z;
  silent : bool;
  showVersion : bool }.

(** What [os.Stdin.Stat()] tells [run]. *)
Record FileInfo : Type := { ModeCharDevice : bool; Size : Z }.

(** How [run] goes on: it exits, returns an error, or calls [Send] on
    the struct it built. *)
Inductive Started : Type :=
| Exit (code : Z)
| Failed (err : error)
| Sent (m : MultipartUpload) (path : string).

(** [run] up to its call of [m.Send(os.Stdin, remotePath)].  [env] is
    what [babyenv.Parse(&cfg)] gives, [stat] what [os.Stdin.Stat()]
    gives. *)
Definition run (f : Flags) (env : config.t + error)
    (stat : FileInfo + error) : Started :=
  if showVersion f then Exit 0
  else
    match env with
    | inr err =>
        Failed (errors_New ("Could not parse config: " ++ Error_text err)%string)
    | inl cfg =>
        let missing : list string := [] in
        (* Validate CLI args *)
        let '(endpoint, missing) :=
          if (endpoint f =? "")%string && negb (config.Endpoint cfg =? "")%string
          then (config.Endpoint cfg, missing)
          else if (endpoint f =? "")%string
               then (endpoint f, missing ++ ["endpoint"])
               else (endpoint f, missing) in
        let '(region, missing) :=
          if (region f =? "")%string && negb (config.Region cfg =? "")%string
          then (config.Region cfg, missing)
          else if (region f =? "")%string
               then (region f, missing ++ ["region"])
               else (region f, missing) in
        let missing := if (bucket f =? "")%string
                       then missing ++ ["bucket"] else missing in
        let missing := if (remotePath f =? "")%string
                       then missing ++ ["path"] else missing in
        if 0 <? Z.of_nat (List.length missing) then
          Failed (errors_New ("missing " ++ EnglishJoin missing true)%string)
        else
          (* Is stdin a pipe? *)
          match stat with
          | inr err => Failed err
          | inl info =>
              if ModeCharDevice info || (Size info <=? 0) then
                Failed (errors_New "input must be through a pipe")
              else
                Sent {| AccessKey := config.AccessKey cfg;
                        SecretKey := config.SecretKey cfg;
                        Endpoint := endpoint;
                        Region := region;
                        MaxRetries := maxRetries f;
                        MaxPartSize := int64_wrap (Megabyte * maxPartSize f);
                        Bucket := bucket f;
                        svc := None; res := None; completedParts := [];
                        currentPartNumber := 0; path := ""; reader := [] |}
                     (remotePath f)
          end
    end.

End main.

(** Sample inputs of the command line program. *)
Module Sample.

Definition flags (bucket path : string) (retries partSize : Z) : main.Flags :=
  {| main.endpoint := ""; main.region := "";
     main.bucket := bucket; main.remotePath := path;
     main.maxRetries := retries; main.maxPartSize := partSize;
     main.silent := false; main.showVersion := false |}.

Definition env : main.config.t :=
  main.config.mk "key" "secret" "s3.amazonaws.com" "us-east-1".

Definition pipe (size : Z) : main.FileInfo :=
  {| main.ModeCharDevice := false; main.Size := size |}.

(** A world in which the request for the upload fails. *)
Definition no_upload (e : error) : Scripted.world :=
  {| Scripted.create_err := Some e; Scripted.upload_errs := [];
     Scripted.complete_err := None; Scripted.abort_err := None |}.

End Sample.

(* ================================================================== *)
(** ** Basic facts *)

Lemma wrap_small (bits z : Z) :
  0 < bits ->
  - 2 ^ (bits - 1) <= z <= 2 ^ (bits - 1) - 1 ->
  wrap bits z = z.
Proof.
  intros Hb H. unfold wrap.
  assert (Hp : 2 ^ bits = 2 * 2 ^ (bits - 1)).
  { replace bits with (Z.succ (bits - 1)) at 1 by lia.
    apply Z.pow_succ_r. lia. }
  rewrite Z.mod_small; lia.
Qed.

Lemma wrap_add_l (bits a b : Z) : wrap bits (wrap bits a + b) = wrap bits (a + b).
Proof.
  unfold wrap.
  replace ((a + 2 ^ (bits - 1)) mod 2 ^ bits - 2 ^ (bits - 1) + b
           + 2 ^ (bits - 1))
    with ((a + 2 ^ (bits - 1)) mod 2 ^ bits + b) by lia.
  rewrite Zplus_mod_idemp_l. f_equal. f_equal. lia.
Qed.

Lemma wrap_range (bits z : Z) :
  0 < bits ->
  - 2 ^ (bits - 1) <= wrap bits z <= 2 ^ (bits - 1) - 1.
Proof.
  intros Hb. unfold wrap.
  assert (Hp : 2 ^ bits = 2 * 2 ^ (bits - 1)).
  { replace bits with (Z.succ (bits - 1)) at 1 by lia.
    apply Z.pow_succ_r. lia. }
  assert (H1 : 0 < 2 ^ (bits - 1)) by (apply Z.pow_pos_nonneg; lia).
  pose proof (Z.mod_pos_bound (z + 2 ^ (bits - 1)) (2 ^ bits)). lia.
Qed.

Section Integers.

Context {W : IntSize}.

Lemma int_bits_pos : 0 < int_bits.
Proof. destruct W; reflexivity. Qed.

(** An [int] has at least 32 bits. *)
Lemma int_bounds : min_int = - max_int - 1 /\ 2147483647 <= max_int.
Proof. unfold min_int, max_int. destruct W; cbn; lia. Qed.

Lemma int_wrap_small (z : Z) : in_int z -> int_wrap z = z.
Proof.
  unfold in_int, min_int, max_int, int_wrap. intros H.
  apply wrap_small; [apply int_bits_pos | exact H].
Qed.

Lemma int_wrap_add_l (a b : Z) : int_wrap (int_wrap a + b) = int_wrap (a + b).
Proof. apply wrap_add_l. Qed.

Lemma int_wrap_range (z : Z) : in_int (int_wrap z).
Proof. apply wrap_range, int_bits_pos. Qed.

End Integers.

(** Arithmetic on the bounds of [int]. *)
Ltac int_lia :=
  pose proof int_bounds; unfold in_int in *; lia.

Lemma append_empty_r (s : string) : (s ++ "")%string = s.
Proof. induction s as [|a s IH]; cbn; [reflexivity | now rewrite IH]. Qed.

Section Defaults.

Variable m : MultipartUpload.

Lemma set_defaults_AccessKey : AccessKey (set_defaults m) = AccessKey m.
Proof.
  unfold set_defaults.
  repeat match goal with |- context [if ?c then _ else _] => destruct c end;
    reflexivity.
Qed.

Lemma set_defaults_SecretKey : SecretKey (set_defaults m) = SecretKey m.
Proof.
  unfold set_defaults.
  repeat match goal with |- context [if ?c then _ else _] => destruct c end;
    reflexivity.
Qed.

Lemma set_defaults_Bucket : Bucket (set_defaults m) = Bucket m.
Proof.
  unfold set_defaults.
  repeat match goal with |- context [if ?c then _ else _] => destruct c end;
    reflexivity.
Qed.

Lemma set_defaults_res : res (set_defaults m) = res m.
Proof.
  unfold set_defaults.
  repeat match goal with |- context [if ?c then _ else _] => destruct c end;
    reflexivity.
Qed.

Lemma set_defaults_completedParts :
  completedParts (set_defaults m) = completedParts m.
Proof.
  unfold set_defaults.
  repeat match goal with |- context [if ?c then _ else _] => destruct c end;
    reflexivity.
Qed.

Lemma set_defaults_reader : reader (set_defaults m) = reader m.
Proof.
  unfold set_defaults.
  repeat match goal with |- context [if ?c then _ else _] => destruct c end;
    reflexivity.
Qed.

Lemma set_defaults_MaxPartSize :
  MaxPartSize (set_defaults m) =
  if MaxPartSize m =? 0 then Megabyte * 5 else MaxPartSize m.
Proof.
  unfold set_defaults.
  destruct (MaxRetries m =? 0); cbn [MaxPartSize set_MaxRetries];
    destruct (MaxPartSize m =? 0) eqn:E; cbn [set_MaxPartSize Endpoint];
    repeat match goal with |- context [if ?c then _ else _] => destruct c end;
    reflexivity.
Qed.

Lemma set_defaults_MaxRetries :
  MaxRetries (set_defaults m) =
  if MaxRetries m =? 0 then 3 else MaxRetries m.
Proof.
  unfold set_defaults.
  destruct (MaxRetries m =? 0) eqn:E;
    repeat match goal with |- context [if ?c then _ else _] => destruct c end;
    reflexivity.
Qed.

Lemma missing_fields_defaults :
  missing_fields (set_defaults m) = missing_fields m.
Proof.
  unfold missing_fields.
  now rewrite set_defaults_AccessKey, set_defaults_SecretKey,
    set_defaults_Bucket.
Qed.

End Defaults.

(** The validation passes exactly when the three required fields are set. *)
Lemma missing_fields_nil (m : MultipartUpload) :
  AccessKey m <> "" -> SecretKey m <> "" -> Bucket m <> "" ->
  missing_fields m = [].
Proof.
  intros Ha Hs Hb. unfold missing_fields.
  apply String.eqb_neq in Ha, Hs, Hb. now rewrite Ha, Hs, Hb.
Qed.

Lemma missing_message_EnglishJoin (m : MultipartUpload) :
  ("missing " ++ EnglishJoin (missing_fields m) true)%string =
  missing_message (AccessKey m =? "")%string (SecretKey m =? "")%string
                  (Bucket m =? "")%string.
Proof.
  unfold missing_fields.
  destruct (AccessKey m =? "")%string, (SecretKey m =? "")%string,
    (Bucket m =? "")%string; reflexivity.
Qed.

Section Properties.

Context {W : IntSize} (be : Backend).

(** *** Validation *)

(** C5.  When one of AccessKey, SecretKey, Bucket is empty, [Send]
    returns after a single [Error] event whose message lists the empty
    fields in English; no request reaches the service and its state is
    untouched.  With AccessKey and Bucket empty the message is
    "missing AccessKey and Bucket". *)
Theorem Send_missing_fields (m : MultipartUpload) (r : Reader)
    (path : string) (w : World be) :
  AccessKey m = "" \/ SecretKey m = "" \/ Bucket m = "" ->
  let R := Send be m r path w in
  (exists m', out R = Ok m') /\
  log R =
    [Emit (Error (errors_New
       (missing_message (AccessKey m =? "")%string (SecretKey m =? "")%string
                        (Bucket m =? "")%string)))] /\
  requests (log R) = [] /\
  final R = w /\
  (AccessKey m = "" -> SecretKey m <> "" -> Bucket m = "" ->
   events (log R) = [Error (errors_New "missing AccessKey and Bucket")]).
Proof.
  intros H.
  set (m0 := set_path (set_reader m r) path).
  assert (Hne : missing_fields m0 <> []).
  { unfold missing_fields. cbn [m0 set_path set_reader AccessKey SecretKey Bucket].
    destruct H as [H | [H | H]]; rewrite H; cbn [String.eqb];
      repeat match goal with |- context [if ?c then _ else _] => destruct c end;
      discriminate. }
  assert (Hlog : log (Send be m r path w) =
    [Emit (Error (errors_New
       (missing_message (AccessKey m =? "")%string (SecretKey m =? "")%string
                        (Bucket m =? "")%string)))] /\
    (exists m', out (Send be m r path w) = Ok m') /\
    final (Send be m r path w) = w).
  { unfold Send, run. fold m0. rewrite missing_fields_defaults.
    destruct (missing_fields m0) as [|x l] eqn:E; [now elim Hne|].
    replace (0 <? Z.of_nat (List.length (x :: l))) with true
      by (symmetry; apply Z.ltb_lt; cbn [List.length]; lia).
    rewrite <- E, (missing_message_EnglishJoin m0).
    cbn. eauto. }
  destruct Hlog as (Hlog & Hout & Hfin). cbv zeta.
  rewrite Hlog. repeat split; auto.
  intros Ha Hs Hb. apply String.eqb_neq in Hs. rewrite Ha, Hb, Hs. reflexivity.
Qed.

(* ---------------------------------------------------------------- *)
(** *** The retry loop of uploadPart *)

Lemma events_app l1 l2 : events (l1 ++ l2) = events l1 ++ events l2.
Proof. unfold events. apply flat_map_app. Qed.

Lemma requests_app l1 l2 : requests (l1 ++ l2) = requests l1 ++ requests l2.
Proof. unfold requests. apply flat_map_app. Qed.


(* Equations of the monad. *)

Lemma bind_Ok {A B} (c : M be A) (k : A -> M be B) (w w' : World be)
    (a : A) (l : list Action) :
  c w = {| out := Ok a; log := l; final := w' |} ->
  bind be c k w = prefix_log be l (k a w').
Proof. intros H. unfold bind. rewrite H. reflexivity. Qed.

Lemma bind_Panic {A B} (c : M be A) (k : A -> M be B) (w w' : World be)
    (why : string) (l : list Action) :
  c w = {| out := Panic why; log := l; final := w' |} ->
  bind be c k w = {| out := Panic why; log := l; final := w' |}.
Proof. intros H. unfold bind. rewrite H. reflexivity. Qed.

Lemma prefix_log_nil {A} (r : Result be A) : prefix_log be [] r = r.
Proof. destruct r. reflexivity. Qed.

Lemma bind_ret {A B} (a : A) (k : A -> M be B) (w : World be) :
  bind be (ret be a) k w = k a w.
Proof. rewrite (bind_Ok _ _ w w a []) by reflexivity. apply prefix_log_nil. Qed.

Lemma bind_emit {B} (e : Event) (k : unit -> M be B) (w : World be) :
  bind be (emit be e) k w = prefix_log be [Emit e] (k tt w).
Proof. apply bind_Ok. reflexivity. Qed.

Lemma bind_panic {A B} (why : string) (k : A -> M be B) (w : World be) :
  bind be (panic be why) k w = {| out := Panic why; log := []; final := w |}.
Proof. apply bind_Panic. reflexivity. Qed.

Lemma bind_assoc {A B C} (c : M be A) (k1 : A -> M be B)
    (k2 : B -> M be C) (w : World be) :
  bind be (bind be c k1) k2 w = bind be c (fun a => bind be (k1 a) k2) w.
Proof.
  unfold bind. destruct (out (c w)) as [a| |]; cbn [out log final];
    [|reflexivity..].
  destruct (out (k1 a (final (c w)))); cbn [out log final];
    now rewrite ?app_assoc.
Qed.

Lemma svc_UploadPart_Some c input w o e pos w' :
  UploadPart be c input w = ((o, e, pos), w') ->
  svc_UploadPart be (Some c) input w =
  {| out := Ok (o, e, pos);
     log := [Call (s3.UploadPart input o e)];
     final := w' |}.
Proof. intros H. cbn. rewrite H. reflexivity. Qed.

(** One iteration of the retry loop. *)
Lemma uploadPart_loop_step (m : MultipartUpload) (c : s3.S3)
    (input : s3.UploadPartInput.t) (pn : Z) (fuel : nat) (tryNum : Z)
    (w w' : World be) o e pos :
  svc m = Some c ->
  tryNum <= MaxRetries m ->
  UploadPart be c input w = ((o, e, pos), w') ->
  uploadPart_loop be (S fuel) m input pn tryNum w =
  prefix_log be [Call (s3.UploadPart input o e)]
    match e with
    | None =>
        ret be (AtSuccess,
                inl {| s3.CompletedPart.ETag := s3.UploadPartOutput.ETag o;
                       s3.CompletedPart.PartNumber := pn |}) w'
    | Some err =>
        if tryNum =? MaxRetries m then ret be (AtFailure, inr err) w'
        else prefix_log be [Emit (Retry (currentPartNumber m) tryNum (MaxRetries m))]
               (uploadPart_loop be fuel m
                  (s3.UploadPartInput.body_at input pos) pn
                  (int_add tryNum 1) w')
    end.
Proof.
  intros Hsvc Hle E. cbn [uploadPart_loop].
  replace (tryNum <=? MaxRetries m) with true by (symmetry; apply Z.leb_le; lia).
  rewrite Hsvc.
  rewrite (bind_Ok _ _ _ _ _ _ (svc_UploadPart_Some _ _ _ _ _ _ _ E)).
  f_equal. destruct e as [err|]; [|reflexivity].
  destruct (tryNum =? MaxRetries m).
  - destruct err; reflexivity.
  - apply bind_emit.
Qed.

(** The next attempt number is the next integer. *)
Lemma next_attempt (m : MultipartUpload) (tryNum : Z) :
  MaxRetries m <= max_int -> 1 <= tryNum < MaxRetries m ->
  int_add tryNum 1 = tryNum + 1.
Proof. intros Hmax Htry. apply int_wrap_small. int_lia. Qed.



(** The retry loop against the service.  From any attempt number within
    bounds, with enough fuel, the loop makes exactly the attempts the
    service answers, logs them as the specification describes, leaves the service
    as they leave it, and returns through one of the two [return]
    statements of its body. *)
Lemma uploadPart_loop_attempts (m : MultipartUpload) (c : s3.S3) (pn : Z) :
  svc m = Some c ->
  MaxRetries m <= max_int ->
  forall (fuel : nat) (tryNum : Z) (input : s3.UploadPartInput.t)
         (w : World be),
    1 <= tryNum <= MaxRetries m ->
    (Z.to_nat (MaxRetries m - tryNum) < fuel)%nat ->
    let R := uploadPart_loop be fuel m input pn tryNum w in
    let A := attempts be (Z.to_nat (MaxRetries m - tryNum + 1)) c input w in
    exists failed i o e,
      fst A = failed ++ [(i, o, e)] /\
      Forall attempt_failed failed /\
      tryNum + Z.of_nat (List.length failed) <= MaxRetries m /\
      log R = attempts_log (currentPartNumber m) (MaxRetries m) tryNum (fst A) /\
      final R = snd A /\
      match e with
      | None =>
          out R = Ok (AtSuccess,
                      inl {| s3.CompletedPart.ETag := s3.UploadPartOutput.ETag o;
                             s3.CompletedPart.PartNumber := pn |})
      | Some err =>
          out R = Ok (AtFailure, inr err) /\
          tryNum + Z.of_nat (List.length failed) = MaxRetries m
      end.
Proof.
  intros Hsvc Hmax.
  induction fuel as [|fuel IH]; intros tryNum input w Htry Hfuel.
  - lia.
  - cbv zeta.
    replace (Z.to_nat (MaxRetries m - tryNum + 1))
      with (S (Z.to_nat (MaxRetries m - tryNum))) by lia.
    cbn [attempts].
    destruct (UploadPart be c input w) as [[[o e] pos] w'] eqn:E.
    rewrite (uploadPart_loop_step m c input pn fuel tryNum w w' o e pos Hsvc
               (proj2 Htry) E).
    destruct e as [err|].
    + destruct (tryNum =? MaxRetries m) eqn:Elast.
      * apply Z.eqb_eq in Elast.
        replace (Z.to_nat (MaxRetries m - tryNum)) with O by lia.
        cbn [attempts fst snd].
        exists [], input, o, (Some err).
        cbn [app List.length attempts_log snd attempt_request prefix_log
             ret out log final].
        replace (tryNum =? MaxRetries m) with true
          by (symmetry; apply Z.eqb_eq; exact Elast).
        repeat split; try reflexivity; try constructor; lia.
      * apply Z.eqb_neq in Elast.
        rewrite (next_attempt m tryNum Hmax) by lia.
        destruct (IH (tryNum + 1) (s3.UploadPartInput.body_at input pos) w')
          as (failed & i' & o' & e' & HA & Hf & Hlen & Hlog & Hfin & Hres);
          [lia | lia |].
        cbv zeta in HA, Hlog, Hfin, Hres.
        replace (Z.to_nat (MaxRetries m - (tryNum + 1) + 1))
          with (Z.to_nat (MaxRetries m - tryNum)) in HA, Hlog, Hfin by lia.
        destruct (attempts be (Z.to_nat (MaxRetries m - tryNum)) c
                    (s3.UploadPartInput.body_at input pos) w') as [rest w''].
        cbn [fst snd] in *.
        exists ((input, o, Some err) :: failed), i', o', e'.
        cbn [app List.length attempts_log snd attempt_request prefix_log
             out log final].
        replace (tryNum =? MaxRetries m) with false
          by (symmetry; apply Z.eqb_neq; exact Elast).
        rewrite HA, Hlog, HA.
        split; [reflexivity|].
        split; [constructor; [discriminate | exact Hf]|].
        split; [lia|]. split; [reflexivity|]. split; [exact Hfin|].
        destruct e'; [split; [tauto | lia] | exact Hres].
    + cbn [fst snd].
      exists [], input, o, None.
      cbn [app List.length attempts_log snd attempt_request prefix_log
           ret out log final].
      repeat split; try reflexivity; try constructor; lia.
Qed.

Lemma uploadPart_traced_eq (m : MultipartUpload) r chunk pn w :
  res m = Some r ->
  uploadPart_traced be m chunk pn w =
  uploadPart_loop be (uploadPart_fuel m) m (part_input r chunk pn) pn 1 w.
Proof.
  intros H. unfold uploadPart_traced. rewrite H. cbn [deref].
  now rewrite bind_ret.
Qed.

Lemma uploadPart_eq (m : MultipartUpload) chunk pn w :
  uploadPart be m chunk pn w =
  let T := uploadPart_traced be m chunk pn w in
  {| out := match out T with
            | Ok r => Ok (snd r)
            | Panic why => Panic why
            | OutOfFuel => OutOfFuel
            end;
     log := log T; final := final T |}.
Proof.
  unfold uploadPart, bind. cbv zeta.
  destruct (out (uploadPart_traced be m chunk pn w)); cbn; [|reflexivity..].
  now rewrite app_nil_r.
Qed.

(** C10.  With MaxRetries at least 1, [uploadPart] always leaves through
    a [return] inside the loop: with the part after a successful attempt
    or with the failure of an attempt; the [return] after the loop is
    never reached (and the loop does not run on: the model's fuel
    suffices). *)
Theorem uploadPart_fallthrough_unreachable (m : MultipartUpload)
    (c : s3.S3) (r : s3.CreateMultipartUploadOutput.t)
    (chunk : list byte) (partNum : Z) (w : World be) :
  1 <= MaxRetries m <= max_int ->
  svc m = Some c ->
  res m = Some r ->
  let T := uploadPart_traced be m chunk partNum w in
  (exists part, out T = Ok (AtSuccess, inl part)) \/
  (exists err, out T = Ok (AtFailure, inr err)).
Proof.
  intros Hmax Hsvc Hres. cbv zeta.
  rewrite (uploadPart_traced_eq m r chunk partNum w Hres).
  destruct (uploadPart_loop_attempts m c partNum Hsvc (proj2 Hmax)
              (uploadPart_fuel m) 1 (part_input r chunk partNum) w)
    as (failed & i & o & e & _ & _ & _ & _ & _ & Hout).
  - lia.
  - unfold uploadPart_fuel. lia.
  - cbv zeta in Hout. destruct e as [err|].
    + right. exists err. tauto.
    + left. eauto.
Qed.

(** Outside that range of MaxRetries the loop body never runs and the
    final [return] is what [uploadPart] executes. *)
Lemma uploadPart_fallthrough_reached (m : MultipartUpload)
    (r : s3.CreateMultipartUploadOutput.t)
    (chunk : list byte) (partNum : Z) (w : World be) :
  MaxRetries m < 1 ->
  res m = Some r ->
  uploadPart_traced be m chunk partNum w =
  ret be (AfterLoop, inr (errors_New "could not upload part")) w.
Proof.
  intros Hmax Hres. rewrite (uploadPart_traced_eq m r chunk partNum w Hres).
  destruct (uploadPart_fuel m); cbn [uploadPart_loop];
    replace (1 <=? MaxRetries m) with false
      by (symmetry; apply Z.leb_gt; lia); reflexivity.
Qed.



(* ---------------------------------------------------------------- *)
(** *** What the pieces of an iteration log *)

Lemma quiet_tame k a : quiet k a -> tame k a.
Proof. destruct a as [[]|[]]; cbn; tauto. Qed.

Lemma Forall_quiet_tame k l : Forall (quiet k) l -> Forall (tame k) l.
Proof. apply Forall_impl, quiet_tame. Qed.

Lemma accepted_app l1 l2 : accepted (l1 ++ l2) = accepted l1 ++ accepted l2.
Proof. unfold accepted. now rewrite requests_app, flat_map_app. Qed.

Lemma part_sources_app l1 l2 :
  part_sources (l1 ++ l2) = part_sources l1 ++ part_sources l2.
Proof. unfold part_sources. now rewrite accepted_app, map_app. Qed.

Lemma uploaded_chunks_app l1 l2 :
  uploaded_chunks (l1 ++ l2) = uploaded_chunks l1 ++ uploaded_chunks l2.
Proof. unfold uploaded_chunks. now rewrite accepted_app, map_app. Qed.

Lemma completion_parts_app l1 l2 :
  completion_parts (l1 ++ l2) = completion_parts l1 ++ completion_parts l2.
Proof. unfold completion_parts. now rewrite requests_app, flat_map_app. Qed.

Lemma sum_Z_app l1 l2 : sum_Z (l1 ++ l2) = sum_Z l1 + sum_Z l2.
Proof. unfold sum_Z. induction l1; cbn; lia. Qed.

Lemma sum_progress_app l1 l2 :
  sum_progress (l1 ++ l2) = sum_progress l1 + sum_progress l2.
Proof. unfold sum_progress. now rewrite events_app, flat_map_app, sum_Z_app. Qed.

Lemma tame_progress_part k l :
  Forall (tame k) l -> flat_map progress_part (events l) = [].
Proof.
  induction 1 as [|a l Ha _ IH]; [reflexivity|].
  destruct a as [[]|]; cbn in *; tauto.
Qed.

Lemma tame_sum_progress k l : Forall (tame k) l -> sum_progress l = 0.
Proof.
  unfold sum_progress. induction 1 as [|a l Ha _ IH]; [reflexivity|].
  destruct a as [[]|]; cbn in *; tauto.
Qed.


Lemma tame_completion_parts k l :
  Forall (tame k) l -> completion_parts l = [].
Proof.
  induction 1 as [|a l Ha _ IH]; [reflexivity|].
  destruct a as [|[]]; cbn in *; tauto.
Qed.

Lemma tame_no_Complete k l b res :
  Forall (tame k) l -> ~ In (Emit (Complete b res)) l.
Proof.
  intros H Hin. rewrite Forall_forall in H. exact (H _ Hin).
Qed.

Lemma tame_count_retries k p l :
  Forall (tame k) l -> p <> k -> count_retries p l = 0.
Proof.
  intros H Hp. unfold count_retries.
  induction H as [|a l Ha _ IH]; [reflexivity|].
  destruct a as [[]|]; cbn in *; try tauto.
  subst. replace (k =? p) with false by (symmetry; apply Z.eqb_neq; congruence).
  exact IH.
Qed.

(** A [bind] either runs its continuation after its first part, or
    stops with the first part's log. *)
Lemma bind_cases {A B} (c : M be A) (k : A -> M be B) (w : World be) :
  (exists a, out (c w) = Ok a /\
             bind be c k w = prefix_log be (log (c w)) (k a (final (c w)))) \/
  ((forall b, out (bind be c k w) <> Ok b) /\
   log (bind be c k w) = log (c w)).
Proof.
  unfold bind. destruct (out (c w)) as [a| |] eqn:E.
  - left. exists a. split; reflexivity.
  - right. split; [intros b; discriminate | reflexivity].
  - right. split; [intros b; discriminate | reflexivity].
Qed.

Lemma uploadPart_loop_quiet (m : MultipartUpload) (pn : Z) :
  forall (fuel : nat) (tryNum : Z) (input : s3.UploadPartInput.t)
         (w : World be),
    let R := uploadPart_loop be fuel m input pn tryNum w in
    Forall (quiet (currentPartNumber m)) (log R) /\
    match out R with
    | Ok (_, inl part) =>
        s3.CompletedPart.PartNumber part = pn /\
        part_sources (log R) = [bytes.s (s3.UploadPartInput.Body input)]
    | _ => part_sources (log R) = []
    end.
Proof.
  induction fuel as [|fuel IH]; intros tryNum input w; cbv zeta.
  - cbn [uploadPart_loop]. destruct (tryNum <=? MaxRetries m); cbn; auto.
  - destruct (tryNum <=? MaxRetries m) eqn:Ele.
    2:{ cbn [uploadPart_loop]. rewrite Ele. cbn. auto. }
    apply Z.leb_le in Ele.
    destruct (svc m) as [c|] eqn:Hsvc.
    2:{ cbn [uploadPart_loop].
        replace (tryNum <=? MaxRetries m) with true
          by (symmetry; now apply Z.leb_le).
        rewrite Hsvc. cbn [svc_UploadPart]. rewrite bind_panic. cbn. auto. }
    destruct (UploadPart be c input w) as [[[o e] pos] w'] eqn:E.
    rewrite (uploadPart_loop_step m c input pn fuel tryNum w w' o e pos
               Hsvc Ele E).
    destruct e as [err|].
    + destruct (tryNum =? MaxRetries m).
      * cbn. split; [repeat constructor | reflexivity].
      * specialize (IH (int_add tryNum 1)
                       (s3.UploadPartInput.body_at input pos) w').
        cbv zeta in IH.
        destruct IH as [IHq IHo]. cbn [prefix_log out log app]. split.
        -- constructor; [exact I|]. constructor; [reflexivity | exact IHq].
        -- exact IHo.
    + cbn. split; [repeat constructor | auto].
Qed.

Lemma uploadPart_quiet (m : MultipartUpload) (chunk : list byte)
    (pn : Z) (w : World be) :
  let R := uploadPart be m chunk pn w in
  Forall (quiet (currentPartNumber m)) (log R) /\
  match out R with
  | Ok (inl part) =>
      s3.CompletedPart.PartNumber part = pn /\
      part_sources (log R) = [chunk]
  | _ => part_sources (log R) = []
  end.
Proof.
  cbv zeta. rewrite uploadPart_eq. cbv zeta. cbn [out log].
  destruct (res m) as [r|] eqn:Hres.
  - rewrite (uploadPart_traced_eq m r chunk pn w Hres).
    destruct (uploadPart_loop_quiet m pn (uploadPart_fuel m) 1
                (part_input r chunk pn) w) as [Hq Ho].
    split; [exact Hq|].
    destruct (out (uploadPart_loop be (uploadPart_fuel m) m
                     (part_input r chunk pn) pn 1 w)) as [[site [part|err]]| |];
      exact Ho.
  - unfold uploadPart_traced. rewrite Hres. cbn [deref]. rewrite bind_panic.
    cbn. auto.
Qed.

Lemma svc_AbortMultipartUpload_Some c input w :
  svc_AbortMultipartUpload be (Some c) input w =
  {| out := Ok (fst (AbortMultipartUpload be c input w));
     log := [Call (s3.AbortMultipartUpload input
                     (fst (AbortMultipartUpload be c input w)))];
     final := snd (AbortMultipartUpload be c input w) |}.
Proof. cbn. now destruct (AbortMultipartUpload be c input w). Qed.

Lemma abort_and_report_tame (m : MultipartUpload) (err : error)
    (w : World be) (k : Z) :
  Forall (tame k) (log (abort_and_report be m err w)).
Proof.
  unfold abort_and_report, Abort.
  destruct (res m) as [r|]; cbn [deref].
  2:{ rewrite bind_assoc, bind_panic. constructor. }
  rewrite bind_assoc, bind_ret.
  destruct (svc m) as [c|].
  2:{ cbn [svc_AbortMultipartUpload]. rewrite bind_panic. constructor. }
  rewrite (bind_Ok _ _ _ _ _ _ (svc_AbortMultipartUpload_Some _ _ _)).
  cbn [prefix_log log].
  destruct (fst (AbortMultipartUpload be c _ w)); cbn; repeat constructor.
Qed.

Lemma svc_CreateMultipartUpload_Some c input w :
  svc_CreateMultipartUpload be (Some c) input w =
  {| out := Ok (fst (CreateMultipartUpload be c input w));
     log := [Call (s3.CreateMultipartUpload input
                     (fst (fst (CreateMultipartUpload be c input w)))
                     (snd (fst (CreateMultipartUpload be c input w))))];
     final := snd (CreateMultipartUpload be c input w) |}.
Proof. cbn. now destruct (CreateMultipartUpload be c input w) as [[o e] w']. Qed.

Lemma slice_to_cases (buf : Z) (read : list byte) (w : World be) :
  (Z.of_nat (List.length read) <= buf /\
   slice_to be buf read w = ret be read w) \/
  (buf < Z.of_nat (List.length read) /\
   slice_to be buf read w = panic be "slice bounds out of range" w).
Proof.
  unfold slice_to. destruct (buf <? Z.of_nat (List.length read)) eqn:E.
  - right. apply Z.ltb_lt in E. auto.
  - left. apply Z.ltb_ge in E. auto.
Qed.

(** The request for the upload: nothing but the request itself and, when
    it fails, the [Error]; the part counter and the parts are untouched. *)
Lemma request_upload_shape (m : MultipartUpload) (buf : Z)
    (rd : ReadResult) (w : World be) :
  let R := request_upload be m buf rd w in
  let k := currentPartNumber m in
  part_sources (log R) = [] /\
  match out R with
  | Ok (m1, true) =>
      Forall (quiet k) (log R) /\
      currentPartNumber m1 = k /\
      completedParts m1 = completedParts m
  | _ => Forall (tame k) (log R)
  end.
Proof.
  cbv zeta. unfold request_upload.
  destruct (res m) as [r|]; [cbn; auto|].
  destruct (slice_to_cases buf (data rd) w) as [[_ E] | [_ E]];
    [rewrite (bind_Ok _ _ _ _ _ _ E) | rewrite (bind_Panic _ _ _ _ _ _ E)].
  2:{ cbn. auto. }
  rewrite prefix_log_nil.
  destruct (svc m) as [c|].
  2:{ cbn [svc_CreateMultipartUpload]. rewrite bind_panic. cbn. auto. }
  rewrite (bind_Ok _ _ _ _ _ _ (svc_CreateMultipartUpload_Some _ _ _)).
  destruct (CreateMultipartUpload be c _ w) as [[o [err|]] w'];
    cbn; (split; [reflexivity|]); repeat constructor.
Qed.

(** The upload of the chunk: either the part is recorded and its
    [Progress] sent last, or the iteration leaves the loop. *)
Lemma perform_upload_shape (m : MultipartUpload) (buf : Z) (t : Z)
    (rd : ReadResult) (w : World be) :
  let R := perform_upload be m buf t rd w in
  let k := currentPartNumber m in
  let n := Z.of_nat (List.length (data rd)) in
  match out R with
  | Ok (Continue m' t') =>
      n <= buf /\
      t' = int_add t n /\
      (exists part, completedParts m' = completedParts m ++ [part] /\
                    s3.CompletedPart.PartNumber part = k) /\
      currentPartNumber m' = int_add k 1 /\
      exists pre, log R = pre ++ [Emit (Progress k n)] /\
                  Forall (quiet k) pre /\
                  part_sources pre = [data rd]
  | Ok Break => False
  | _ => Forall (tame k) (log R)
  end.
Proof.
  cbv zeta. unfold perform_upload.
  destruct (slice_to_cases buf (data rd) w) as [[Hn E] | [_ E]];
    [rewrite (bind_Ok _ _ _ _ _ _ E) | rewrite (bind_Panic _ _ _ _ _ _ E)].
  2:{ cbn. constructor. }
  rewrite prefix_log_nil.
  destruct (uploadPart_quiet m (data rd) (currentPartNumber m) w) as [Hq Ho].
  destruct (uploadPart be m (data rd) (currentPartNumber m) w)
    as [o l f] eqn:EU. cbn [out log] in Hq, Ho.
  destruct o as [[part|err]|why|].
  - rewrite (bind_Ok _ _ _ _ _ _ EU). cbn.
    destruct Ho as [Hpn Hch].
    repeat split; auto.
    + now exists part.
    + exists l. auto.
  - rewrite (bind_Ok _ _ _ _ _ _ EU).
    pose proof (abort_and_report_tame m err f (currentPartNumber m)) as Ha.
    destruct (bind_cases (abort_and_report be m err)
                (fun _ => ret be (Return_ m)) f) as [(a & _ & Eb) | [Hno Hlog]].
    + rewrite Eb. cbn. rewrite app_nil_r.
      apply Forall_app. split; [now apply Forall_quiet_tame | exact Ha].
    + cbn [prefix_log out log].
      assert (Hall : Forall (tame (currentPartNumber m))
                       (l ++ log (bind be (abort_and_report be m err)
                                    (fun _ => ret be (Return_ m)) f))).
      { rewrite Hlog. apply Forall_app.
        split; [now apply Forall_quiet_tame | exact Ha]. }
      destruct (out (bind be (abort_and_report be m err)
                       (fun _ => ret be (Return_ m)) f)) as [fl| |] eqn:Eo;
        [now elim (Hno fl) | exact Hall | exact Hall].
  - rewrite (bind_Panic _ _ _ _ _ _ EU). cbn. now apply Forall_quiet_tame.
  - unfold bind. rewrite EU. cbn. now apply Forall_quiet_tame.
Qed.

Lemma abort_return_shape (m : MultipartUpload) (err : error)
    (w : World be) (k : Z) :
  let R := bind be (abort_and_report be m err) (fun _ => ret be (Return_ m)) w in
  Forall (tame k) (log R) /\
  (out R = Ok (Return_ m) \/ forall fl, out R <> Ok fl).
Proof.
  cbv zeta. pose proof (abort_and_report_tame m err w k) as Ha.
  destruct (bind_cases (abort_and_report be m err)
              (fun _ => ret be (Return_ m)) w) as [(a & _ & Eb) | [Hno Hlog]].
  - rewrite Eb. cbn. rewrite app_nil_r. auto.
  - rewrite Hlog. auto.
Qed.

(** One iteration of the loop of [run]. *)
Lemma run_body_shape (m : MultipartUpload) (buf : Z) (t : Z)
    (rd : ReadResult) (w : World be) :
  let R := run_body be m buf t rd w in
  let k := currentPartNumber m in
  let n := Z.of_nat (List.length (data rd)) in
  match out R with
  | Ok (Continue m' t') =>
      rerr rd = None /\
      n <= buf /\
      t' = int_add t n /\
      (exists part, completedParts m' = completedParts m ++ [part] /\
                    s3.CompletedPart.PartNumber part = k) /\
      currentPartNumber m' = int_add k 1 /\
      exists pre, log R = pre ++ [Emit (Progress k n)] /\
                  Forall (quiet k) pre /\
                  part_sources pre = [data rd]
  | Ok Break => (exists e, rerr rd = Some e) /\ log R = []
  | _ => Forall (tame k) (log R)
  end.
Proof.
  cbv zeta. unfold run_body. destruct (rerr rd) as [err|] eqn:Erd.
  - destruct (is_EOF err).
    + cbn. eauto.
    + destruct (abort_return_shape m err w (currentPartNumber m)) as [Ht Ho].
      cbv zeta in Ht, Ho.
      destruct (out (bind be (abort_and_report be m err)
                       (fun _ => ret be (Return_ m)) w)) as [fl| |] eqn:Eo;
        [|exact Ht..].
      destruct Ho as [Ho | Ho]; [|now elim (Ho fl)].
      inversion Ho. subst. exact Ht.
  - destruct (request_upload_shape m buf rd w) as [Hch Ho].
    destruct (request_upload be m buf rd w) as [o l f] eqn:ER.
    cbn [out log] in Hch, Ho.
    destruct o as [[m1 [|]]|why|].
    + rewrite (bind_Ok _ _ _ _ _ _ ER). cbn [negb prefix_log out log final].
      destruct Ho as (Hq & Hk & Hcp).
      pose proof (perform_upload_shape m1 buf t rd f) as Hp. cbv zeta in Hp.
      rewrite Hk, Hcp in Hp.
      destruct (out (perform_upload be m1 buf t rd f)) as [[m' t'| |m']| |].
      * destruct Hp as (Hn & Ht & Hpart & Hcur & pre & Hlog & Hpre & Hup).
        repeat split; auto.
        exists (l ++ pre). rewrite Hlog, app_assoc. split; [reflexivity|].
        split; [apply Forall_app; auto|].
        now rewrite part_sources_app, Hch, Hup.
      * contradiction.
      * apply Forall_app. split; [now apply Forall_quiet_tame | exact Hp].
      * apply Forall_app. split; [now apply Forall_quiet_tame | exact Hp].
      * apply Forall_app. split; [now apply Forall_quiet_tame | exact Hp].
    + rewrite (bind_Ok _ _ _ _ _ _ ER). cbn. now rewrite app_nil_r.
    + rewrite (bind_Panic _ _ _ _ _ _ ER). exact Ho.
    + unfold bind. rewrite ER. exact Ho.
Qed.

Lemma run_loop_cons rd r (m : MultipartUpload) buf t (w : World be) :
  run_loop be (rd :: r) m buf t w =
  let B := run_body be m buf t rd w in
  match out B with
  | Ok (Continue m' t') =>
      prefix_log be (log B) (run_loop be r m' buf t' (final B))
  | Ok Break => {| out := Ok (Broke m t); log := log B; final := final B |}
  | Ok (Return_ m') =>
      {| out := Ok (Returned m'); log := log B; final := final B |}
  | Panic why => {| out := Panic why; log := log B; final := final B |}
  | OutOfFuel => {| out := OutOfFuel; log := log B; final := final B |}
  end.
Proof.
  cbn [run_loop]. unfold bind. cbv zeta.
  destruct (out (run_body be m buf t rd w)) as [[m' t'| |m']| |];
    cbn; rewrite ?app_nil_r; reflexivity.
Qed.

(* ---------------------------------------------------------------- *)
(** *** Invariants of the loop of run *)

(** Bytes: the running total is the (wrapped) sum of the [Progress]
    events; the loop itself never sends [Complete] nor completes the
    upload. *)
Lemma run_loop_bytes (buf : Z) :
  forall (r : Reader) (m : MultipartUpload) (t : Z) (w : World be),
    in_int t ->
    let R := run_loop be r m buf t w in
    (forall b res, ~ In (Emit (Complete b res)) (log R)) /\
    completion_parts (log R) = [] /\
    0 <= sum_progress (log R) /\
    match out R with
    | Ok (Broke m' t') => t' = int_wrap (t + sum_progress (log R))
    | _ => True
    end.
Proof.
  induction r as [|rd r IH]; intros m t w Ht; cbv zeta.
  - cbn. repeat split; auto; try reflexivity.
    rewrite Z.add_0_r. symmetry. now apply int_wrap_small.
  - rewrite run_loop_cons. cbv zeta.
    pose proof (run_body_shape m buf t rd w) as HB. cbv zeta in HB.
    destruct (run_body be m buf t rd w) as [o l f]. cbn [out log final] in *.
    destruct o as [[m' t'| |m']|why|].
    + destruct HB as (_ & _ & Ht' & _ & _ & pre & Hlog & Hpre & _).
      assert (Hin : in_int t') by (rewrite Ht'; apply int_wrap_range).
      destruct (IH m' t' f Hin) as (IHc & IHp & IHs & IHt).
      cbv zeta in IHc, IHp, IHs, IHt.
      cbn [prefix_log out log]. subst l.
      apply Forall_quiet_tame in Hpre.
      assert (Hsum : sum_progress
                       ((pre ++ [Emit (Progress (currentPartNumber m)
                                         (Z.of_nat (List.length (data rd))))])
                        ++ log (run_loop be r m' buf t' f))
                     = Z.of_nat (List.length (data rd))
                       + sum_progress (log (run_loop be r m' buf t' f))).
      { rewrite !sum_progress_app, (tame_sum_progress _ _ Hpre).
        unfold sum_progress at 1. cbn. lia. }
      split; [|split; [|split; [rewrite Hsum; lia|]]].
      * intros b res Hi. rewrite !in_app_iff in Hi.
        destruct Hi as [[Hi | [Hi | []]] | Hi].
        -- exact (tame_no_Complete _ _ _ _ Hpre Hi).
        -- discriminate.
        -- exact (IHc _ _ Hi).
      * rewrite !completion_parts_app, IHp,
          (tame_completion_parts _ _ Hpre). reflexivity.
      * destruct (out (run_loop be r m' buf t' f)) as [[m2 t2|m2]| |]; auto.
        rewrite Hsum, IHt, Ht'. unfold int_add. rewrite int_wrap_add_l.
        f_equal. lia.
    + destruct HB as [_ Hl]. subst l. repeat split; auto; try reflexivity.
      cbn. rewrite Z.add_0_r. symmetry. now apply int_wrap_small.
    + split; [|split; [|split]]; [| | |exact I].
      * intros b res. now apply (tame_no_Complete _ _ _ _ HB).
      * now apply (tame_completion_parts _ _ HB).
      * cbn [log]. rewrite (tame_sum_progress _ _ HB). lia.
    + split; [|split; [|split]]; [| | |exact I].
      * intros b res. now apply (tame_no_Complete _ _ _ _ HB).
      * now apply (tame_completion_parts _ _ HB).
      * cbn [log]. rewrite (tame_sum_progress _ _ HB). lia.
    + split; [|split; [|split]]; [| | |exact I].
      * intros b res. now apply (tame_no_Complete _ _ _ _ HB).
      * now apply (tame_completion_parts _ _ HB).
      * cbn [log]. rewrite (tame_sum_progress _ _ HB). lia.
Qed.






(** Chunks: when the loop ends by [break], the chunks that became parts
    are exactly the chunks read, in the order read, each within the
    buffer; one part was recorded and one [Progress] sent per chunk. *)
Lemma run_loop_chunks (buf : Z) :
  forall (r : Reader) (m : MultipartUpload) (t : Z) (w : World be),
    let R := run_loop be r m buf t w in
    match out R with
    | Ok (Broke m' t') =>
        part_sources (log R) = chunks_read r /\
        Forall (fun c => Z.of_nat (List.length c) <= buf) (chunks_read r) /\
        (exists ps, completedParts m' = completedParts m ++ ps /\
                    List.length ps = List.length (chunks_read r)) /\
        List.length (flat_map progress_part (events (log R)))
          = List.length (chunks_read r)
    | _ => True
    end.
Proof.
  induction r as [|rd r IH]; intros m t w; cbv zeta.
  - cbn. repeat split; auto. exists []. now rewrite app_nil_r.
  - rewrite run_loop_cons. cbv zeta.
    pose proof (run_body_shape m buf t rd w) as HB. cbv zeta in HB.
    destruct (run_body be m buf t rd w) as [o l f]. cbn [out log final] in *.
    destruct o as [[m' t'| |m']|why|]; try exact I.
    + destruct HB as (Hrd & Hn & _ & (part & Hcp & _) & _ & pre & Hlog & Hpre & Hup).
      specialize (IH m' t' f). cbv zeta in IH.
      cbn [prefix_log out log]. subst l.
      destruct (out (run_loop be r m' buf t' f)) as [[m2 t2|m2]| |]; auto.
      destruct IH as (IHu & IHf & (ps & Hps & Hlen) & IHn).
      cbn [chunks_read]. rewrite Hrd.
      apply Forall_quiet_tame in Hpre. split; [|split; [|split]].
      * rewrite !part_sources_app, Hup, IHu. reflexivity.
      * constructor; auto.
      * exists (part :: ps). rewrite Hps, Hcp, <- app_assoc.
        split; [reflexivity|]. cbn. now rewrite Hlen.
      * rewrite !events_app, !flat_map_app, !length_app,
          (tame_progress_part _ _ Hpre), IHn. reflexivity.
    + destruct HB as [[e He] Hl]. subst l. cbn [chunks_read]. rewrite He.
      cbn. repeat split; auto. exists []. now rewrite app_nil_r.
Qed.

(* ---------------------------------------------------------------- *)
(** *** After the loop *)

Lemma svc_CompleteMultipartUpload_Some c input w :
  svc_CompleteMultipartUpload be (Some c) input w =
  {| out := Ok (fst (CompleteMultipartUpload be c input w));
     log := [Call (s3.CompleteMultipartUpload input
                     (fst (fst (CompleteMultipartUpload be c input w)))
                     (snd (fst (CompleteMultipartUpload be c input w))))];
     final := snd (CompleteMultipartUpload be c input w) |}.
Proof. cbn. now destruct (CompleteMultipartUpload be c input w) as [[o e] w']. Qed.

(** The statements after the loop either panic before anything is
    logged, or log the completion request, an [Error] if the request
    failed, and then, in both cases, [Complete]. *)
Lemma run_finish_shape (m : MultipartUpload) (t : Z) (w : World be) :
  let F := run_finish be m t w in
  (log F = [] /\ out F = Panic nil_dereference /\
   (res m = None \/ svc m = None)) \/
  (exists input o e,
     s3.CompleteMultipartUploadInput.Parts input = completedParts m /\
     log F = Call (s3.CompleteMultipartUpload input o e)
             :: match e with
                | Some err => [Emit (Error err)]
                | None => []
                end ++ [Emit (Complete t o)] /\
     out F = Ok m).
Proof.
  cbv zeta. unfold run_finish, complete.
  destruct (res m) as [r|]; cbn [deref].
  2:{ left. rewrite bind_assoc, bind_panic. cbn. auto. }
  rewrite bind_assoc, bind_ret.
  destruct (svc m) as [c|].
  2:{ left. cbn [svc_CompleteMultipartUpload]. rewrite bind_panic. cbn. auto. }
  right.
  rewrite (bind_Ok _ _ _ _ _ _ (svc_CompleteMultipartUpload_Some _ _ _)).
  destruct (CompleteMultipartUpload be c _ w) as [[o e] w'] eqn:E.
  eexists _, o, e. cbn [fst snd].
  destruct e as [err|]; cbn; repeat split; reflexivity.
Qed.

(** Allocating the buffer: the size must be an [int] that is not
    negative. *)
Lemma make_bytes_cases (size : Z) (w : World be) :
  ((size < 0 \/ (W = Int32 /\ max_int < size)) /\
   make_bytes be size w = panic be "makeslice: len out of range" w) \/
  (0 <= size /\ (W = Int32 -> size <= max_int) /\
   make_bytes be size w = ret be size w).
Proof.
  unfold make_bytes, int_of_int64, max_int, int_bits. destruct W.
  - pose proof (wrap_range 32 size ltac:(lia)) as Hr.
    change (2 ^ (32 - 1)) with 2147483648 in *.
    destruct (wrap 32 size =? size) eqn:E; cbn [negb orb].
    + apply Z.eqb_eq in E. rewrite E in *.
      destruct (size <? 0) eqn:E0.
      * left. apply Z.ltb_lt in E0. auto.
      * right. apply Z.ltb_ge in E0. repeat split; auto. intros _. lia.
    + left. apply Z.eqb_neq in E. split; [|reflexivity].
      destruct (Z.lt_ge_cases size 0) as [H | H]; [auto|].
      right. split; [reflexivity|].
      destruct (Z.le_gt_cases size 2147483647) as [H' | H']; [|lia].
      elim E. apply wrap_small; [lia|].
      change (2 ^ (32 - 1)) with 2147483648. lia.
  - rewrite Z.eqb_refl. cbn [negb orb].
    destruct (size <? 0) eqn:E0.
    + left. apply Z.ltb_lt in E0. auto.
    + right. apply Z.ltb_ge in E0. repeat split; auto. discriminate.
Qed.

(** [Send] either fails the validation, or panics allocating the
    buffer, or runs the loop and then, after a [break], the final
    statements. *)
Lemma Send_cases (m : MultipartUpload) (r : Reader) (path : string)
    (w : World be) :
  let S := Send be m r path w in
  let m2 := loop_start m r path in
  (missing_fields m <> [] /\ exists e, log S = [Emit (Error e)]) \/
  ((MaxPartSize m < 0 \/ (W = Int32 /\ max_int < MaxPartSize m2)) /\
   log S = [] /\ out S = Panic "makeslice: len out of range" /\ final S = w) \/
  (0 <= MaxPartSize m2 /\
   S = let L := run_loop be r m2 (MaxPartSize m2) 0 w in
       match out L with
       | Ok (Broke m' t') =>
           prefix_log be (log L) (run_finish be m' t' (final L))
       | Ok (Returned m') =>
           {| out := Ok m'; log := log L; final := final L |}
       | Panic why => {| out := Panic why; log := log L; final := final L |}
       | OutOfFuel => {| out := OutOfFuel; log := log L; final := final L |}
       end).
Proof.
  cbv zeta. unfold Send, run, loop_start.
  set (m0 := set_path (set_reader m r) path).
  rewrite missing_fields_defaults.
  change (missing_fields m0) with (missing_fields m).
  destruct (missing_fields m) as [|x l] eqn:Emiss.
  2:{ left. split; [discriminate|]. eexists. reflexivity. }
  cbn [List.length Z.of_nat Z.ltb Z.compare].
  right.
  destruct (make_bytes_cases (MaxPartSize (run_init (set_defaults m0))) w)
    as [[Hbad Eb] | (Hpos & _ & Eb)].
  { left. rewrite (bind_Panic _ _ _ _ _ _ Eb). cbn [out log final].
    split; [|auto].
    destruct Hbad as [Hneg | Hbig]; [left | right; exact Hbig].
    change (MaxPartSize (run_init (set_defaults m0)))
      with (MaxPartSize (set_defaults m0)) in Hneg.
    rewrite set_defaults_MaxPartSize in Hneg.
    change (MaxPartSize m0) with (MaxPartSize m) in Hneg.
    destruct (MaxPartSize m =? 0); [discriminate | exact Hneg]. }
  right. split; [exact Hpos|].
  rewrite (bind_Ok _ _ _ _ _ _ Eb), prefix_log_nil.
  replace (reader (run_init (set_defaults m0))) with r
    by (cbn [run_init reader set_currentPartNumber set_svc];
        now rewrite set_defaults_reader).
  unfold bind. cbv zeta.
  destruct (out (run_loop be r (run_init (set_defaults m0))
                   (MaxPartSize (run_init (set_defaults m0))) 0 w))
    as [[m' t'|m']| |]; cbn; rewrite ?app_nil_r; reflexivity.
Qed.

Lemma loop_start_currentPartNumber m r path :
  currentPartNumber (loop_start m r path) = 1.
Proof. reflexivity. Qed.

Lemma loop_start_completedParts m r path :
  completedParts (loop_start m r path) = completedParts m.
Proof.
  unfold loop_start. cbn [run_init completedParts set_currentPartNumber set_svc].
  now rewrite set_defaults_completedParts.
Qed.

Lemma loop_start_res m r path : res (loop_start m r path) = res m.
Proof.
  unfold loop_start. cbn [run_init res set_currentPartNumber set_svc].
  now rewrite set_defaults_res.
Qed.

Lemma loop_start_MaxPartSize m r path :
  MaxPartSize (loop_start m r path) =
  if MaxPartSize m =? 0 then Megabyte * 5 else MaxPartSize m.
Proof.
  unfold loop_start. cbn [run_init MaxPartSize set_currentPartNumber set_svc].
  now rewrite set_defaults_MaxPartSize.
Qed.

Lemma Send_valid (m : MultipartUpload) (r : Reader) (path : string)
    (w : World be) :
  AccessKey m <> "" -> SecretKey m <> "" -> Bucket m <> "" ->
  0 <= MaxPartSize m ->
  (W = Int32 -> part_size m <= max_int) ->
  let m2 := loop_start m r path in
  Send be m r path w =
  let L := run_loop be r m2 (MaxPartSize m2) 0 w in
  match out L with
  | Ok (Broke m' t') =>
      prefix_log be (log L) (run_finish be m' t' (final L))
  | Ok (Returned m') =>
      {| out := Ok m'; log := log L; final := final L |}
  | Panic why => {| out := Panic why; log := log L; final := final L |}
  | OutOfFuel => {| out := OutOfFuel; log := log L; final := final L |}
  end.
Proof.
  intros Ha Hs Hb Hsize Hfit. cbv zeta.
  destruct (Send_cases m r path w) as [[Hm _] | [[Hbad _] | [_ He]]].
  - now rewrite (missing_fields_nil m Ha Hs Hb) in Hm.
  - destruct Hbad as [Hneg | [H32 Hbig]]; [lia|].
    specialize (Hfit H32). rewrite loop_start_MaxPartSize in Hbig.
    unfold part_size in Hfit. lia.
  - exact He.
Qed.

(* ---------------------------------------------------------------- *)
(** *** Bytes reported *)



(** The total [run] reports: the wrapped sum of the bytes of the parts. *)
Lemma Send_complete_total (m : MultipartUpload) (r : Reader)
    (path : string) (w : World be) (b : Z)
    (result : s3.CompleteMultipartUploadOutput.t) :
  In (Emit (Complete b result)) (log (Send be m r path w)) ->
  b = int_wrap (sum_progress (log (Send be m r path w))) /\
  0 <= sum_progress (log (Send be m r path w)).
Proof.
  intros Hin.
  destruct (Send_cases m r path w) as [[_ [e He]] | [[_ [He _]] | [_ He]]];
    cbv zeta in He.
  - rewrite He in Hin. destruct Hin as [Hin | []]. discriminate.
  - rewrite He in Hin. destruct Hin.
  - rewrite He in *. clear He.
    destruct (run_loop_bytes (MaxPartSize (loop_start m r path)) r
                (loop_start m r path) 0 w) as (Hc & _ & Hs & Ht).
    { int_lia. }
    cbv zeta in Hc, Hs, Ht.
    destruct (run_loop be r (loop_start m r path)
                (MaxPartSize (loop_start m r path)) 0 w) as [o l f].
    cbn [out log final] in *.
    destruct o as [[m' t'|m']| |]; cbn [log] in Hin;
      try (now elim (Hc _ _ Hin)).
    cbn [prefix_log log] in *. apply in_app_or in Hin.
    destruct Hin as [Hin | Hin]; [now elim (Hc _ _ Hin)|].
    destruct (run_finish_shape m' t' f) as [(Hl & _) | (i & o & e & _ & Hl & _)];
      cbv zeta in Hl; rewrite Hl in *; [destruct Hin|].
    assert (Hb : b = t').
    { destruct Hin as [Hin | Hin]; [discriminate|].
      destruct e; cbn in Hin; intuition congruence. }
    rewrite sum_progress_app.
    replace (sum_progress (Call (s3.CompleteMultipartUpload i o e)
               :: match e with
                  | Some err => [Emit (Error err)]
                  | None => []
                  end ++ [Emit (Complete t' o)])) with 0
      by (destruct e; reflexivity).
    rewrite Z.add_0_r. rewrite Hb, Ht. split; [reflexivity | exact Hs].
Qed.


(* ---------------------------------------------------------------- *)
(** *** Part numbers *)



(** What the final statements add to the observations of the loop. *)
Lemma run_finish_observations (m : MultipartUpload) (t : Z) (w : World be) :
  let F := run_finish be m t w in
  flat_map progress_part (events (log F)) = [] /\
  flat_map event_part (events (log F)) = [] /\
  part_sources (log F) = [] /\
  (completion_parts (log F) = [] \/
   completion_parts (log F) = [completedParts m]) /\
  ((exists b res, In (Emit (Complete b res)) (log F)) ->
   completion_parts (log F) = [completedParts m]).
Proof.
  cbv zeta.
  destruct (run_finish_shape m t w) as [(Hl & _) | (i & o & e & Hi & Hl & _)];
    cbv zeta in Hl; rewrite Hl.
  - cbn. repeat split; auto. intros (b & res & []).
  - rewrite <- Hi. destruct e; cbn; repeat split; auto.
Qed.





(* ---------------------------------------------------------------- *)
(** *** Parts and reads *)

Lemma chunks_size_le (P : Z) (chunks : list (list byte)) :
  Forall (fun c => Z.of_nat (List.length c) <= P) chunks ->
  Z.of_nat (List.length (List.concat chunks))
    <= Z.of_nat (List.length chunks) * P.
Proof.
  induction 1 as [|c chunks Hc _ IH]; cbn [List.concat List.length].
  - lia.
  - rewrite length_app. lia.
Qed.

Lemma ceil_div_le (S P n : Z) : 0 < P -> S <= n * P -> ceil_div S P <= n.
Proof.
  intros HP HS. unfold ceil_div.
  apply Z.lt_succ_r, Z.div_lt_upper_bound; lia.
Qed.

Lemma full_reads_size (P : Z) (chunks : list (list byte)) :
  0 < P ->
  full_reads P chunks ->
  ceil_div (Z.of_nat (List.length (List.concat chunks))) P
    = Z.of_nat (List.length chunks).
Proof.
  intros HP. unfold ceil_div.
  induction chunks as [|c [|c' rest] IH]; intros Hfull.
  - cbn. apply Z.div_small. lia.
  - cbn [full_reads] in Hfull. cbn [List.concat List.length].
    rewrite app_nil_r.
    symmetry. apply (Z.div_unique _ _ _ (Z.of_nat (List.length c) - 1)); lia.
  - destruct Hfull as [Hc Hrest]. specialize (IH Hrest).
    change (List.concat (c :: c' :: rest))
      with (c ++ List.concat (c' :: rest)).
    rewrite length_app.
    change (List.length (c :: c' :: rest))
      with (S (List.length (c' :: rest))).
    rewrite Nat2Z.inj_succ, <- IH.
    replace (Z.of_nat (List.length c + List.length (List.concat (c' :: rest)))
             + P - 1)
      with ((Z.of_nat (List.length (List.concat (c' :: rest))) + P - 1) + 1 * P)
      by lia.
    rewrite Z.div_add by lia. lia.
Qed.

(** Bodies.  A part request finds its body at position 0 unless it
    comes right after a [Retry] event. *)

Lemma whole_relax (l : list Action) :
  whole_unless_retried false l -> whole_unless_retried true l.
Proof.
  destruct l as [|[[]|[]] l]; cbn; tauto.
Qed.

Lemma whole_app (f : bool) (l1 l2 : list Action) :
  whole_unless_retried f l1 ->
  whole_unless_retried false l2 ->
  whole_unless_retried f (l1 ++ l2).
Proof.
  revert f. induction l1 as [|a l1 IH]; intros f H1 H2.
  - destruct f; [now apply whole_relax | exact H2].
  - destruct a as [[]|[]]; cbn in H1 |- *; try (now apply IH).
    destruct H1 as [H0 H1]. split; [exact H0 | now apply IH].
Qed.

Lemma bind_whole {A B} (c : M be A) (k : A -> M be B) (w : World be) :
  whole_unless_retried false (log (c w)) ->
  (forall a w', whole_unless_retried false (log (k a w'))) ->
  whole_unless_retried false (log (bind be c k w)).
Proof.
  intros Hc Hk.
  destruct (bind_cases c k w) as [(a & _ & E) | [_ E]]; rewrite E.
  - cbn [prefix_log log]. apply whole_app; [exact Hc | apply Hk].
  - exact Hc.
Qed.

Lemma uploadPart_loop_whole (m : MultipartUpload) (pn : Z) :
  forall (fuel : nat) (tryNum : Z) (input : s3.UploadPartInput.t)
         (w : World be) (f : bool),
    (f = false -> bytes.i (s3.UploadPartInput.Body input) = 0) ->
    whole_unless_retried f (log (uploadPart_loop be fuel m input pn tryNum w)).
Proof.
  induction fuel as [|fuel IH]; intros tryNum input w f Hf.
  - cbn [uploadPart_loop]. destruct (tryNum <=? MaxRetries m); exact I.
  - destruct (tryNum <=? MaxRetries m) eqn:Ele.
    2:{ cbn [uploadPart_loop]. rewrite Ele. exact I. }
    apply Z.leb_le in Ele.
    destruct (svc m) as [c|] eqn:Hsvc.
    2:{ cbn [uploadPart_loop].
        replace (tryNum <=? MaxRetries m) with true
          by (symmetry; now apply Z.leb_le).
        rewrite Hsvc. cbn [svc_UploadPart]. rewrite bind_panic. exact I. }
    destruct (UploadPart be c input w) as [[[o e] pos] w'] eqn:E.
    rewrite (uploadPart_loop_step m c input pn fuel tryNum w w' o e pos
               Hsvc Ele E).
    cbn [prefix_log log app whole_unless_retried]. split; [exact Hf|].
    destruct e as [err|]; [|exact I].
    destruct (tryNum =? MaxRetries m); [exact I|].
    cbn [prefix_log log app whole_unless_retried].
    apply IH. discriminate.
Qed.

Lemma uploadPart_whole (m : MultipartUpload) (chunk : list byte) (pn : Z)
    (w : World be) :
  whole_unless_retried false (log (uploadPart be m chunk pn w)).
Proof.
  rewrite uploadPart_eq. cbv zeta. cbn [log].
  destruct (res m) as [r|] eqn:Hres.
  - rewrite (uploadPart_traced_eq m r chunk pn w Hres).
    apply uploadPart_loop_whole. reflexivity.
  - unfold uploadPart_traced. rewrite Hres. cbn [deref].
    rewrite bind_panic. exact I.
Qed.

Lemma abort_and_report_whole (m : MultipartUpload) (err : error)
    (w : World be) :
  whole_unless_retried false (log (abort_and_report be m err w)).
Proof.
  unfold abort_and_report, Abort.
  destruct (res m) as [r|]; cbn [deref].
  2:{ rewrite bind_assoc, bind_panic. exact I. }
  rewrite bind_assoc, bind_ret.
  destruct (svc m) as [c|].
  2:{ cbn [svc_AbortMultipartUpload]. rewrite bind_panic. exact I. }
  rewrite (bind_Ok _ _ _ _ _ _ (svc_AbortMultipartUpload_Some _ _ _)).
  cbn [prefix_log log].
  destruct (fst (AbortMultipartUpload be c _ w)); cbn; exact I.
Qed.

Lemma request_upload_whole (m : MultipartUpload) (buf : Z) (rd : ReadResult)
    (w : World be) :
  whole_unless_retried false (log (request_upload be m buf rd w)).
Proof.
  unfold request_upload. destruct (res m) as [r|]; [exact I|].
  destruct (slice_to_cases buf (data rd) w) as [[_ E] | [_ E]];
    [rewrite (bind_Ok _ _ _ _ _ _ E) | now rewrite (bind_Panic _ _ _ _ _ _ E)].
  rewrite prefix_log_nil.
  destruct (svc m) as [c|].
  2:{ cbn [svc_CreateMultipartUpload]. now rewrite bind_panic. }
  rewrite (bind_Ok _ _ _ _ _ _ (svc_CreateMultipartUpload_Some _ _ _)).
  destruct (CreateMultipartUpload be c _ w) as [[o [err|]] w']; cbn; exact I.
Qed.

Lemma slice_to_whole (buf : Z) (read : list byte) (w : World be) :
  whole_unless_retried false (log (slice_to be buf read w)).
Proof.
  destruct (slice_to_cases buf read w) as [[_ E] | [_ E]]; rewrite E; exact I.
Qed.

Lemma run_body_whole (m : MultipartUpload) (buf t : Z) (rd : ReadResult)
    (w : World be) :
  whole_unless_retried false (log (run_body be m buf t rd w)).
Proof.
  unfold run_body. destruct (rerr rd) as [err|].
  - destruct (is_EOF err); [exact I|].
    apply bind_whole; [apply abort_and_report_whole | intros; exact I].
  - apply bind_whole; [apply request_upload_whole|].
    intros [m1 proceed] w1. destruct proceed; cbn [negb]; [|exact I].
    unfold perform_upload.
    apply bind_whole; [apply slice_to_whole|]. intros chunk w2.
    apply bind_whole; [apply uploadPart_whole|]. intros [part|err] w3.
    + apply bind_whole; [exact I | intros; exact I].
    + apply bind_whole; [apply abort_and_report_whole | intros; exact I].
Qed.

Lemma run_loop_whole (buf : Z) :
  forall (r : Reader) (m : MultipartUpload) (t : Z) (w : World be),
    whole_unless_retried false (log (run_loop be r m buf t w)).
Proof.
  induction r as [|rd r IH]; intros m t w; [exact I|].
  cbn [run_loop]. apply bind_whole; [apply run_body_whole|].
  intros [m' t'| |m'] w'; [apply IH | exact I | exact I].
Qed.

Lemma run_finish_whole (m : MultipartUpload) (t : Z) (w : World be) :
  whole_unless_retried false (log (run_finish be m t w)).
Proof.
  destruct (run_finish_shape m t w) as [(Hl & _) | (i & o & e & _ & Hl & _)];
    cbv zeta in Hl; rewrite Hl; [exact I|].
  destruct e; cbn; exact I.
Qed.

(** Over a whole run of [Send], a part request that is not a retry
    finds its body at position 0. *)
Lemma Send_whole (m : MultipartUpload) (r : Reader) (path : string)
    (w : World be) :
  whole_unless_retried false (log (Send be m r path w)).
Proof.
  destruct (Send_cases m r path w) as [[_ [e He]] | [[_ [He _]] | [_ He]]];
    cbv zeta in He; rewrite He; try exact I.
  pose proof (run_loop_whole (MaxPartSize (loop_start m r path)) r
                (loop_start m r path) 0 w) as HL.
  destruct (run_loop be r (loop_start m r path)
              (MaxPartSize (loop_start m r path)) 0 w) as [o l f].
  cbn [out log final] in *.
  destruct o as [[m' t'|m']| |]; cbn [log]; try exact HL.
  cbn [prefix_log log]. apply whole_app; [exact HL | apply run_finish_whole].
Qed.

(** Without a [Retry] event every part was sent whole. *)
Lemma whole_bodies (l : list Action) :
  whole_unless_retried false l ->
  Forall (fun e => is_Retry e = false) (events l) ->
  uploaded_chunks l = part_sources l.
Proof.
  unfold uploaded_chunks, part_sources, accepted.
  induction l as [|a l IH]; intros Hw Hn; [reflexivity|].
  destruct a as [ev|c].
  - cbn [events flat_map app] in Hn. inversion Hn as [|x y Hev Hn']; subst.
    destruct ev; cbn in Hev; try discriminate; cbn in Hw; now apply IH.
  - cbn [events flat_map app] in Hn.
    change (requests (Call c :: l)) with (c :: requests l).
    cbn [flat_map]. rewrite !map_app.
    destruct c as [i o e|i o e|i o e|i e]; cbn in Hw;
      try (cbn [app map]; now apply IH).
    destruct Hw as [H0 Hw]. rewrite (IH Hw Hn). f_equal.
    destruct e as [err|]; [reflexivity|].
    cbn [map]. unfold bytes.unread. now rewrite (H0 eq_refl).
Qed.

(** C6, as the code has it.  For a struct that holds no completed parts
    and a reader that delivers no bytes together with an error or the
    end of the stream, in an upload that reaches [Complete], with P the
    part size in force: every [Read] that returns without error becomes
    one part, so the parts are built from the chunks read, in the order
    read and each once, none longer than P; the completion request lists
    one part per chunk; and when no part was retried the bodies sent are
    those chunks, which together are the input.  The number of parts is
    at least ceil(S / P) for the S bytes of the input, and exactly
    ceil(S / P) when every read but the last fills the buffer and the last
    brings at least one byte. *)
Theorem Send_one_part_per_read (m : MultipartUpload) (r : Reader)
    (path : string) (w : World be) (b : Z)
    (result : s3.CompleteMultipartUploadOutput.t) :
  completedParts m = [] ->
  bytes_delivered r = List.concat (chunks_read r) ->
  let S := Send be m r path w in
  let P := if MaxPartSize m =? 0 then Megabyte * 5 else MaxPartSize m in
  let chunks := chunks_read r in
  In (Emit (Complete b result)) (log S) ->
  part_sources (log S) = chunks /\
  Forall (fun c => Z.of_nat (List.length c) <= P) chunks /\
  (exists ps, completion_parts (log S) = [ps] /\
              List.length ps = List.length chunks) /\
  List.length (flat_map progress_part (events (log S))) = List.length chunks /\
  (Forall (fun e => is_Retry e = false) (events (log S)) ->
   uploaded_chunks (log S) = chunks /\
   List.concat (uploaded_chunks (log S)) = bytes_delivered r) /\
  ceil_div (input_size r) P <= Z.of_nat (List.length chunks) /\
  (full_reads P chunks ->
   Z.of_nat (List.length chunks) = ceil_div (input_size r) P).
Proof.
  intros Hfresh Hclean. cbv zeta. intros Hin.
  pose proof (Send_whole m r path w) as Hwhole.
  assert (Hsrc : part_sources (log (Send be m r path w)) = chunks_read r /\
                 Forall (fun c => Z.of_nat (List.length c)
                                  <= MaxPartSize (loop_start m r path))
                        (chunks_read r) /\
                 (exists ps, completion_parts (log (Send be m r path w)) = [ps] /\
                             List.length ps = List.length (chunks_read r)) /\
                 List.length (flat_map progress_part
                                (events (log (Send be m r path w))))
                   = List.length (chunks_read r) /\
                 0 < MaxPartSize (loop_start m r path)).
  { destruct (Send_cases m r path w) as [[_ [e He]] | [[_ [He _]] | [Hbuf He]]];
      cbv zeta in He.
    { rewrite He in Hin. destruct Hin as [Hin | []]. discriminate. }
    { rewrite He in Hin. destruct Hin. }
    assert (HP : 0 < MaxPartSize (loop_start m r path)).
    { rewrite loop_start_MaxPartSize in *.
      destruct (MaxPartSize m =? 0) eqn:E; [reflexivity|].
      apply Z.eqb_neq in E. lia. }
    rewrite He in *. clear He.
    destruct (run_loop_bytes (MaxPartSize (loop_start m r path)) r
                (loop_start m r path) 0 w) as (Hc & Hcp & _).
    { int_lia. }
    pose proof (run_loop_chunks (MaxPartSize (loop_start m r path)) r
                  (loop_start m r path) 0 w) as Hch.
    cbv zeta in Hc, Hcp, Hch.
    rewrite loop_start_completedParts, Hfresh in Hch.
    destruct (run_loop be r (loop_start m r path)
                (MaxPartSize (loop_start m r path)) 0 w) as [o l f].
    cbn [out log final] in *.
    destruct o as [[m' t'|m']| |]; cbn [log] in Hin;
      try (now elim (Hc _ _ Hin)).
    cbn [prefix_log log] in *. apply in_app_or in Hin.
    destruct Hin as [Hin | Hin]; [now elim (Hc _ _ Hin)|].
    destruct Hch as (Hup & Hfit & (ps & Hps & Hlen) & Hnum).
    cbn [app] in Hps.
    destruct (run_finish_observations m' t' f) as (F1 & _ & F3 & _ & F5).
    cbv zeta in F1, F3, F5.
    split; [now rewrite part_sources_app, F3, app_nil_r|].
    split; [exact Hfit|].
    split.
    { exists ps. rewrite completion_parts_app, Hcp, F5 by eauto.
      rewrite Hps. auto. }
    split; [|exact HP].
    now rewrite events_app, flat_map_app, F1, app_nil_r. }
  rewrite <- (loop_start_MaxPartSize m r path).
  destruct Hsrc as (Hsrc & Hfit & Hparts & Hnum & HP).
  split; [exact Hsrc|]. split; [exact Hfit|]. split; [exact Hparts|].
  split; [exact Hnum|]. split.
  { intros Hno. rewrite (whole_bodies _ Hwhole Hno), Hsrc.
    split; [reflexivity | now rewrite Hclean]. }
  unfold input_size. rewrite Hclean. split.
  - apply ceil_div_le; [exact HP|]. now apply chunks_size_le.
  - intros Hfull. symmetry. now apply full_reads_size.
Qed.

(* ---------------------------------------------------------------- *)
(** *** Empty input *)

Lemma run_loop_first_EOF (r : Reader) (m : MultipartUpload) (buf t : Z)
    (w : World be) :
  rerr (first_read r) = Some io_EOF ->
  run_loop be r m buf t w = ret be (Broke m t) w.
Proof.
  destruct r as [|rd r]; [reflexivity|].
  cbn [first_read]. intros H. rewrite run_loop_cons. cbv zeta.
  unfold run_body. rewrite H. reflexivity.
Qed.

(** An input that is empty from the first [Read] on: the loop is left
    with [m.res] still nil and [complete] dereferences it. *)
Lemma Send_empty_input (m : MultipartUpload) (r : Reader)
    (path : string) (w : World be) :
  AccessKey m <> "" -> SecretKey m <> "" -> Bucket m <> "" ->
  0 <= MaxPartSize m ->
  (W = Int32 -> part_size m <= max_int) ->
  res m = None ->
  rerr (first_read r) = Some io_EOF ->
  Send be m r path w =
  {| out := Panic nil_dereference; log := []; final := w |}.
Proof.
  intros Ha Hs Hb Hsize Hfit Hres Heof.
  rewrite (Send_valid m r path w Ha Hs Hb Hsize Hfit). cbv zeta.
  rewrite (run_loop_first_EOF r _ _ _ w Heof). cbn [ret out log final].
  unfold run_finish, complete. rewrite loop_start_res, Hres. cbn [deref].
  rewrite bind_assoc, bind_panic. reflexivity.
Qed.

(* ---------------------------------------------------------------- *)
(** *** Failures *)

(** What [Abort] followed by the report logs once the upload exists:
    the abort request and then one [Error], carrying the cause alone if
    the abort went through and both messages if it did not. *)
Lemma abort_and_report_log (m : MultipartUpload) (err : error)
    (w : World be) (r : s3.CreateMultipartUploadOutput.t) (c : s3.S3) :
  res m = Some r ->
  svc m = Some c ->
  let input :=
    {| s3.AbortMultipartUploadInput.Bucket := s3.CreateMultipartUploadOutput.Bucket r;
       s3.AbortMultipartUploadInput.Key := s3.CreateMultipartUploadOutput.Key r;
       s3.AbortMultipartUploadInput.UploadId := s3.CreateMultipartUploadOutput.UploadId r |} in
  let abortErr := fst (AbortMultipartUpload be c input w) in
  abort_and_report be m err w =
  {| out := Ok tt;
     log := [Call (s3.AbortMultipartUpload input abortErr);
             Emit (Error match abortErr with
                         | None => err
                         | Some a =>
                             errors_New
                               ("upload error: " ++ Error_text err ++
                                ", as well as an error aborting the upload: "
                                ++ Error_text a)
                         end)];
     final := snd (AbortMultipartUpload be c input w) |}.
Proof.
  intros Hres Hsvc. cbv zeta. unfold abort_and_report, Abort.
  rewrite Hres, Hsvc. cbn [deref]. rewrite bind_assoc, bind_ret.
  rewrite (bind_Ok _ _ _ _ _ _ (svc_AbortMultipartUpload_Some _ _ _)).
  destruct (fst (AbortMultipartUpload be c _ w)) as [a|]; cbn;
    [|reflexivity].
  unfold fmt_Errorf2. now rewrite append_empty_r.
Qed.

(** A failed read before the upload exists: [Abort] dereferences the
    nil [m.res]. *)
Lemma run_body_read_error_no_upload (m : MultipartUpload) (buf t : Z)
    (rd : ReadResult) (err : error) (w : World be) :
  rerr rd = Some err -> is_EOF err = false -> res m = None ->
  run_body be m buf t rd w = panic be nil_dereference w.
Proof.
  intros Hrd Heof Hres. unfold run_body. rewrite Hrd, Heof.
  unfold abort_and_report, Abort. rewrite Hres. cbn [deref].
  now rewrite !bind_assoc, bind_panic.
Qed.

(** The request for the upload is made on the first successful read,
    whatever its length, with the content type of the bytes read. *)
Lemma request_upload_log (m : MultipartUpload) (buf : Z) (rd : ReadResult)
    (w : World be) (c : s3.S3) :
  res m = None -> svc m = Some c ->
  Z.of_nat (List.length (data rd)) <= buf ->
  let input :=
    {| s3.CreateMultipartUploadInput.Bucket := Bucket m;
       s3.CreateMultipartUploadInput.Key := path m;
       s3.CreateMultipartUploadInput.ContentType :=
         DetectContentType be (data rd) |} in
  exists o e,
    requests (log (request_upload be m buf rd w))
    = [s3.CreateMultipartUpload input o e].
Proof.
  intros Hres Hsvc Hn. cbv zeta. unfold request_upload. rewrite Hres, Hsvc.
  destruct (slice_to_cases buf (data rd) w) as [[_ E] | [Hlt _]]; [|lia].
  rewrite (bind_Ok _ _ _ _ _ _ E), prefix_log_nil.
  rewrite (bind_Ok _ _ _ _ _ _ (svc_CreateMultipartUpload_Some _ _ _)).
  destruct (CreateMultipartUpload be c _ w) as [[o [e|]] w'];
    cbn; eauto.
Qed.

(** Once [m.res] is set no further upload is requested. *)
Lemma request_upload_once (m : MultipartUpload) (buf : Z) (rd : ReadResult)
    (w : World be) (r : s3.CreateMultipartUploadOutput.t) :
  res m = Some r ->
  request_upload be m buf rd w = ret be (m, true) w.
Proof. intros Hres. unfold request_upload. now rewrite Hres. Qed.

(** When the completion request fails, [run] sends the [Error] and then
    goes on to send [Complete]. *)
Lemma run_finish_failure (m : MultipartUpload) (t : Z) (w : World be)
    (r : s3.CreateMultipartUploadOutput.t) (c : s3.S3) (err : error) :
  res m = Some r ->
  svc m = Some c ->
  let input :=
    {| s3.CompleteMultipartUploadInput.Bucket := s3.CreateMultipartUploadOutput.Bucket r;
       s3.CompleteMultipartUploadInput.Key := s3.CreateMultipartUploadOutput.Key r;
       s3.CompleteMultipartUploadInput.UploadId := s3.CreateMultipartUploadOutput.UploadId r;
       s3.CompleteMultipartUploadInput.Parts := completedParts m |} in
  snd (fst (CompleteMultipartUpload be c input w)) = Some err ->
  events (log (run_finish be m t w)) =
  [Error err; Complete t (fst (fst (CompleteMultipartUpload be c input w)))].
Proof.
  intros Hres Hsvc. cbv zeta. intros Herr.
  unfold run_finish, complete. rewrite Hres, Hsvc. cbn [deref].
  rewrite bind_assoc, bind_ret.
  rewrite (bind_Ok _ _ _ _ _ _ (svc_CompleteMultipartUpload_Some _ _ _)).
  destruct (CompleteMultipartUpload be c _ w) as [[o e] w'].
  cbn [fst snd] in *. subst e. reflexivity.
Qed.

(* ---------------------------------------------------------------- *)
(** *** The fuel of the model is never used up *)

Lemma within_fuel_ret {A} (a : A) (Q : A -> Prop) :
  Q a -> within_fuel be (ret be a) Q.
Proof. intros H w. exact H. Qed.

Lemma within_fuel_panic {A} why (Q : A -> Prop) :
  within_fuel be (panic be why) Q.
Proof. intros w. exact I. Qed.

Lemma within_fuel_emit e (Q : unit -> Prop) :
  Q tt -> within_fuel be (emit be e) Q.
Proof. intros H w. exact H. Qed.

Lemma within_fuel_bind {A B} (c : M be A) (k : A -> M be B)
    (Q : A -> Prop) (Q' : B -> Prop) :
  within_fuel be c Q ->
  (forall a, Q a -> within_fuel be (k a) Q') ->
  within_fuel be (bind be c k) Q'.
Proof.
  intros Hc Hk w. specialize (Hc w). unfold bind.
  destruct (out (c w)) as [a| |]; cbn [out]; [|exact I | exact Hc].
  exact (Hk a Hc (final (c w))).
Qed.

Lemma within_fuel_weaken {A} (c : M be A) (Q Q' : A -> Prop) :
  within_fuel be c Q -> (forall a, Q a -> Q' a) -> within_fuel be c Q'.
Proof.
  intros Hc HQ w. specialize (Hc w).
  destruct (out (c w)); auto.
Qed.

Lemma within_fuel_deref {A} (p : option A) :
  within_fuel be (deref be p) (fun _ => True).
Proof. destruct p; intros w; exact I. Qed.

Lemma within_fuel_slice_to buf read :
  within_fuel be (slice_to be buf read) (fun _ => True).
Proof. unfold slice_to. destruct (buf <? _); intros w; exact I. Qed.

Lemma within_fuel_CreateMultipartUpload c input :
  within_fuel be (svc_CreateMultipartUpload be c input) (fun _ => True).
Proof.
  destruct c as [c|]; intros w; [|exact I].
  now rewrite svc_CreateMultipartUpload_Some.
Qed.

Lemma within_fuel_CompleteMultipartUpload c input :
  within_fuel be (svc_CompleteMultipartUpload be c input) (fun _ => True).
Proof.
  destruct c as [c|]; intros w; [|exact I].
  now rewrite svc_CompleteMultipartUpload_Some.
Qed.

Lemma within_fuel_AbortMultipartUpload c input :
  within_fuel be (svc_AbortMultipartUpload be c input) (fun _ => True).
Proof.
  destruct c as [c|]; intros w; [|exact I].
  now rewrite svc_AbortMultipartUpload_Some.
Qed.

Lemma within_fuel_uploadPart_loop (m : MultipartUpload) (pn : Z) :
  MaxRetries m <= max_int ->
  forall (fuel : nat) (tryNum : Z) (input : s3.UploadPartInput.t),
    1 <= tryNum ->
    (Z.to_nat (MaxRetries m - tryNum + 1) <= fuel)%nat ->
    within_fuel be (uploadPart_loop be fuel m input pn tryNum) (fun _ => True).
Proof.
  intros Hmax. induction fuel as [|fuel IH]; intros tryNum input Htry Hfuel w.
  - cbn [uploadPart_loop].
    replace (tryNum <=? MaxRetries m) with false
      by (symmetry; apply Z.leb_gt; lia). exact I.
  - destruct (tryNum <=? MaxRetries m) eqn:Ele.
    2:{ cbn [uploadPart_loop]. rewrite Ele. exact I. }
    apply Z.leb_le in Ele.
    destruct (svc m) as [c|] eqn:Hsvc.
    2:{ cbn [uploadPart_loop].
        replace (tryNum <=? MaxRetries m) with true
          by (symmetry; now apply Z.leb_le).
        rewrite Hsvc. cbn [svc_UploadPart]. now rewrite bind_panic. }
    destruct (UploadPart be c input w) as [[[o e] pos] w'] eqn:E.
    rewrite (uploadPart_loop_step m c input pn fuel tryNum w w' o e pos
               Hsvc Ele E).
    destruct e as [err|]; [|exact I].
    destruct (tryNum =? MaxRetries m) eqn:Elast; [exact I|].
    apply Z.eqb_neq in Elast.
    rewrite (next_attempt m tryNum Hmax) by lia. cbn [prefix_log out].
    apply IH; lia.
Qed.

Lemma within_fuel_uploadPart (m : MultipartUpload) chunk pn :
  MaxRetries m <= max_int ->
  within_fuel be (uploadPart be m chunk pn) (fun _ => True).
Proof.
  intros Hmax. unfold uploadPart, uploadPart_traced.
  apply (within_fuel_bind _ _ (fun _ => True));
    [|intros; now apply within_fuel_ret].
  apply (within_fuel_bind _ _ (fun _ => True)); [apply within_fuel_deref|].
  intros r _. apply within_fuel_uploadPart_loop; [exact Hmax | lia |].
  unfold uploadPart_fuel. lia.
Qed.

Lemma within_fuel_abort_and_report (m : MultipartUpload) err :
  within_fuel be (abort_and_report be m err) (fun _ => True).
Proof.
  unfold abort_and_report, Abort.
  apply (within_fuel_bind _ _ (fun _ => True)).
  - apply (within_fuel_bind _ _ (fun _ => True)); [apply within_fuel_deref|].
    intros r _. apply within_fuel_AbortMultipartUpload.
  - intros [a|] _; now apply within_fuel_emit.
Qed.

Lemma within_fuel_request_upload (m : MultipartUpload) buf rd :
  within_fuel be (request_upload be m buf rd)
    (fun x => MaxRetries (fst x) = MaxRetries m).
Proof.
  unfold request_upload. destruct (res m); [now apply within_fuel_ret|].
  apply (within_fuel_bind _ _ (fun _ => True)); [apply within_fuel_slice_to|].
  intros chunk _.
  apply (within_fuel_bind _ _ (fun _ => True));
    [apply within_fuel_CreateMultipartUpload|].
  intros [o [e|]] _; [|now apply within_fuel_ret].
  apply (within_fuel_bind _ _ (fun _ => True)); [now apply within_fuel_emit|].
  intros _ _. now apply within_fuel_ret.
Qed.

Lemma within_fuel_run_body (m : MultipartUpload) buf t rd :
  MaxRetries m <= max_int ->
  within_fuel be (run_body be m buf t rd)
    (fun f => match f with
              | Continue m' _ => MaxRetries m' = MaxRetries m
              | _ => True
              end).
Proof.
  intros Hmax. unfold run_body. destruct (rerr rd) as [err|].
  - destruct (is_EOF err); [now apply within_fuel_ret|].
    apply (within_fuel_bind _ _ (fun _ => True));
      [apply within_fuel_abort_and_report|].
    intros _ _. now apply within_fuel_ret.
  - apply (within_fuel_bind _ _ _ _ (within_fuel_request_upload m buf rd)).
    intros [m1 proceed] Hm1. cbn [fst] in Hm1.
    destruct proceed; cbn [negb]; [|now apply within_fuel_ret].
    unfold perform_upload.
    apply (within_fuel_bind _ _ (fun _ => True)); [apply within_fuel_slice_to|].
    intros chunk _.
    apply (within_fuel_bind _ _ (fun _ => True)).
    { apply within_fuel_uploadPart. now rewrite Hm1. }
    intros [part|err] _.
    + apply (within_fuel_bind _ _ (fun _ => True)); [now apply within_fuel_emit|].
      intros _ _. apply within_fuel_ret. exact Hm1.
    + apply (within_fuel_bind _ _ (fun _ => True));
        [apply within_fuel_abort_and_report|].
      intros _ _. now apply within_fuel_ret.
Qed.

Lemma within_fuel_run_loop (buf : Z) :
  forall (r : Reader) (m : MultipartUpload) (t : Z),
    MaxRetries m <= max_int ->
    within_fuel be (run_loop be r m buf t) (fun _ => True).
Proof.
  induction r as [|rd r IH]; intros m t Hmax.
  - now apply within_fuel_ret.
  - cbn [run_loop].
    apply (within_fuel_bind _ _ _ _ (within_fuel_run_body m buf t rd Hmax)).
    intros [m' t'| |m'] Hf; try now apply within_fuel_ret.
    apply IH. now rewrite Hf.
Qed.

(** For every configuration whose MaxRetries is a Go [int], [Send]
    comes to an end: it returns or it panics. *)
Lemma Send_within_fuel (m : MultipartUpload) (r : Reader) (path : string) :
  MaxRetries m <= max_int ->
  within_fuel be (Send be m r path) (fun _ => True).
Proof.
  intros Hmax. unfold Send, run.
  set (m0 := set_path (set_reader m r) path).
  destruct (0 <? Z.of_nat (List.length (missing_fields (set_defaults m0)))).
  { apply (within_fuel_bind _ _ (fun _ => True)); [now apply within_fuel_emit|].
    intros _ _. now apply within_fuel_ret. }
  apply (within_fuel_bind _ _ (fun _ => True)).
  { intros w.
    destruct (make_bytes_cases (MaxPartSize (run_init (set_defaults m0))) w)
      as [[_ E] | (_ & _ & E)]; rewrite E; exact I. }
  intros buf _.
  apply (within_fuel_bind _ _ (fun _ => True)).
  { apply within_fuel_run_loop.
    change (MaxRetries (run_init (set_defaults m0)))
      with (MaxRetries (set_defaults m0)).
    rewrite set_defaults_MaxRetries.
    change (MaxRetries m0) with (MaxRetries m).
    destruct (MaxRetries m =? 0); [int_lia | exact Hmax]. }
  intros [m' t'|m'] _; [|now apply within_fuel_ret].
  unfold run_finish, complete.
  apply (within_fuel_bind _ _ (fun _ => True)).
  { apply (within_fuel_bind _ _ (fun _ => True)); [apply within_fuel_deref|].
    intros r0 _. apply within_fuel_CompleteMultipartUpload. }
  intros [o e] _.
  apply (within_fuel_bind _ _ (fun _ => True)).
  { destruct e; [now apply within_fuel_emit | now apply within_fuel_ret]. }
  intros _ _.
  apply (within_fuel_bind _ _ (fun _ => True)); [now apply within_fuel_emit|].
  intros _ _. now apply within_fuel_ret.
Qed.

(* ---------------------------------------------------------------- *)
(** *** Retry events of a whole run *)

Lemma retry_events_app l1 l2 :
  retry_events (l1 ++ l2) = retry_events l1 + retry_events l2.
Proof.
  unfold retry_events. rewrite events_app, filter_app, length_app. lia.
Qed.

Lemma count_retries_app p l1 l2 :
  count_retries p (l1 ++ l2) = count_retries p l1 + count_retries p l2.
Proof.
  unfold count_retries. rewrite events_app, filter_app, length_app. lia.
Qed.

Lemma retry_events_nonneg l : 0 <= retry_events l.
Proof. unfold retry_events. lia. Qed.

Lemma count_retries_le p l : 0 <= count_retries p l <= retry_events l.
Proof.
  unfold count_retries, retry_events. split; [lia|].
  induction (events l) as [|e es IH]; cbn; [lia|].
  destruct e as [q b|q i x|b r|e]; cbn; try exact IH.
  destruct (q =? p); cbn [List.length]; lia.
Qed.

Lemma bind_retry_events {A B} (c : M be A) (k : A -> M be B)
    (Q : A -> Prop) (b1 b2 : Z) :
  within_fuel be c Q ->
  (forall w, retry_events (log (c w)) <= b1) ->
  (forall a w, Q a -> retry_events (log (k a w)) <= b2) ->
  0 <= b2 ->
  forall w, retry_events (log (bind be c k w)) <= b1 + b2.
Proof.
  intros HQ Hc Hk Hb w. specialize (HQ w). specialize (Hc w).
  destruct (bind_cases c k w) as [(a & Ha & E) | [_ E]]; rewrite E.
  - rewrite Ha in HQ. cbn [prefix_log log]. rewrite retry_events_app.
    specialize (Hk a (final (c w)) HQ). lia.
  - lia.
Qed.

Lemma uploadPart_loop_retry_events (m : MultipartUpload) (pn : Z) :
  MaxRetries m <= max_int ->
  forall (fuel : nat) (tryNum : Z) (input : s3.UploadPartInput.t)
         (w : World be),
    1 <= tryNum ->
    retry_events (log (uploadPart_loop be fuel m input pn tryNum w))
      <= Z.max 0 (MaxRetries m - tryNum).
Proof.
  intros Hmax. induction fuel as [|fuel IH]; intros tryNum input w Htry.
  - cbn [uploadPart_loop]. destruct (tryNum <=? MaxRetries m); cbn; lia.
  - destruct (tryNum <=? MaxRetries m) eqn:Ele.
    2:{ cbn [uploadPart_loop]. rewrite Ele. cbn. lia. }
    apply Z.leb_le in Ele.
    destruct (svc m) as [c|] eqn:Hsvc.
    2:{ cbn [uploadPart_loop].
        replace (tryNum <=? MaxRetries m) with true
          by (symmetry; now apply Z.leb_le).
        rewrite Hsvc. cbn [svc_UploadPart]. rewrite bind_panic. cbn. lia. }
    destruct (UploadPart be c input w) as [[[o e] pos] w'] eqn:E.
    rewrite (uploadPart_loop_step m c input pn fuel tryNum w w' o e pos
               Hsvc Ele E).
    destruct e as [err|]; [|cbn; lia].
    destruct (tryNum =? MaxRetries m) eqn:Elast; [cbn; lia|].
    apply Z.eqb_neq in Elast.
    rewrite (next_attempt m tryNum Hmax) by lia. cbn [prefix_log log app].
    change (Call (s3.UploadPart input o (Some err))
              :: Emit (Retry (currentPartNumber m) tryNum (MaxRetries m))
              :: log (uploadPart_loop be fuel m
                        (s3.UploadPartInput.body_at input pos) pn
                        (tryNum + 1) w'))
      with ([Call (s3.UploadPart input o (Some err));
             Emit (Retry (currentPartNumber m) tryNum (MaxRetries m))]
            ++ log (uploadPart_loop be fuel m
                      (s3.UploadPartInput.body_at input pos) pn
                      (tryNum + 1) w')).
    rewrite retry_events_app.
    assert (IH' := IH (tryNum + 1) (s3.UploadPartInput.body_at input pos) w'
                     ltac:(lia)).
    change (retry_events
              [Call (s3.UploadPart input o (Some err));
               Emit (Retry (currentPartNumber m) tryNum (MaxRetries m))])
      with 1.
    lia.
Qed.

Lemma uploadPart_retry_events (m : MultipartUpload) chunk pn w :
  MaxRetries m <= max_int ->
  retry_events (log (uploadPart be m chunk pn w))
    <= Z.max 0 (MaxRetries m - 1).
Proof.
  intros Hmax. rewrite uploadPart_eq. cbv zeta. cbn [log].
  destruct (res m) as [r|] eqn:Hres.
  - rewrite (uploadPart_traced_eq m r chunk pn w Hres).
    apply uploadPart_loop_retry_events; [exact Hmax | lia].
  - unfold uploadPart_traced. rewrite Hres. cbn [deref]. rewrite bind_panic.
    cbn. lia.
Qed.

Lemma abort_and_report_retry_events (m : MultipartUpload) err w :
  retry_events (log (abort_and_report be m err w)) = 0.
Proof.
  unfold abort_and_report, Abort.
  destruct (res m) as [r|]; cbn [deref].
  2:{ now rewrite bind_assoc, bind_panic. }
  rewrite bind_assoc, bind_ret.
  destruct (svc m) as [c|].
  2:{ cbn [svc_AbortMultipartUpload]. now rewrite bind_panic. }
  rewrite (bind_Ok _ _ _ _ _ _ (svc_AbortMultipartUpload_Some _ _ _)).
  cbn [prefix_log log].
  destruct (fst (AbortMultipartUpload be c _ w)); reflexivity.
Qed.

Lemma request_upload_retry_events (m : MultipartUpload) buf rd w :
  retry_events (log (request_upload be m buf rd w)) = 0.
Proof.
  unfold request_upload. destruct (res m) as [r|]; [reflexivity|].
  destruct (slice_to_cases buf (data rd) w) as [[_ E] | [_ E]];
    [rewrite (bind_Ok _ _ _ _ _ _ E) | now rewrite (bind_Panic _ _ _ _ _ _ E)].
  rewrite prefix_log_nil.
  destruct (svc m) as [c|].
  2:{ cbn [svc_CreateMultipartUpload]. now rewrite bind_panic. }
  rewrite (bind_Ok _ _ _ _ _ _ (svc_CreateMultipartUpload_Some _ _ _)).
  destruct (CreateMultipartUpload be c _ w) as [[o [err|]] w']; reflexivity.
Qed.

Lemma run_body_retry_events (m : MultipartUpload) buf t rd :
  MaxRetries m <= max_int ->
  forall w, retry_events (log (run_body be m buf t rd w))
            <= Z.max 0 (MaxRetries m - 1).
Proof.
  intros Hmax. unfold run_body. destruct (rerr rd) as [err|].
  - destruct (is_EOF err); [intros w; cbn; lia|].
    intros w.
    apply (Z.le_trans _ (0 + 0)); [|lia].
    apply (bind_retry_events _ _ (fun _ => True));
      [apply within_fuel_abort_and_report | | | lia].
    + intros w0. now rewrite abort_and_report_retry_events.
    + intros. cbn. lia.
  - intros w.
    apply (Z.le_trans _ (0 + Z.max 0 (MaxRetries m - 1))); [|lia].
    apply (bind_retry_events _ _ _ _ _ (within_fuel_request_upload m buf rd));
      [| |lia].
    + intros w0. now rewrite request_upload_retry_events.
    + intros [m1 proceed] w0 Hm1. cbn [fst] in Hm1.
      destruct proceed; cbn [negb]; [|cbn; lia].
      unfold perform_upload.
      apply (Z.le_trans _ (0 + Z.max 0 (MaxRetries m - 1))); [|lia].
      apply (bind_retry_events _ _ (fun _ => True));
        [apply within_fuel_slice_to | | | lia].
      * intros w1. destruct (slice_to_cases buf (data rd) w1) as [[_ E] | [_ E]];
          rewrite E; cbn; lia.
      * intros chunk w1 _.
        apply (Z.le_trans _ (Z.max 0 (MaxRetries m - 1) + 0)); [|lia].
        apply (bind_retry_events _ _ (fun _ => True));
          [apply within_fuel_uploadPart; now rewrite Hm1 | | | lia].
        -- intros w2. rewrite <- Hm1. apply uploadPart_retry_events.
           now rewrite Hm1.
        -- intros [part|err] w2 _.
           ++ cbn. lia.
           ++ apply (Z.le_trans _ (0 + 0)); [|lia].
              apply (bind_retry_events _ _ (fun _ => True));
                [apply within_fuel_abort_and_report | | | lia].
              ** intros w3. now rewrite abort_and_report_retry_events.
              ** intros. cbn. lia.
Qed.

Lemma run_loop_retries (buf : Z) (p : Z) :
  forall (r : Reader) (m : MultipartUpload) (t : Z) (w : World be),
    MaxRetries m <= max_int ->
    min_int <= currentPartNumber m ->
    currentPartNumber m + Z.of_nat (List.length r) <= max_int ->
    let R := run_loop be r m buf t w in
    count_retries p (log R) <= Z.max 0 (MaxRetries m - 1) /\
    (p < currentPartNumber m -> count_retries p (log R) = 0).
Proof.
  induction r as [|rd r IH]; intros m t w Hmax Hlo Hhi; cbv zeta.
  - cbn. split; [lia | reflexivity].
  - rewrite run_loop_cons. cbv zeta.
    pose proof (run_body_shape m buf t rd w) as HB.
    pose proof (run_body_retry_events m buf t rd Hmax w) as HR.
    pose proof (within_fuel_run_body m buf t rd Hmax w) as HM.
    cbv zeta in HB.
    destruct (run_body be m buf t rd w) as [o l f]. cbn [out log final] in *.
    pose proof (count_retries_le p l) as Hle.
    assert (Hstop : Forall (tame (currentPartNumber m)) l ->
              count_retries p l <= Z.max 0 (MaxRetries m - 1) /\
              (p < currentPartNumber m -> count_retries p l = 0)).
    { intros Ht. split; [lia|]. intros Hp.
      apply (tame_count_retries _ _ _ Ht). lia. }
    destruct o as [[m' t'| |m']|why|]; cbn [log]; try (now apply Hstop).
    + destruct HB as (_ & _ & _ & _ & Hcur & pre & Hlog & Hpre & _).
      assert (Hnext : currentPartNumber m' = currentPartNumber m + 1).
      { rewrite Hcur. apply int_wrap_small. unfold in_int.
        cbn [List.length] in Hhi. lia. }
      destruct (IH m' t' f) as [IH1 IH2].
      { now rewrite HM. } { lia. } { cbn [List.length] in Hhi. lia. }
      cbv zeta in IH1, IH2. rewrite HM in IH1. rewrite Hnext in IH2.
      cbn [prefix_log log]. rewrite count_retries_app.
      apply Forall_quiet_tame in Hpre.
      assert (Ht : p <> currentPartNumber m -> count_retries p l = 0).
      { intros Hp. subst l. rewrite count_retries_app.
        now rewrite (tame_count_retries _ _ _ Hpre Hp). }
      destruct (Z.eq_dec p (currentPartNumber m)) as [Hp | Hp].
      * rewrite IH2 by lia. split; lia.
      * rewrite (Ht Hp). split; [lia|].
        intros Hlt. rewrite IH2 by lia. reflexivity.
    + destruct HB as [_ Hl]. subst l. cbn. split; [lia | reflexivity].
Qed.

(** Over a whole run, no part number is carried by more than
    MaxRetries - 1 [Retry] events (MaxRetries as in force, 3 when the
    field is 0). *)
Lemma Send_retry_count (m : MultipartUpload) (r : Reader) (path : string)
    (w : World be) (p : Z) :
  MaxRetries m <= max_int ->
  Z.of_nat (List.length r) < max_int ->
  let M := if MaxRetries m =? 0 then 3 else MaxRetries m in
  count_retries p (log (Send be m r path w)) <= Z.max 0 (M - 1).
Proof.
  intros Hmax Hlen. cbv zeta.
  destruct (Send_cases m r path w) as [[_ [e He]] | [[_ [He _]] | [_ He]]];
    cbv zeta in He; rewrite He; clear He; try (cbn; lia).
  assert (HM : MaxRetries (loop_start m r path)
               = if MaxRetries m =? 0 then 3 else MaxRetries m).
  { unfold loop_start.
    cbn [run_init MaxRetries set_currentPartNumber set_svc].
    now rewrite set_defaults_MaxRetries. }
  destruct (run_loop_retries (MaxPartSize (loop_start m r path)) p r
              (loop_start m r path) 0 w) as [H1 _].
  { rewrite HM. destruct (MaxRetries m =? 0); [int_lia | exact Hmax]. }
  { rewrite loop_start_currentPartNumber. int_lia. }
  { rewrite loop_start_currentPartNumber. lia. }
  cbv zeta in H1. rewrite HM in H1.
  destruct (run_loop be r (loop_start m r path)
              (MaxPartSize (loop_start m r path)) 0 w) as [o l f].
  cbn [out log final] in *.
  destruct o as [[m' t'|m']| |]; cbn [log]; try exact H1.
  cbn [prefix_log log]. rewrite count_retries_app.
  replace (count_retries p (log (run_finish be m' t' f))) with 0; [lia|].
  destruct (run_finish_shape m' t' f) as [(Hl & _) | (i & o & e & _ & Hl & _)];
    cbv zeta in Hl; rewrite Hl; [reflexivity|].
  destruct e; reflexivity.
Qed.

End Properties.

(* ================================================================== *)
(** ** Empty input, where an int has 64 bits *)

Section Properties64.

Local Existing Instance Int64.

Context (be : Backend).

(** C9.  With a valid configuration and a fresh struct, when the first
    [Read] reports the end of the stream the loop is left with [m.res]
    still nil; [complete] then dereferences it.  The goroutine panics:
    no request was made and no event, terminal or other, was sent. *)
Theorem Send_empty_input_panics (m : MultipartUpload) (r : Reader)
    (path : string) (w : World be) :
  AccessKey m <> "" -> SecretKey m <> "" -> Bucket m <> "" ->
  0 <= MaxPartSize m ->
  res m = None ->
  rerr (first_read r) = Some io_EOF ->
  let S := Send be m r path w in
  out S = Panic nil_dereference /\ log S = [] /\ final S = w.
Proof.
  intros Ha Hs Hb Hsize Hres Heof. cbv zeta.
  rewrite (Send_empty_input be m r path w Ha Hs Hb Hsize) by
    (discriminate || assumption).
  cbn. auto.
Qed.

End Properties64.

(* ================================================================== *)
(** ** Concrete runs *)

Module Runs.

Import Scripted.

(** The runs are those of a 64-bit target. *)
#[local] Existing Instance Int64.

(** C1 (the run that breaks it).  One chunk is uploaded and the
    completion request fails: [run] sends the [Error] and, having no
    [return] there, sends [Complete] after it.  Two terminal events, and
    the [Error] is not the last event. *)
Theorem Send_error_then_complete :
  let w := failing [] (Some (errors_New "completion failed")) None in
  let S := Send backend (upload "key" "secret" "bucket" 3 4)
             [chunk "abc"] "dump.rdb" w in
  events (log S) =
    [Progress 1 3; Error (errors_New "completion failed");
     Complete 3 completed] /\
  List.length (filter is_terminal (events (log S))) = 2%nat.
Proof. vm_compute. split; reflexivity. Qed.

(** C2 (the run that breaks it).  The first [Read] returns zero bytes
    and no error, the second a PDF header.  The upload is requested on
    the empty read, with the content type of no bytes at all, and an
    empty part 1 is uploaded; likewise an input of zero bytes delivered
    by such a read does get a remote upload. *)
Theorem Send_requests_upload_on_empty_read :
  let S := Send backend (upload "key" "secret" "bucket" 3 8)
             [chunk ""; chunk "%PDF-1.7"] "doc.pdf" healthy in
  let S0 := Send backend (upload "key" "secret" "bucket" 3 8)
              [chunk ""] "doc.pdf" healthy in
  let created :=
    s3.CreateMultipartUpload
      {| s3.CreateMultipartUploadInput.Bucket := "bucket";
         s3.CreateMultipartUploadInput.Key := "doc.pdf";
         s3.CreateMultipartUploadInput.ContentType :=
           "text/plain; charset=utf-8" |}
      {| s3.CreateMultipartUploadOutput.Bucket := "bucket";
         s3.CreateMultipartUploadOutput.Key := "doc.pdf";
         s3.CreateMultipartUploadOutput.UploadId := "upload-1" |} None in
  firstn 2 (requests (log S)) =
    [created;
     s3.UploadPart
       {| s3.UploadPartInput.Body := bytes.NewReader [];
          s3.UploadPartInput.Bucket := "bucket";
          s3.UploadPartInput.Key := "doc.pdf";
          s3.UploadPartInput.PartNumber := 1;
          s3.UploadPartInput.UploadId := "upload-1";
          s3.UploadPartInput.ContentLength := 0 |}
       {| s3.UploadPartOutput.ETag := "etag" |} None] /\
  DetectContentType backend (data (chunk "%PDF-1.7")) = "application/pdf" /\
  input_size [chunk ""] = 0 /\
  hd_error (requests (log S0)) = Some created.
Proof. vm_compute. repeat split; reflexivity. Qed.

(** C3 (the run that breaks it).  The very first [Read] fails with an
    error other than [io.EOF].  [run] calls [Abort], which dereferences
    the nil [m.res]: the goroutine panics, no abort request is made and
    no [Error] is sent. *)
Theorem Send_first_read_error_panics :
  let S := Send backend (upload "key" "secret" "bucket" 3 4)
             [failing_read (errors_New "read failed")] "dump.rdb" healthy in
  out S = Panic nil_dereference /\ log S = [].
Proof. vm_compute. split; reflexivity. Qed.

(** C6 (counterexample).  Four bytes, part size 4, delivered by two
    reads of two bytes each: the upload completes with two parts, where
    ceil(4 / 4) = 1. *)
Lemma Send_short_reads_two_parts :
  let m := upload "key" "secret" "bucket" 3 4 in
  let r := [chunk "ab"; chunk "cd"] in
  let S := Send backend m r "dump.rdb" healthy in
  input_size r = 4 /\
  MaxPartSize m = 4 /\
  events (log S) = [Progress 1 2; Progress 2 2; Complete 4 completed] /\
  uploaded_chunks (log S) = [data (chunk "ab"); data (chunk "cd")] /\
  map (map s3.CompletedPart.PartNumber) (completion_parts (log S)) = [[1; 2]] /\
  ceil_div (input_size r) (MaxPartSize m) = 1 /\
  Z.of_nat (List.length (uploaded_chunks (log S)))
    <> ceil_div (input_size r) (MaxPartSize m).
Proof. vm_compute. repeat split; try reflexivity. discriminate. Qed.


(** The scenarios of the package's description, at a small scale. *)

Example twelve_bytes_in_parts_of_five :
  events (log (Send backend (upload "key" "secret" "bucket" 0 5)
                 [chunk "01234"; chunk "56789"; chunk "ab"]
                 "dump.rdb" healthy)) =
  [Progress 1 5; Progress 2 5; Progress 3 2; Complete 12 completed].
Proof. vm_compute. reflexivity. Qed.

Example second_part_succeeds_on_third_attempt :
  events (log (Send backend (upload "key" "secret" "bucket" 3 5)
                 [chunk "01234"; chunk "56789"] "dump.rdb"
                 (failing [None; Some (errors_New "a"); Some (errors_New "b")]
                          None None))) =
  [Progress 1 5; Retry 2 1 3; Retry 2 2 3; Progress 2 5;
   Complete 10 completed].
Proof. vm_compute. reflexivity. Qed.

Example second_part_fails_abort_succeeds :
  let S := Send backend (upload "key" "secret" "bucket" 3 5)
             [chunk "01234"; chunk "56789"] "dump.rdb"
             (failing [None; Some (errors_New "a"); Some (errors_New "b");
                       Some (errors_New "c")] None None) in
  events (log S) =
    [Progress 1 5; Retry 2 1 3; Retry 2 2 3; Error (errors_New "c")] /\
  lastn 2 (log S) =
    [Call (s3.AbortMultipartUpload
             {| s3.AbortMultipartUploadInput.Bucket := "bucket";
                s3.AbortMultipartUploadInput.Key := "dump.rdb";
                s3.AbortMultipartUploadInput.UploadId := "upload-1" |} None);
     Emit (Error (errors_New "c"))].
Proof. vm_compute. split; reflexivity. Qed.

Example second_part_fails_abort_fails :
  events (log (Send backend (upload "key" "secret" "bucket" 3 5)
                 [chunk "01234"; chunk "56789"] "dump.rdb"
                 (failing [None; Some (errors_New "a"); Some (errors_New "b");
                           Some (errors_New "c")]
                          None (Some (errors_New "gone"))))) =
  [Progress 1 5; Retry 2 1 3; Retry 2 2 3;
   Error (errors_New
     "upload error: c, as well as an error aborting the upload: gone")].
Proof. vm_compute. reflexivity. Qed.

Example read_fails_after_first_part :
  let S := Send backend (upload "key" "secret" "bucket" 3 5)
             [chunk "01234"; failing_read (errors_New "read failed")]
             "dump.rdb" healthy in
  events (log S) = [Progress 1 5; Error (errors_New "read failed")] /\
  lastn 2 (requests (log S)) =
    [s3.UploadPart
       {| s3.UploadPartInput.Body := bytes.NewReader (data (chunk "01234"));
          s3.UploadPartInput.Bucket := "bucket";
          s3.UploadPartInput.Key := "dump.rdb";
          s3.UploadPartInput.PartNumber := 1;
          s3.UploadPartInput.UploadId := "upload-1";
          s3.UploadPartInput.ContentLength := 5 |}
       {| s3.UploadPartOutput.ETag := "etag" |} None;
     s3.AbortMultipartUpload
       {| s3.AbortMultipartUploadInput.Bucket := "bucket";
          s3.AbortMultipartUploadInput.Key := "dump.rdb";
          s3.AbortMultipartUploadInput.UploadId := "upload-1" |} None].
Proof. vm_compute. split; reflexivity. Qed.

(** [uploadPart] does not rewind the body of its request.  The first
    attempt at the only part fails after the body was sent; the second
    attempt is accepted with nothing left to send, and the upload
    completes: the part that is stored is empty, while its [Progress]
    reports the four bytes of the chunk. *)
Example part_accepted_at_a_retry_is_stored_empty :
  let S := Send backend (upload "key" "secret" "bucket" 3 4)
             [chunk "abcd"] "dump.rdb"
             (failing [Some (errors_New "a")] None None) in
  events (log S) = [Retry 1 1 3; Progress 1 4; Complete 4 completed] /\
  part_sources (log S) = [data (chunk "abcd")] /\
  uploaded_chunks (log S) = [[]].
Proof. vm_compute. repeat split; reflexivity. Qed.

(** Bytes that a [Read] returns together with [io.EOF] are not
    uploaded: of the six bytes delivered, four are stored. *)
Example bytes_read_with_EOF_are_dropped :
  let r := [chunk "abcd";
            {| data := list_byte_of_string "ef"; rerr := Some io_EOF |}] in
  let S := Send backend (upload "key" "secret" "bucket" 3 4) r "dump.rdb"
             healthy in
  input_size r = 6 /\
  events (log S) = [Progress 1 4; Complete 4 completed] /\
  uploaded_chunks (log S) = [data (chunk "abcd")].
Proof. vm_compute. repeat split; reflexivity. Qed.

(** [Send] does not reset [m.res] nor [m.completedParts].  A second
    [Send] on the struct of a finished upload requests no new upload and
    appends to the parts of the first. *)
Example second_Send_on_the_same_struct :
  let S1 := Send backend (upload "key" "secret" "bucket" 3 4)
              [chunk "ab"; chunk "cd"] "dump.rdb" healthy in
  match out S1 with
  | Ok m1 =>
      let S2 := Send backend m1 [chunk "ef"] "dump.rdb" (final S1) in
      map (map s3.CompletedPart.PartNumber) (completion_parts (log S2))
        = [[1; 2; 1]] /\
      List.length (requests (log S2)) = 2%nat
  | _ => False
  end.
Proof. vm_compute. split; reflexivity. Qed.

(** Witnesses: the theorems above at concrete inputs. *)

Lemma Send_missing_fields_witness :
  let m := upload "" "secret" "" 0 0 in
  (AccessKey m = "" \/ SecretKey m = "" \/ Bucket m = "") /\
  events (log (Send backend m [chunk "abc"] "dump.rdb" healthy)) =
    [Error (errors_New "missing AccessKey and Bucket")].
Proof.
  split; [left; reflexivity|].
  apply (Send_missing_fields backend (upload "" "secret" "" 0 0)
           [chunk "abc"] "dump.rdb" healthy (or_introl eq_refl));
    [reflexivity | discriminate | reflexivity].
Defined.

Lemma uploadPart_fallthrough_unreachable_witness :
  let m := active 3 2 in
  let w := failing [Some (errors_New "a"); Some (errors_New "b");
                    Some (errors_New "c")] None None in
  1 <= MaxRetries m <= max_int /\
  ((exists part, out (uploadPart_traced backend m [x61] 2 w)
                 = Ok (AtSuccess, inl part)) \/
   (exists err, out (uploadPart_traced backend m [x61] 2 w)
                = Ok (AtFailure, inr err))).
Proof.
  assert (H : 1 <= 3 <= max_int) by int_lia.
  split; [exact H|].
  exact (uploadPart_fallthrough_unreachable backend (active 3 2) _ _
           [x61] 2 _ H eq_refl eq_refl).
Defined.




Lemma Send_one_part_per_read_witness :
  let m := upload "key" "secret" "bucket" 3 4 in
  let r := [chunk "abcd"; chunk "efgh"; chunk "ij"] in
  let S := Send backend m r "dump.rdb" healthy in
  completedParts m = [] /\
  bytes_delivered r = List.concat (chunks_read r) /\
  In (Emit (Complete 10 completed)) (log S) /\
  full_reads 4 (chunks_read r) /\
  Forall (fun e => is_Retry e = false) (events (log S)) /\
  part_sources (log S) = chunks_read r /\
  List.concat (uploaded_chunks (log S)) = bytes_delivered r /\
  Z.of_nat (List.length (chunks_read r)) = ceil_div (input_size r) 4.
Proof.
  assert (H : In (Emit (Complete 10 completed))
                (log (Send backend (upload "key" "secret" "bucket" 3 4)
                        [chunk "abcd"; chunk "efgh"; chunk "ij"]
                        "dump.rdb" healthy))).
  { vm_compute. do 8 right. left. reflexivity. }
  assert (F : full_reads 4 (chunks_read [chunk "abcd"; chunk "efgh"; chunk "ij"])).
  { cbn. lia. }
  assert (N : Forall (fun e => is_Retry e = false)
                (events (log (Send backend (upload "key" "secret" "bucket" 3 4)
                                [chunk "abcd"; chunk "efgh"; chunk "ij"]
                                "dump.rdb" healthy)))).
  { vm_compute. repeat constructor. }
  split; [reflexivity|]. split; [reflexivity|]. split; [exact H|].
  split; [exact F|]. split; [exact N|].
  destruct (Send_one_part_per_read backend (upload "key" "secret" "bucket" 3 4)
              [chunk "abcd"; chunk "efgh"; chunk "ij"] "dump.rdb" healthy
              10 completed eq_refl eq_refl H)
    as (Hsrc & _ & _ & _ & Hbody & _ & Hfull).
  split; [exact Hsrc|]. split; [exact (proj2 (Hbody N)) | exact (Hfull F)].
Defined.

Lemma Send_empty_input_panics_witness :
  let m := upload "key" "secret" "bucket" 3 4 in
  (AccessKey m <> "" /\ SecretKey m <> "" /\ Bucket m <> "") /\
  0 <= MaxPartSize m /\
  res m = None /\
  rerr (first_read []) = Some io_EOF /\
  out (Send backend m [] "dump.rdb" healthy) = Panic nil_dereference /\
  log (Send backend m [] "dump.rdb" healthy) = [].
Proof.
  assert (Ha : AccessKey (upload "key" "secret" "bucket" 3 4) <> "")
    by discriminate.
  assert (Hs : SecretKey (upload "key" "secret" "bucket" 3 4) <> "")
    by discriminate.
  assert (Hb : Bucket (upload "key" "secret" "bucket" 3 4) <> "")
    by discriminate.
  assert (Hn : 0 <= MaxPartSize (upload "key" "secret" "bucket" 3 4))
    by (cbn; lia).
  split; [auto|]. split; [exact Hn|]. split; [reflexivity|].
  split; [reflexivity|].
  destruct (Send_empty_input_panics backend
              (upload "key" "secret" "bucket" 3 4) [] "dump.rdb" healthy
              Ha Hs Hb Hn eq_refl eq_refl) as (Ho & Hl & _).
  split; [exact Ho | exact Hl].
Defined.

End Runs.

(* ================================================================== *)
(** ** EnglishJoin in closed form *)

Lemma append_assoc (a b c : string) :
  ((a ++ b) ++ c)%string = (a ++ (b ++ c))%string.
Proof. induction a as [|x a IH]; cbn; [reflexivity | now rewrite IH]. Qed.

Lemma append_inj_l (p a b : string) :
  (p ++ a)%string = (p ++ b)%string -> a = b.
Proof.
  induction p as [|x p IH]; cbn; intros H; [exact H|].
  apply IH. now inversion H.
Qed.

Lemma EnglishJoin_range_english (len : Z) (ox : bool) :
  forall (rest : list string) (i : Z) (b : string),
    1 <= i ->
    len = i + Z.of_nat (List.length rest) ->
    EnglishJoin_range len ox i rest b =
    (b ++ english_tail (if ox && (3 <? len)%Z then "," else "") rest)%string.
Proof.
  induction rest as [|w rest IH]; intros i b Hi Hlen.
  - cbn. now rewrite append_empty_r.
  - cbn [EnglishJoin_range]. unfold EnglishJoin_body.
    replace (i =? 0) with false by (symmetry; apply Z.eqb_neq; lia).
    destruct rest as [|w' rest'].
    + cbn [List.length] in Hlen.
      replace (1 <? len) with true by (symmetry; apply Z.ltb_lt; lia).
      replace (i =? len - 1) with true by (symmetry; apply Z.eqb_eq; lia).
      replace (2 <? i) with (3 <? len)
        by (destruct (3 <? len) eqn:E; symmetry;
            [apply Z.ltb_lt; apply Z.ltb_lt in E
            |apply Z.ltb_ge; apply Z.ltb_ge in E]; lia).
      cbn [andb EnglishJoin_range english_tail].
      destruct (ox && (3 <? len)); rewrite !append_assoc; reflexivity.
    + replace (i =? len - 1) with false
        by (symmetry; apply Z.eqb_neq; cbn [List.length] in Hlen; lia).
      rewrite andb_false_r.
      rewrite (IH (i + 1)) by (cbn [List.length] in *; lia).
      cbn [english_tail]. now rewrite !append_assoc.
Qed.

Lemma EnglishJoin_closed (words : list string) (oxfordComma : bool) :
  EnglishJoin words oxfordComma = english words oxfordComma.
Proof.
  destruct words as [|w rest]; [reflexivity|].
  unfold EnglishJoin, english. cbn [EnglishJoin_range].
  change (EnglishJoin_body (Z.of_nat (List.length (w :: rest))) oxfordComma 0 w "")
    with w.
  apply EnglishJoin_range_english; [lia|].
  cbn [List.length]. lia.
Qed.

(** X1.  [EnglishJoin] writes the English list of its words: the words
    but the last separated by ", ", then " and " and the last word, with
    a comma before " and" only if [oxfordComma] is set and there are at
    least four words; a single word stands alone and no words give the
    empty string. *)
Theorem EnglishJoin_english (words : list string) (oxfordComma : bool) :
  EnglishJoin words oxfordComma = english words oxfordComma.
Proof. apply EnglishJoin_closed. Qed.

Lemma english_tail_comma (rest : list string) :
  rest <> [] -> english_tail "," rest <> english_tail "" rest.
Proof.
  induction rest as [|w [|w' rest'] IH]; intros Hne.
  - now elim Hne.
  - cbn. discriminate.
  - cbn [english_tail]. intros H.
    apply IH; [discriminate|].
    apply (append_inj_l w). apply (append_inj_l ", "). exact H.
Qed.

(** X2.  The [oxfordComma] argument changes the result exactly for lists
    of four words or more: for up to three words the comma before "and"
    is never written. *)
Theorem EnglishJoin_oxford_from_four_words (words : list string) :
  EnglishJoin words true = EnglishJoin words false <->
  (List.length words <= 3)%nat.
Proof.
  rewrite !(EnglishJoin_closed words).
  destruct words as [|w rest]; [cbn; split; [lia | reflexivity]|].
  unfold english. cbn [andb].
  destruct (3 <? Z.of_nat (List.length (w :: rest))) eqn:E.
  - apply Z.ltb_lt in E. split; [|cbn [List.length] in *; lia].
    intros H. apply append_inj_l in H.
    exfalso. revert H. apply english_tail_comma.
    destruct rest; [cbn in E; lia | discriminate].
  - apply Z.ltb_ge in E. split; [lia | reflexivity].
Qed.

(* ================================================================== *)
(** ** More of run *)

Section More.

Context {W : IntSize} (be : Backend).

(** *** Defaults *)

Lemma set_defaults_eq (m : MultipartUpload) :
  set_defaults m =
  {| Endpoint := if (Endpoint m =? "")%string
                 then "nyc3.digitaloceanspaces.com" else Endpoint m;
     Region := if (Region m =? "")%string then "us-east-1" else Region m;
     Bucket := Bucket m; AccessKey := AccessKey m; SecretKey := SecretKey m;
     MaxRetries := if MaxRetries m =? 0 then 3 else MaxRetries m;
     MaxPartSize := if MaxPartSize m =? 0 then 5242880 else MaxPartSize m;
     svc := svc m; res := res m; completedParts := completedParts m;
     currentPartNumber := currentPartNumber m; path := path m;
     reader := reader m |}.
Proof.
  destruct m as [E R B A S MR MP sv rs cp cn pa rd].
  unfold set_defaults. cbn.
  destruct (MR =? 0); cbn; destruct (MP =? 0); cbn;
    destruct (E =? "")%string; cbn; destruct (R =? "")%string; reflexivity.
Qed.

(** X3.  [Send] reads a zero MaxRetries as 3, a zero MaxPartSize as
    5 MiB, an empty Endpoint as nyc3.digitaloceanspaces.com and an empty
    Region as us-east-1: the struct with these values written out runs
    exactly as the one that leaves them out. *)
Theorem Send_zero_fields_are_defaults (m : MultipartUpload) (r : Reader)
    (dest : string) (w : World be) :
  let m' :=
    {| Endpoint := if (Endpoint m =? "")%string
                   then "nyc3.digitaloceanspaces.com" else Endpoint m;
       Region := if (Region m =? "")%string then "us-east-1" else Region m;
       Bucket := Bucket m; AccessKey := AccessKey m; SecretKey := SecretKey m;
       MaxRetries := if MaxRetries m =? 0 then 3 else MaxRetries m;
       MaxPartSize := if MaxPartSize m =? 0 then 5 * 1024 * 1024
                      else MaxPartSize m;
       svc := svc m; res := res m; completedParts := completedParts m;
       currentPartNumber := currentPartNumber m; path := path m;
       reader := reader m |} in
  Send be m' r dest w = Send be m r dest w.
Proof.
  cbv zeta. unfold Send, run.
  match goal with
  | |- context [set_defaults (set_path (set_reader ?a r) dest)] =>
      assert (H : set_defaults (set_path (set_reader a r) dest)
                  = set_defaults (set_path (set_reader m r) dest))
  end.
  { rewrite !set_defaults_eq.
    destruct m as [E R B A S MR MP sv rs cp cn pa rd]. cbn.
    f_equal.
    - destruct (E =? "")%string eqn:H; [reflexivity | now rewrite H].
    - destruct (R =? "")%string eqn:H; [reflexivity | now rewrite H].
    - destruct (MR =? 0) eqn:H; [reflexivity | now rewrite H].
    - destruct (MP =? 0) eqn:H; [reflexivity | now rewrite H]. }
  now rewrite H.
Qed.

(** *** Edge behaviour before the first part *)

Lemma Send_makeslice_panic (m : MultipartUpload) (r : Reader)
    (path : string) (w : World be) :
  AccessKey m <> "" -> SecretKey m <> "" -> Bucket m <> "" ->
  MaxPartSize m < 0 ->
  Send be m r path w =
  {| out := Panic "makeslice: len out of range"; log := []; final := w |}.
Proof.
  intros Ha Hs Hb Hneg.
  destruct (Send_cases be m r path w)
    as [[Hm _] | [[_ (Hl & Ho & Hf)] | [Hpos _]]].
  - now rewrite (missing_fields_nil m Ha Hs Hb) in Hm.
  - destruct (Send be m r path w) as [o l f]. cbn [out log final] in *.
    now subst.
  - rewrite loop_start_MaxPartSize in Hpos.
    destruct (MaxPartSize m =? 0) eqn:E; [apply Z.eqb_eq in E|]; lia.
Qed.

(** X4.  With the required fields set and a negative MaxPartSize,
    allocating the buffer panics: [Send] makes no request and sends no
    event, not even an [Error]. *)
Theorem Send_negative_part_size (m : MultipartUpload) (r : Reader)
    (path : string) (w : World be) :
  AccessKey m <> "" -> SecretKey m <> "" -> Bucket m <> "" ->
  MaxPartSize m < 0 ->
  let S := Send be m r path w in
  out S = Panic "makeslice: len out of range" /\ log S = [] /\ final S = w.
Proof.
  intros Ha Hs Hb Hneg. cbv zeta.
  now rewrite (Send_makeslice_panic m r path w Ha Hs Hb Hneg).
Qed.

Lemma loop_start_fields (m : MultipartUpload) (r : Reader) (p : string) :
  Bucket (loop_start m r p) = Bucket m /\
  path (loop_start m r p) = p /\
  svc (loop_start m r p) =
    Some (s3.New (AccessKey m) (SecretKey m)
            (if (Endpoint m =? "")%string
             then "nyc3.digitaloceanspaces.com" else Endpoint m)
            (if (Region m =? "")%string then "us-east-1" else Region m)) /\
  MaxRetries (loop_start m r p) = (if MaxRetries m =? 0 then 3 else MaxRetries m).
Proof.
  unfold loop_start. rewrite set_defaults_eq.
  destruct m as [E R B A S MR MP sv rs cp cn pa rd]. cbn. auto.
Qed.

(** The request for the upload on a struct that has none. *)
Lemma request_upload_fresh (m : MultipartUpload) (buf : Z)
    (rd : ReadResult) (w : World be) :
  res m = None ->
  (exists why, request_upload be m buf rd w = panic be why w) \/
  (exists c o e w',
     svc m = Some c /\
     Z.of_nat (List.length (data rd)) <= buf /\
     CreateMultipartUpload be c
       {| s3.CreateMultipartUploadInput.Bucket := Bucket m;
          s3.CreateMultipartUploadInput.Key := path m;
          s3.CreateMultipartUploadInput.ContentType :=
            DetectContentType be (data rd) |} w = ((o, e), w') /\
     request_upload be m buf rd w =
     {| out := Ok (set_res m (Some o),
                   match e with None => true | Some _ => false end);
        log := Call (s3.CreateMultipartUpload
                       {| s3.CreateMultipartUploadInput.Bucket := Bucket m;
                          s3.CreateMultipartUploadInput.Key := path m;
                          s3.CreateMultipartUploadInput.ContentType :=
                            DetectContentType be (data rd) |} o e)
               :: match e with
                  | Some err => [Emit (Error err)]
                  | None => []
                  end;
        final := w' |}).
Proof.
  intros Hres. unfold request_upload. rewrite Hres.
  destruct (slice_to_cases be buf (data rd) w) as [[Hn E] | [_ E]].
  2:{ left. eexists. rewrite (bind_Panic _ _ _ _ _ _ _ E). reflexivity. }
  rewrite (bind_Ok _ _ _ _ _ _ _ E), prefix_log_nil.
  destruct (svc m) as [c|] eqn:Hsvc.
  2:{ left. eexists. cbn [svc_CreateMultipartUpload]. now rewrite bind_panic. }
  right.
  rewrite (bind_Ok _ _ _ _ _ _ _ (svc_CreateMultipartUpload_Some _ _ _ _)).
  destruct (CreateMultipartUpload be c _ w) as [[o e] w'] eqn:EC.
  exists c, o, e, w'. split; [reflexivity|]. split; [exact Hn|].
  split; [exact EC|]. cbn [fst snd].
  destruct e as [err|]; reflexivity.
Qed.

(** *** Reads *)

Lemma is_EOF_eq (e : error) : is_EOF e = true -> e = io_EOF.
Proof. destruct e; cbn; congruence. Qed.

(** X6.  The loop of [run] stops reading at the first [Read] that
    reports an error: later reads are never made, the bytes returned
    along with the error are ignored and, when the error is [io.EOF], the
    loop ends as at the end of the input, so bytes that come with
    [io.EOF] are never uploaded. *)
Theorem run_loop_reads_used (buf : Z) :
  forall (r : Reader) (m : MultipartUpload) (t : Z) (w : World be),
    run_loop be r m buf t w = run_loop be (reads_used r) m buf t w.
Proof.
  induction r as [|rd r IH]; intros m t w; [reflexivity|].
  cbn [reads_used]. destruct (rerr rd) as [e|] eqn:Erd.
  - destruct (is_EOF e) eqn:Eeof.
    + apply is_EOF_eq in Eeof. subst e.
      now rewrite (run_loop_first_EOF be (rd :: r) m buf t w Erd).
    + rewrite !run_loop_cons. cbv zeta.
      assert (Hsame : run_body be m buf t rd w
                      = run_body be m buf t {| data := []; rerr := Some e |} w).
      { unfold run_body. cbn [rerr]. now rewrite Erd, Eeof. }
      rewrite <- Hsame.
      pose proof (run_body_shape be m buf t rd w) as HB. cbv zeta in HB.
      destruct (out (run_body be m buf t rd w)) as [[m' t'| |m']| |];
        try reflexivity.
      destruct HB as [Hnone _]. congruence.
  - rewrite !run_loop_cons. cbv zeta.
    destruct (out (run_body be m buf t rd w)) as [[m' t'| |m']| |];
      try reflexivity.
    now rewrite IH.
Qed.

End More.

(* ================================================================== *)
(** ** A failed request for the upload, where an int has 64 bits *)

Section More64.

Local Existing Instance Int64.

Context (be : Backend).

(** X5.  On a struct without an upload, when the request for the upload
    fails at the first chunk, [Send] sends that failure as its only
    event and returns: no part is uploaded and nothing is aborted. *)
Theorem Send_create_failure (m : MultipartUpload) (rd : ReadResult)
    (r : Reader) (path : string) (w w' : World be)
    (o : s3.CreateMultipartUploadOutput.t) (err : error) :
  AccessKey m <> "" -> SecretKey m <> "" -> Bucket m <> "" ->
  0 <= MaxPartSize m ->
  res m = None ->
  rerr rd = None ->
  Z.of_nat (List.length (data rd)) <= part_size m ->
  let client :=
    s3.New (AccessKey m) (SecretKey m)
      (if (Endpoint m =? "")%string
       then "nyc3.digitaloceanspaces.com" else Endpoint m)
      (if (Region m =? "")%string then "us-east-1" else Region m) in
  let input :=
    {| s3.CreateMultipartUploadInput.Bucket := Bucket m;
       s3.CreateMultipartUploadInput.Key := path;
       s3.CreateMultipartUploadInput.ContentType :=
         DetectContentType be (data rd) |} in
  CreateMultipartUpload be client input w = ((o, Some err), w') ->
  let S := Send be m (rd :: r) path w in
  log S = [Call (s3.CreateMultipartUpload input o (Some err));
           Emit (Error err)] /\
  final S = w' /\
  exists m', out S = Ok m'.
Proof.
  intros Ha Hs Hb Hsize Hres Hrd Hlen. cbv zeta. intros HC.
  rewrite (Send_valid be m (rd :: r) path w Ha Hs Hb Hsize) by discriminate.
  cbv zeta.
  rewrite run_loop_cons. cbv zeta.
  set (m2 := loop_start m (rd :: r) path).
  destruct (loop_start_fields m (rd :: r) path) as (HB & HP & HS & _).
  fold m2 in HB, HP, HS.
  assert (Hres2 : res m2 = None) by (unfold m2; now rewrite loop_start_res).
  assert (Hbuf : MaxPartSize m2 = part_size m)
    by (unfold m2; apply loop_start_MaxPartSize).
  unfold run_body. rewrite Hrd. unfold request_upload. rewrite Hres2, HS.
  destruct (slice_to_cases be (MaxPartSize m2) (data rd) w)
    as [[_ E] | [Hlt _]]; [|lia].
  rewrite !bind_assoc, (bind_Ok _ _ _ _ _ _ _ E), prefix_log_nil.
  rewrite !bind_assoc.
  rewrite (bind_Ok _ _ _ _ _ _ _ (svc_CreateMultipartUpload_Some _ _ _ _)).
  rewrite HB, HP, HC. cbn. eauto.
Qed.

End More64.

(* ================================================================== *)
(** ** Where an int has 32 bits *)

Section Targets32.

Local Existing Instance Int32.

Context (be : Backend).

(** The total wraps around from 2 GiB on: an upload of 3 GiB is reported
    with a negative number of bytes. *)
Lemma Send_complete_bytes_three_GiB (m : MultipartUpload) (r : Reader)
    (path : string) (w : World be) (b : Z)
    (result : s3.CompleteMultipartUploadOutput.t) :
  In (Emit (Complete b result)) (log (Send be m r path w)) ->
  sum_progress (log (Send be m r path w)) = 3221225472 ->
  b = -1073741824.
Proof.
  intros Hin Hsum.
  destruct (Send_complete_total be m r path w b result Hin) as [Hb _].
  rewrite Hb, Hsum. reflexivity.
Qed.

(** X22.  Where an [int] has 32 bits, as on the 386 target, a
    MaxPartSize beyond 2^31 - 1 cannot be the length of the buffer: with
    the required fields set, [Send] panics allocating it, before any
    request and without any event. *)
Theorem Send_part_size_beyond_int (m : MultipartUpload) (r : Reader)
    (dest : string) (w : World be) :
  AccessKey m <> "" -> SecretKey m <> "" -> Bucket m <> "" ->
  2147483647 < MaxPartSize m ->
  Send be m r dest w =
  {| out := Panic "makeslice: len out of range"; log := []; final := w |}.
Proof.
  intros Ha Hs Hb Hbig. unfold Send, run.
  set (m0 := set_path (set_reader m r) dest).
  rewrite missing_fields_defaults.
  change (missing_fields m0) with (missing_fields m).
  rewrite (missing_fields_nil m Ha Hs Hb).
  cbn [List.length Z.of_nat Z.ltb Z.compare].
  destruct (make_bytes_cases be (MaxPartSize (run_init (set_defaults m0))) w)
    as [[_ E] | (_ & Hfit & _)].
  - now rewrite (bind_Panic _ _ _ _ _ _ _ E).
  - specialize (Hfit eq_refl).
    change (MaxPartSize (run_init (set_defaults m0)))
      with (MaxPartSize (set_defaults m0)) in Hfit.
    rewrite set_defaults_MaxPartSize in Hfit.
    change (MaxPartSize m0) with (MaxPartSize m) in Hfit.
    replace (MaxPartSize m =? 0) with false in Hfit
      by (symmetry; apply Z.eqb_neq; lia).
    change (@max_int Int32) with 2147483647 in Hfit. lia.
Qed.

End Targets32.

(* ================================================================== *)
(** ** The requests and events of an upload, in order *)

Section Protocol.

Context {W : IntSize} (be : Backend).

Lemma part_action_body_at (o : s3.CreateMultipartUploadOutput.t) (P : Z)
    (input : s3.UploadPartInput.t) (pos : Z) o1 e1 o2 e2 :
  part_action o P (Call (s3.UploadPart input o1 e1)) ->
  part_action o P
    (Call (s3.UploadPart (s3.UploadPartInput.body_at input pos) o2 e2)).
Proof. cbn. tauto. Qed.

Lemma uploadPart_loop_part_actions (m : MultipartUpload)
    (o : s3.CreateMultipartUploadOutput.t) (P : Z) (pn : Z) :
  forall (fuel : nat) (tryNum : Z) (input : s3.UploadPartInput.t)
         (w : World be),
    (forall o' e, part_action o P (Call (s3.UploadPart input o' e))) ->
    Forall (part_action o P) (log (uploadPart_loop be fuel m input pn tryNum w)).
Proof.
  induction fuel as [|fuel IH]; intros tryNum input w Hin.
  - cbn [uploadPart_loop]. destruct (tryNum <=? MaxRetries m); constructor.
  - destruct (tryNum <=? MaxRetries m) eqn:Ele.
    2:{ cbn [uploadPart_loop]. rewrite Ele. constructor. }
    apply Z.leb_le in Ele.
    destruct (svc m) as [c|] eqn:Hsvc.
    2:{ cbn [uploadPart_loop].
        replace (tryNum <=? MaxRetries m) with true
          by (symmetry; now apply Z.leb_le).
        rewrite Hsvc. cbn [svc_UploadPart]. rewrite bind_panic. constructor. }
    destruct (UploadPart be c input w) as [[[o' e] pos] w'] eqn:E.
    rewrite (uploadPart_loop_step be m c input pn fuel tryNum w w' o' e pos
               Hsvc Ele E).
    cbn [prefix_log log app]. constructor; [apply Hin|].
    destruct e as [err|]; [|constructor].
    destruct (tryNum =? MaxRetries m); [constructor|].
    cbn [prefix_log log app]. constructor; [exact I | apply IH].
    intros o2 e2. apply (part_action_body_at o P input pos o' (Some err)).
    apply Hin.
Qed.

Lemma uploadPart_part_actions (m : MultipartUpload)
    (o : s3.CreateMultipartUploadOutput.t) (P : Z)
    (chunk : list byte) (pn : Z) (w : World be) :
  res m = Some o ->
  Z.of_nat (List.length chunk) <= P ->
  Forall (part_action o P) (log (uploadPart be m chunk pn w)).
Proof.
  intros Hres Hlen. rewrite uploadPart_eq. cbv zeta. cbn [log].
  rewrite (uploadPart_traced_eq be m o chunk pn w Hres).
  apply uploadPart_loop_part_actions.
  intros o' e. cbn. auto.
Qed.

Lemma abort_and_report_tail (m : MultipartUpload)
    (o : s3.CreateMultipartUploadOutput.t) (err : error) (w : World be) :
  res m = Some o ->
  log (abort_and_report be m err w) = [] \/
  abort_tail o (log (abort_and_report be m err w)).
Proof.
  intros Hres. destruct (svc m) as [c|] eqn:Hsvc.
  - right. rewrite (abort_and_report_log be m err w o c Hres Hsvc).
    cbn [log]. unfold abort_tail, abort_input. eauto.
  - left. unfold abort_and_report, Abort. rewrite Hres, Hsvc. cbn [deref].
    rewrite bind_assoc, bind_ret. cbn [svc_AbortMultipartUpload].
    now rewrite bind_panic.
Qed.

(** A failure path: the log of [abort_and_report] and then [return]. *)
Lemma abort_return_log (m : MultipartUpload) (err : error) (w : World be) :
  let R := bind be (abort_and_report be m err) (fun _ => ret be (Return_ m)) w in
  log R = log (abort_and_report be m err w) /\
  match out R with
  | Ok (Continue _ _) | Ok Break => False
  | _ => True
  end.
Proof.
  cbv zeta.
  destruct (bind_cases be (abort_and_report be m err)
              (fun _ => ret be (Return_ m)) w) as [(a & _ & E) | [Hno E]].
  - rewrite E. cbn. rewrite app_nil_r. split; [reflexivity | exact I].
  - split; [exact E|].
    destruct (out (bind be (abort_and_report be m err)
                     (fun _ => ret be (Return_ m)) w)) as [fl| |]; auto.
    now elim (Hno fl).
Qed.

Lemma perform_upload_trace (m : MultipartUpload)
    (o : s3.CreateMultipartUploadOutput.t) (buf t : Z) (rd : ReadResult)
    (w : World be) :
  res m = Some o ->
  let R := perform_upload be m buf t rd w in
  exists body fin,
    log R = body ++ fin /\
    Forall (part_action o buf) body /\
    (fin = [] \/ abort_tail o fin) /\
    match out R with
    | Ok (Continue m' _) => fin = [] /\ res m' = Some o
    | Ok Break => False
    | _ => True
    end.
Proof.
  intros Hres. cbv zeta. unfold perform_upload.
  destruct (slice_to_cases be buf (data rd) w) as [[Hn E] | [_ E]];
    [rewrite (bind_Ok _ _ _ _ _ _ _ E) | rewrite (bind_Panic _ _ _ _ _ _ _ E)].
  2:{ exists [], []. cbn. repeat split; auto. }
  rewrite prefix_log_nil.
  pose proof (uploadPart_part_actions m o buf (data rd) (currentPartNumber m)
                w Hres Hn) as HU.
  destruct (uploadPart be m (data rd) (currentPartNumber m) w)
    as [ou l f] eqn:EU. cbn [log] in HU.
  destruct ou as [[part|err]|why|].
  - rewrite (bind_Ok _ _ _ _ _ _ _ EU). cbn.
    exists (l ++ [Emit (Progress (currentPartNumber m)
                     (Z.of_nat (List.length (data rd))))]), [].
    rewrite app_nil_r. split; [reflexivity|]. split.
    { apply Forall_app. split; [exact HU | repeat constructor]. }
    auto.
  - rewrite (bind_Ok _ _ _ _ _ _ _ EU). cbn [prefix_log out log].
    destruct (abort_return_log m err f) as [Hl Hno]. cbv zeta in Hl, Hno.
    rewrite Hl.
    exists l, (log (abort_and_report be m err f)).
    split; [reflexivity|]. split; [exact HU|].
    split; [apply abort_and_report_tail; exact Hres|].
    destruct (out (bind be (abort_and_report be m err)
                     (fun _ => ret be (Return_ m)) f)) as [[m' t'| |m']| |];
      auto; contradiction.
  - rewrite (bind_Panic _ _ _ _ _ _ _ EU). cbn.
    exists l, []. rewrite app_nil_r. repeat split; auto.
  - unfold bind. rewrite EU. cbn.
    exists l, []. rewrite app_nil_r. repeat split; auto.
Qed.

Lemma run_body_trace (m : MultipartUpload)
    (o : s3.CreateMultipartUploadOutput.t) (buf t : Z) (rd : ReadResult)
    (w : World be) :
  res m = Some o ->
  let R := run_body be m buf t rd w in
  exists body fin,
    log R = body ++ fin /\
    Forall (part_action o buf) body /\
    (fin = [] \/ abort_tail o fin) /\
    match out R with
    | Ok (Continue m' _) => fin = [] /\ res m' = Some o
    | Ok Break => fin = []
    | _ => True
    end.
Proof.
  intros Hres. cbv zeta. unfold run_body. destruct (rerr rd) as [err|].
  - destruct (is_EOF err).
    + exists [], []. cbn. repeat split; auto.
    + destruct (abort_return_log m err w) as [Hl Hno]. cbv zeta in Hl, Hno.
      rewrite Hl.
      exists [], (log (abort_and_report be m err w)).
      split; [reflexivity|]. split; [constructor|].
      split; [apply abort_and_report_tail; exact Hres|].
      destruct (out (bind be (abort_and_report be m err)
                       (fun _ => ret be (Return_ m)) w)) as [[m' t'| |m']| |];
        auto; contradiction.
  - rewrite (bind_Ok _ _ _ _ _ _ _ (request_upload_once be m buf rd w o Hres)).
    rewrite prefix_log_nil. cbn [negb].
    destruct (perform_upload_trace m o buf t rd w Hres)
      as (body & fin & Hlog & Hbody & Hfin & Hout).
    exists body, fin. cbv zeta in Hlog, Hout. repeat split; auto.
    destruct (out (perform_upload be m buf t rd w)) as [[m' t'| |m']| |];
      auto; contradiction.
Qed.

Lemma run_loop_trace (o : s3.CreateMultipartUploadOutput.t) (buf : Z) :
  forall (r : Reader) (m : MultipartUpload) (t : Z) (w : World be),
    res m = Some o ->
    let R := run_loop be r m buf t w in
    exists body fin,
      log R = body ++ fin /\
      Forall (part_action o buf) body /\
      (fin = [] \/ abort_tail o fin) /\
      forall m' t', out R = Ok (Broke m' t') -> fin = [] /\ res m' = Some o.
Proof.
  induction r as [|rd r IH]; intros m t w Hres; cbv zeta.
  - exists [], []. cbn. split; [reflexivity|]. split; [constructor|].
    split; [auto|]. intros m1 t1 H. inversion H. subst. auto.
  - rewrite run_loop_cons. cbv zeta.
    destruct (run_body_trace m o buf t rd w Hres)
      as (body & fin & Hlog & Hbody & Hfin & Hout).
    cbv zeta in Hlog, Hout.
    destruct (run_body be m buf t rd w) as [ob l f]. cbn [out log final] in *.
    destruct ob as [[m' t'| |m']|why|].
    + destruct Hout as [Hnil Hres']. subst fin.
      rewrite app_nil_r in Hlog. subst l.
      destruct (IH m' t' f Hres') as (body' & fin' & Hlog' & Hbody' & Hfin' & Hb').
      cbv zeta in Hlog', Hb'. cbn [prefix_log out log].
      exists (body ++ body'), fin'. rewrite Hlog', app_assoc.
      split; [reflexivity|]. split; [apply Forall_app; auto|].
      split; [exact Hfin' | exact Hb'].
    + exists body, fin. cbn [out log].
      split; [exact Hlog|]. split; [exact Hbody|]. split; [exact Hfin|].
      intros m1 t1 H. inversion H. subst. auto.
    + exists body, fin. cbn [out log].
      split; [exact Hlog|]. split; [exact Hbody|]. split; [exact Hfin|].
      discriminate.
    + exists body, fin. cbn [out log].
      split; [exact Hlog|]. split; [exact Hbody|]. split; [exact Hfin|].
      discriminate.
    + exists body, fin. cbn [out log].
      split; [exact Hlog|]. split; [exact Hbody|]. split; [exact Hfin|].
      discriminate.
Qed.

Lemma run_finish_tail (m : MultipartUpload)
    (o : s3.CreateMultipartUploadOutput.t) (t : Z) (w : World be) :
  res m = Some o ->
  log (run_finish be m t w) = [] \/ complete_tail o (log (run_finish be m t w)).
Proof.
  intros Hres. unfold run_finish, complete. rewrite Hres. cbn [deref].
  rewrite bind_assoc, bind_ret.
  destruct (svc m) as [c|].
  2:{ left. cbn [svc_CompleteMultipartUpload]. now rewrite bind_panic. }
  right.
  rewrite (bind_Ok _ _ _ _ _ _ _ (svc_CompleteMultipartUpload_Some _ _ _ _)).
  destruct (CompleteMultipartUpload be c _ w) as [[o' e] w'].
  exists (completedParts m), o', e, t. cbn [fst snd].
  destruct e; reflexivity.
Qed.

Lemma run_finish_no_upload (m : MultipartUpload) (t : Z) (w : World be) :
  res m = None ->
  run_finish be m t w = panic be nil_dereference w.
Proof.
  intros Hres. unfold run_finish, complete. rewrite Hres. cbn [deref].
  now rewrite bind_assoc, bind_panic.
Qed.

(** The loop on a struct without an upload: nothing is logged before the
    request for the upload. *)
Lemma run_loop_fresh (buf : Z) (r : Reader) (m : MultipartUpload) (t : Z)
    (w : World be) :
  res m = None ->
  let R := run_loop be r m buf t w in
  (log R = [] /\ forall m' t', out R = Ok (Broke m' t') -> res m' = None) \/
  exists ct o e rest,
    log R = Call (s3.CreateMultipartUpload
                    {| s3.CreateMultipartUploadInput.Bucket := Bucket m;
                       s3.CreateMultipartUploadInput.Key := path m;
                       s3.CreateMultipartUploadInput.ContentType := ct |} o e)
            :: rest /\
    match e with
    | Some err =>
        rest = [Emit (Error err)] /\
        forall m' t', out R <> Ok (Broke m' t')
    | None =>
        exists body fin,
          rest = body ++ fin /\
          Forall (part_action o buf) body /\
          (fin = [] \/ abort_tail o fin) /\
          forall m' t', out R = Ok (Broke m' t') -> fin = [] /\ res m' = Some o
    end.
Proof.
  intros Hres. cbv zeta. destruct r as [|rd r].
  { left. cbn. split; [reflexivity|]. intros m' t' H. inversion H. now subst. }
  rewrite run_loop_cons. cbv zeta.
  destruct (rerr rd) as [err|] eqn:Erd.
  - destruct (is_EOF err) eqn:Eeof.
    + left. unfold run_body. rewrite Erd, Eeof. cbn.
      split; [reflexivity|]. intros m' t' H. inversion H. now subst.
    + left.
      rewrite (run_body_read_error_no_upload be m buf t rd err w Erd Eeof Hres).
      cbn. split; [reflexivity | discriminate].
  - unfold run_body. rewrite Erd.
    destruct (request_upload_fresh be m buf rd w Hres)
      as [[why E] | (c & o & e & w' & _ & _ & _ & E)].
    + left. rewrite (bind_Panic _ _ _ _ _ _ _ E). cbn.
      split; [reflexivity | discriminate].
    + right. exists (DetectContentType be (data rd)), o, e.
      rewrite (bind_Ok _ _ _ _ _ _ _ E).
      destruct e as [err|].
      * exists [Emit (Error err)]. cbn. split; [reflexivity|].
        split; [reflexivity | discriminate].
      * cbn [negb].
        assert (Hres1 : res (set_res m (Some o)) = Some o) by reflexivity.
        destruct (perform_upload_trace (set_res m (Some o)) o buf t rd w' Hres1)
          as (body & fin & Hlog & Hbody & Hfin & Hout).
        cbv zeta in Hlog, Hout.
        destruct (perform_upload be (set_res m (Some o)) buf t rd w')
          as [ob l f]. cbn [prefix_log out log final app] in *.
        destruct ob as [[m' t'| |m']|why|].
        -- destruct Hout as [Hnil Hres']. subst fin.
           rewrite app_nil_r in Hlog. subst l.
           destruct (run_loop_trace o buf r m' t' f Hres')
             as (body' & fin' & Hlog' & Hbody' & Hfin' & Hb').
           cbv zeta in Hlog', Hb'. cbn [prefix_log out log app].
           exists (body ++ log (run_loop be r m' buf t' f)).
           split; [reflexivity|].
           exists (body ++ body'), fin'. rewrite Hlog', app_assoc.
           split; [reflexivity|]. split; [apply Forall_app; auto|].
           split; [exact Hfin' | exact Hb'].
        -- contradiction.
        -- exists l. cbn [out log]. split; [reflexivity|].
           exists body, fin. split; [exact Hlog|]. split; [exact Hbody|].
           split; [exact Hfin | discriminate].
        -- exists l. cbn [out log]. split; [reflexivity|].
           exists body, fin. split; [exact Hlog|]. split; [exact Hbody|].
           split; [exact Hfin | discriminate].
        -- exists l. cbn [out log]. split; [reflexivity|].
           exists body, fin. split; [exact Hlog|]. split; [exact Hbody|].
           split; [exact Hfin | discriminate].
Qed.

(** The whole log of [Send] on a struct without an upload. *)
Lemma Send_grammar (m : MultipartUpload) (r : Reader) (dest : string)
    (w : World be) :
  res m = None ->
  Send_trace m dest (part_size m) (log (Send be m r dest w)).
Proof.
  intros Hres. unfold Send_trace.
  destruct (Send_cases be m r dest w) as [[_ He] | [[_ [He _]] | [_ He]]];
    cbv zeta in He; [left; exact He | right; left; exact He |].
  rewrite He. clear He.
  set (m2 := loop_start m r dest).
  destruct (loop_start_fields m r dest) as (HB & HP & _ & _).
  fold m2 in HB, HP.
  assert (Hres2 : res m2 = None) by (unfold m2; now rewrite loop_start_res).
  assert (Hbuf : MaxPartSize m2 = part_size m)
    by (unfold m2; apply loop_start_MaxPartSize).
  rewrite Hbuf.
  destruct (run_loop_fresh (part_size m) r m2 0 w Hres2)
    as [[Hl Hb] | (ct & o & e & rest & Hl & He)]; cbv zeta in Hl.
  - right. left.
    destruct (run_loop be r m2 (part_size m) 0 w) as [ol l f].
    cbn [out log final] in *. subst l.
    destruct ol as [[m' t'|m']| |]; try reflexivity.
    cbn [prefix_log log app].
    now rewrite (run_finish_no_upload m' t' f (Hb m' t' eq_refl)).
  - right. right. exists ct, o, e. rewrite HB, HP in Hl.
    destruct (run_loop be r m2 (part_size m) 0 w) as [ol l f].
    cbn [out log final] in *. subst l.
    destruct e as [err|].
    + destruct He as [Hrest Hno]. subst rest.
      exists [Emit (Error err)].
      destruct ol as [[m' t'|m']| |]; auto.
      now elim (Hno m' t').
    + destruct He as (body & fin & Hrest & Hbody & Hfin & Hb). subst rest.
      destruct ol as [[m' t'|m']| |]; cbn [log].
      * destruct (Hb m' t' eq_refl) as [Hnil Hres']. subst fin.
        rewrite app_nil_r. cbn [prefix_log log app].
        exists (body ++ log (run_finish be m' t' f)).
        split; [reflexivity|].
        exists body, (log (run_finish be m' t' f)).
        split; [reflexivity|]. split; [exact Hbody|].
        destruct (run_finish_tail m' o t' f Hres'); auto.
      * exists (body ++ fin). split; [reflexivity|].
        exists body, fin. repeat split; auto. tauto.
      * exists (body ++ fin). split; [reflexivity|].
        exists body, fin. repeat split; auto. tauto.
      * exists (body ++ fin). split; [reflexivity|].
        exists body, fin. repeat split; auto. tauto.
Qed.

Lemma part_actions_requests (o : s3.CreateMultipartUploadOutput.t) (P : Z)
    (body : list Action) :
  Forall (part_action o P) body ->
  Forall (addressed_to o) (requests body) /\
  Forall (sized_part P) (requests body) /\
  Forall (fun c => is_finalizer c = false) (requests body) /\
  Forall (fun a => terminal_action a = false) body.
Proof.
  induction 1 as [|a body Ha _ (IH1 & IH2 & IH3 & IH4)].
  - cbn. repeat split; constructor.
  - destruct a as [[p b|p i x|b o'|e]|[i o' e|i o' e|i o' e|i e]];
      cbn in Ha; try contradiction.
    + cbn. repeat split; auto.
    + cbn. repeat split; auto.
    + destruct Ha as [Hadd Hsz]. cbn [requests flat_map app].
      fold (requests body).
      repeat split; try (constructor; auto).
Qed.

Lemma abort_tail_requests (o : s3.CreateMultipartUploadOutput.t)
    (fin : list Action) :
  abort_tail o fin ->
  exists ae e,
    fin = [Call (s3.AbortMultipartUpload (abort_input o) ae); Emit (Error e)] /\
    requests fin = [s3.AbortMultipartUpload (abort_input o) ae].
Proof. intros (ae & e & H). subst. exists ae, e. split; reflexivity. Qed.

Lemma complete_tail_requests (o : s3.CreateMultipartUploadOutput.t)
    (fin : list Action) :
  complete_tail o fin ->
  exists parts out e,
    requests fin = [s3.CompleteMultipartUpload (complete_input o parts) out e].
Proof.
  intros (parts & out & e & b & H). subst. exists parts, out, e.
  destruct e; reflexivity.
Qed.

(** X7.  On a struct without an upload, the first request [Send] makes,
    if it makes any, is the [CreateMultipartUpload] for its bucket and
    the destination path, and every later request (part, abort or
    completion) names the bucket, key and upload id that request
    returned; no second upload is created. *)
Theorem Send_requests_one_upload (m : MultipartUpload) (r : Reader)
    (dest : string) (w : World be) :
  res m = None ->
  let S := Send be m r dest w in
  requests (log S) = [] \/
  exists ct o e rest,
    requests (log S) =
      s3.CreateMultipartUpload
        {| s3.CreateMultipartUploadInput.Bucket := Bucket m;
           s3.CreateMultipartUploadInput.Key := dest;
           s3.CreateMultipartUploadInput.ContentType := ct |} o e :: rest /\
    Forall (addressed_to o) rest.
Proof.
  intros Hres. cbv zeta.
  destruct (Send_grammar m r dest w Hres)
    as [[e He] | [He | (ct & o & e & rest & He & Hrest)]]; rewrite He.
  - now left.
  - now left.
  - right. exists ct, o, e, (requests rest). split; [reflexivity|].
    destruct e as [err|]; [subst rest; constructor|].
    destruct Hrest as (body & fin & Hr & Hbody & Hfin). subst rest.
    rewrite requests_app. apply Forall_app.
    split; [apply (part_actions_requests o _ body Hbody)|].
    destruct Hfin as [Hfin | [Hfin | Hfin]].
    + subst fin. constructor.
    + destruct (abort_tail_requests o fin Hfin) as (ae & e & _ & Hq).
      rewrite Hq. repeat constructor; reflexivity.
    + destruct (complete_tail_requests o fin Hfin) as (parts & out & e & Hq).
      rewrite Hq. repeat constructor; reflexivity.
Qed.

(** X8.  On a struct without an upload, [Send] ends the upload at most
    once: among its requests there is at most one
    [CompleteMultipartUpload] or [AbortMultipartUpload], never both, and
    it is the last request made. *)
Theorem Send_ends_upload_once (m : MultipartUpload) (r : Reader)
    (dest : string) (w : World be) :
  res m = None ->
  let S := Send be m r dest w in
  exists init fin,
    requests (log S) = init ++ fin /\
    Forall (fun c => is_finalizer c = false) init /\
    (fin = [] \/ exists c, fin = [c] /\ is_finalizer c = true).
Proof.
  intros Hres. cbv zeta.
  destruct (Send_grammar m r dest w Hres)
    as [[e He] | [He | (ct & o & e & rest & He & Hrest)]]; rewrite He.
  - exists [], []. cbn. auto.
  - exists [], []. cbn. auto.
  - destruct e as [err|].
    + subst rest. eexists [_], []. cbn. repeat split; auto.
    + destruct Hrest as (body & fin & Hr & Hbody & Hfin). subst rest.
      destruct (part_actions_requests o _ body Hbody) as (_ & _ & Hnf & _).
      cbn [requests flat_map app]. fold (requests (body ++ fin)).
      rewrite requests_app.
      exists (s3.CreateMultipartUpload
                {| s3.CreateMultipartUploadInput.Bucket := Bucket m;
                   s3.CreateMultipartUploadInput.Key := dest;
                   s3.CreateMultipartUploadInput.ContentType := ct |} o None
              :: requests body), (requests fin).
      split; [reflexivity|]. split; [constructor; auto|].
      destruct Hfin as [Hfin | [Hfin | Hfin]].
      * subst fin. now left.
      * destruct (abort_tail_requests o fin Hfin) as (ae & e & _ & Hq).
        rewrite Hq. right. eexists. split; reflexivity.
      * destruct (complete_tail_requests o fin Hfin) as (parts & out & e & Hq).
        rewrite Hq. right. eexists. split; reflexivity.
Qed.

(** X9.  On a struct without an upload, every part request [Send] makes
    states as ContentLength the length of the chunk its body was built
    from, which is at most the part size in force (MaxPartSize, 5 MiB when
    it is 0); and every part request that does not come right after a
    [Retry] event finds its body at position 0, so that the whole chunk is
    what it sends.  A retried request states the same ContentLength,
    whatever the attempts before it have left of its body. *)
Theorem Send_parts_sized (m : MultipartUpload) (r : Reader)
    (dest : string) (w : World be) :
  res m = None ->
  let S := Send be m r dest w in
  Forall (sized_part (part_size m)) (requests (log S)) /\
  whole_unless_retried false (log S).
Proof.
  intros Hres. cbv zeta. split; [|apply Send_whole].
  destruct (Send_grammar m r dest w Hres)
    as [[e He] | [He | (ct & o & e & rest & He & Hrest)]]; rewrite He.
  - constructor.
  - constructor.
  - cbn [requests flat_map app]. fold (requests rest).
    constructor; [exact I|].
    destruct e as [err|]; [subst rest; constructor|].
    destruct Hrest as (body & fin & Hr & Hbody & Hfin). subst rest.
    rewrite requests_app. apply Forall_app.
    split; [apply (part_actions_requests o _ body Hbody)|].
    destruct Hfin as [Hfin | [Hfin | Hfin]].
    + subst fin. constructor.
    + destruct (abort_tail_requests o fin Hfin) as (ae & e & _ & Hq).
      rewrite Hq. repeat constructor.
    + destruct (complete_tail_requests o fin Hfin) as (parts & out & e & Hq).
      rewrite Hq. repeat constructor.
Qed.

(** X10.  On a struct without an upload, once [Send] has sent a terminal
    event it makes no further request and sends no [Progress] or [Retry]:
    its log is a part without terminal events followed by nothing, by one
    [Error], by one [Complete], or by an [Error] and a [Complete]. *)
Theorem Send_nothing_after_terminal (m : MultipartUpload) (r : Reader)
    (dest : string) (w : World be) :
  res m = None ->
  let S := Send be m r dest w in
  exists pre post,
    log S = pre ++ post /\
    Forall (fun a => terminal_action a = false) pre /\
    (post = [] \/
     (exists e, post = [Emit (Error e)]) \/
     (exists b o, post = [Emit (Complete b o)]) \/
     (exists e b o, post = [Emit (Error e); Emit (Complete b o)])).
Proof.
  intros Hres. cbv zeta.
  destruct (Send_grammar m r dest w Hres)
    as [[e He] | [He | (ct & o & e & rest & He & Hrest)]]; rewrite He.
  - exists [], [Emit (Error e)]. split; [reflexivity|].
    split; [constructor | eauto].
  - exists [], []. split; [reflexivity|]. split; [constructor | auto].
  - destruct e as [err|].
    + subst rest. eexists [_], [Emit (Error err)]. split; [reflexivity|].
      split; [repeat constructor | eauto].
    + destruct Hrest as (body & fin & Hr & Hbody & Hfin). subst rest.
      destruct (part_actions_requests o _ body Hbody) as (_ & _ & _ & Hnt).
      destruct Hfin as [Hfin | [(ae & e & Hfin) | (parts & out & e & b & Hfin)]];
        subst fin.
      * eexists (_ :: body ++ []), []. rewrite !app_nil_r.
        split; [reflexivity|]. split; [constructor; auto | auto].
      * eexists (_ :: body ++ [Call _]), [Emit (Error e)].
        split; [cbn; now rewrite <- app_assoc|].
        split; [|eauto].
        constructor; [reflexivity|]. apply Forall_app.
        split; [exact Hnt | repeat constructor].
      * eexists (_ :: body ++ [Call _]),
          (match e with Some err => [Emit (Error err)] | None => [] end
           ++ [Emit (Complete b out)]).
        split; [cbn; now rewrite <- app_assoc|].
        split.
        { constructor; [reflexivity|]. apply Forall_app.
          split; [exact Hnt | repeat constructor]. }
        destruct e as [err|]; cbn; eauto 10.
Qed.

(** X11.  On a struct without an upload, if [Send] aborts the upload
    then the abort request is the last request and is followed by exactly
    one event, an [Error], which is the only terminal event of the run:
    no [Complete] is sent. *)
Theorem Send_abort_then_error (m : MultipartUpload) (r : Reader)
    (dest : string) (w : World be) (i : s3.AbortMultipartUploadInput.t)
    (ae : option error) :
  res m = None ->
  let S := Send be m r dest w in
  In (Call (s3.AbortMultipartUpload i ae)) (log S) ->
  exists pre e,
    log S = pre ++ [Call (s3.AbortMultipartUpload i ae); Emit (Error e)] /\
    Forall (fun a => terminal_action a = false) pre.
Proof.
  intros Hres. cbv zeta. intros Hin.
  destruct (Send_grammar m r dest w Hres)
    as [[e He] | [He | (ct & o & e & rest & He & Hrest)]]; rewrite He in *.
  - destruct Hin as [H | []]. discriminate.
  - destruct Hin.
  - destruct Hin as [H | Hin]; [discriminate|].
    destruct e as [err|].
    { subst rest. destruct Hin as [H | []]. discriminate. }
    destruct Hrest as (body & fin & Hr & Hbody & Hfin). subst rest.
    destruct (part_actions_requests o _ body Hbody) as (_ & _ & _ & Hnt).
    apply in_app_or in Hin. destruct Hin as [Hin | Hin].
    { rewrite Forall_forall in Hbody. now apply Hbody in Hin. }
    destruct Hfin as [Hfin | [(ae' & e & Hfin) | (parts & out & e & b & Hfin)]];
      subst fin.
    + destruct Hin.
    + destruct Hin as [H | [H | []]]; [|discriminate].
      inversion H. subst.
      eexists (_ :: body), e. split; [reflexivity|].
      constructor; [reflexivity | exact Hnt].
    + destruct Hin as [H | Hin]; [discriminate|].
      destruct e as [err|]; cbn in Hin;
        repeat (destruct Hin as [H | Hin]; [discriminate|]); destruct Hin.
Qed.

(** X12.  On a struct without an upload, if the completion request
    succeeds then it is the last request and is followed by exactly one
    event, [Complete] with the output of that request, which is the only
    terminal event of the run: no [Error] is sent. *)
Theorem Send_completed_once (m : MultipartUpload) (r : Reader)
    (dest : string) (w : World be) (i : s3.CompleteMultipartUploadInput.t)
    (result : s3.CompleteMultipartUploadOutput.t) :
  res m = None ->
  let S := Send be m r dest w in
  In (Call (s3.CompleteMultipartUpload i result None)) (log S) ->
  exists pre b,
    log S = pre ++ [Call (s3.CompleteMultipartUpload i result None);
                    Emit (Complete b result)] /\
    Forall (fun a => terminal_action a = false) pre.
Proof.
  intros Hres. cbv zeta. intros Hin.
  destruct (Send_grammar m r dest w Hres)
    as [[e He] | [He | (ct & o & e & rest & He & Hrest)]]; rewrite He in *.
  - destruct Hin as [H | []]. discriminate.
  - destruct Hin.
  - destruct Hin as [H | Hin]; [discriminate|].
    destruct e as [err|].
    { subst rest. destruct Hin as [H | []]. discriminate. }
    destruct Hrest as (body & fin & Hr & Hbody & Hfin). subst rest.
    destruct (part_actions_requests o _ body Hbody) as (_ & _ & _ & Hnt).
    apply in_app_or in Hin. destruct Hin as [Hin | Hin].
    { rewrite Forall_forall in Hbody. now apply Hbody in Hin. }
    destruct Hfin as [Hfin | [(ae' & e & Hfin) | (parts & out & e & b & Hfin)]];
      subst fin.
    + destruct Hin.
    + destruct Hin as [H | [H | []]]; discriminate.
    + destruct Hin as [H | Hin].
      * inversion H. subst.
        eexists (_ :: body), b. split; [reflexivity|].
        constructor; [reflexivity | exact Hnt].
      * destruct e as [err|]; cbn in Hin;
          repeat (destruct Hin as [H | Hin]; [discriminate|]); destruct Hin.
Qed.

End Protocol.

(* ================================================================== *)
(** ** Retries and failures *)

Section Failures.

Context {W : IntSize} (be : Backend).

Lemma uploadPart_no_attempt (m : MultipartUpload) (chunk : list byte)
    (pn : Z) (w : World be) :
  MaxRetries m < 1 ->
  log (uploadPart be m chunk pn w) = [] /\
  forall part, out (uploadPart be m chunk pn w) <> Ok (inl part).
Proof.
  intros Hmax. rewrite uploadPart_eq. cbv zeta. cbn [out log].
  destruct (res m) as [r|] eqn:Hres.
  - rewrite (uploadPart_fallthrough_reached be m r chunk pn w Hmax Hres).
    cbn. split; [reflexivity | discriminate].
  - unfold uploadPart_traced. rewrite Hres. cbn [deref]. rewrite bind_panic.
    cbn. split; [reflexivity | discriminate].
Qed.

Lemma abort_and_report_no_part (m : MultipartUpload) (err : error)
    (w : World be) :
  Forall no_part (log (abort_and_report be m err w)).
Proof.
  unfold abort_and_report, Abort.
  destruct (res m) as [r|]; cbn [deref].
  2:{ rewrite bind_assoc, bind_panic. constructor. }
  rewrite bind_assoc, bind_ret.
  destruct (svc m) as [c|].
  2:{ cbn [svc_AbortMultipartUpload]. rewrite bind_panic. constructor. }
  rewrite (bind_Ok _ _ _ _ _ _ _ (svc_AbortMultipartUpload_Some _ _ _ _)).
  cbn [prefix_log log].
  destruct (fst (AbortMultipartUpload be c _ w)); cbn; repeat constructor.
Qed.

Lemma request_upload_no_part (m : MultipartUpload) (buf : Z)
    (rd : ReadResult) (w : World be) :
  let R := request_upload be m buf rd w in
  Forall no_part (log R) /\
  match out R with
  | Ok (m1, _) => MaxRetries m1 = MaxRetries m
  | _ => True
  end.
Proof.
  cbv zeta. destruct (res m) as [o|] eqn:Hres.
  - rewrite (request_upload_once be m buf rd w o Hres). cbn.
    split; [constructor | reflexivity].
  - destruct (request_upload_fresh be m buf rd w Hres)
      as [[why E] | (c & o & e & w' & _ & _ & _ & E)]; rewrite E; cbn.
    + split; [constructor | exact I].
    + split; [|reflexivity]. destruct e; repeat constructor.
Qed.

Lemma run_body_no_part (m : MultipartUpload) (buf t : Z) (rd : ReadResult)
    (w : World be) :
  MaxRetries m < 1 ->
  let R := run_body be m buf t rd w in
  Forall no_part (log R) /\ forall m' t', out R <> Ok (Continue m' t').
Proof.
  intros Hmax. cbv zeta. unfold run_body. destruct (rerr rd) as [err|].
  - destruct (is_EOF err); [cbn; split; [constructor | discriminate]|].
    destruct (abort_return_log be m err w) as [Hl Hno]. cbv zeta in Hl, Hno.
    rewrite Hl. split; [apply abort_and_report_no_part|].
    intros m' t' H. rewrite H in Hno. exact Hno.
  - destruct (request_upload_no_part m buf rd w) as [Hq Hm]. cbv zeta in Hq, Hm.
    destruct (request_upload be m buf rd w) as [o l f] eqn:ER.
    cbn [out log] in Hq, Hm.
    destruct o as [[m1 [|]]|why|].
    + rewrite (bind_Ok _ _ _ _ _ _ _ ER). cbn [negb prefix_log out log].
      unfold perform_upload.
      destruct (slice_to_cases be buf (data rd) f) as [[_ E] | [_ E]];
        [rewrite (bind_Ok _ _ _ _ _ _ _ E)
        |rewrite (bind_Panic _ _ _ _ _ _ _ E)].
      2:{ cbn. rewrite app_nil_r. split; [exact Hq | discriminate]. }
      rewrite prefix_log_nil.
      destruct (uploadPart_no_attempt m1 (data rd) (currentPartNumber m1) f)
        as [Hlog Hout]; [lia|].
      destruct (uploadPart be m1 (data rd) (currentPartNumber m1) f)
        as [ou lu fu] eqn:EU. cbn [out log] in Hlog, Hout. subst lu.
      destruct ou as [[part|err]|why|].
      * now elim (Hout part).
      * rewrite (bind_Ok _ _ _ _ _ _ _ EU). cbn [prefix_log out log app].
        destruct (abort_return_log be m1 err fu) as [Hl Hno].
        cbv zeta in Hl, Hno. rewrite Hl. split.
        -- apply Forall_app. split; [exact Hq|].
           apply abort_and_report_no_part.
        -- intros m' t' H. rewrite H in Hno. exact Hno.
      * rewrite (bind_Panic _ _ _ _ _ _ _ EU). cbn. rewrite app_nil_r.
        split; [exact Hq | discriminate].
      * unfold bind. rewrite EU. cbn. rewrite app_nil_r.
        split; [exact Hq | discriminate].
    + rewrite (bind_Ok _ _ _ _ _ _ _ ER). cbn. rewrite app_nil_r.
      split; [exact Hq | discriminate].
    + rewrite (bind_Panic _ _ _ _ _ _ _ ER). cbn.
      split; [exact Hq | discriminate].
    + unfold bind. rewrite ER. cbn. split; [exact Hq | discriminate].
Qed.

(** X13.  With a negative MaxRetries the retry loop never runs: [Send]
    makes no part request at all and sends no [Progress] and no [Retry],
    whatever the input and the service. *)
Theorem Send_negative_retries (m : MultipartUpload) (r : Reader)
    (dest : string) (w : World be) :
  MaxRetries m < 0 ->
  Forall no_part (log (Send be m r dest w)).
Proof.
  intros Hneg.
  destruct (Send_cases be m r dest w) as [[_ [e He]] | [[_ [He _]] | [_ He]]];
    cbv zeta in He; rewrite He; clear He.
  - repeat constructor.
  - constructor.
  - destruct (loop_start_fields m r dest) as (_ & _ & _ & HM).
    assert (Hmax : MaxRetries (loop_start m r dest) < 1).
    { rewrite HM. replace (MaxRetries m =? 0) with false
        by (symmetry; apply Z.eqb_neq; lia). lia. }
    set (m2 := loop_start m r dest) in *.
    assert (HL : Forall no_part (log (run_loop be r m2 (MaxPartSize m2) 0 w))).
    { destruct r as [|rd r]; [constructor|].
      rewrite run_loop_cons. cbv zeta.
      destruct (run_body_no_part m2 (MaxPartSize m2) 0 rd w Hmax) as [Hq Hno].
      cbv zeta in Hq, Hno.
      destruct (run_body be m2 (MaxPartSize m2) 0 rd w) as [o l f].
      cbn [out log final] in *.
      destruct o as [[m' t'| |m']| |]; try exact Hq.
      now elim (Hno m' t'). }
    destruct (run_loop be r m2 (MaxPartSize m2) 0 w) as [o l f].
    cbn [out log final] in *.
    destruct o as [[m' t'|m']| |]; try exact HL.
    cbn [prefix_log log]. apply Forall_app. split; [exact HL|].
    destruct (run_finish_shape be m' t' f)
      as [(Hl & _) | (i & o & e & _ & Hl & _)]; cbv zeta in Hl; rewrite Hl.
    + constructor.
    + destruct e; repeat constructor.
Qed.

(** X14.  Over a whole run of [Send], the [Retry] events that carry one
    part number are at most MaxRetries - 1 (MaxRetries as in force: 3
    when the field is 0), provided MaxRetries and the number of reads are
    Go [int]s. *)
Theorem Send_retries_per_part (m : MultipartUpload) (r : Reader)
    (dest : string) (w : World be) (p : Z) :
  MaxRetries m <= max_int ->
  Z.of_nat (List.length r) < max_int ->
  let M := if MaxRetries m =? 0 then 3 else MaxRetries m in
  count_retries p (log (Send be m r dest w)) <= Z.max 0 (M - 1).
Proof. intros Hmax Hlen. exact (Send_retry_count be m r dest w p Hmax Hlen). Qed.

(** X15.  Once the upload exists, a [Read] that fails with an error
    other than [io.EOF] makes the loop abort the upload and return after
    one [Error]: the error of the read itself if the abort succeeded, and
    "upload error: <read error>, as well as an error aborting the upload:
    <abort error>" if the abort failed too. *)
Theorem run_body_read_failure (m : MultipartUpload) (buf t : Z)
    (rd : ReadResult) (err : error) (w : World be)
    (o : s3.CreateMultipartUploadOutput.t) (c : s3.S3) :
  rerr rd = Some err ->
  is_EOF err = false ->
  res m = Some o ->
  svc m = Some c ->
  let ab := AbortMultipartUpload be c (abort_input o) w in
  run_body be m buf t rd w =
  {| out := Ok (Return_ m);
     log := [Call (s3.AbortMultipartUpload (abort_input o) (fst ab));
             Emit (Error match fst ab with
                         | None => err
                         | Some a =>
                             errors_New
                               ("upload error: " ++ Error_text err ++
                                ", as well as an error aborting the upload: "
                                ++ Error_text a)
                         end)];
     final := snd ab |}.
Proof.
  intros Hrd Heof Hres Hsvc. cbv zeta. unfold run_body. rewrite Hrd, Heof.
  rewrite (bind_Ok _ _ _ _ _ _ _ (abort_and_report_log be m err w o c Hres Hsvc)).
  reflexivity.
Qed.

(** X21.  [uploadPart] builds the body of its request once and never
    rewinds it.  When the first attempt at a part fails and another is
    allowed, the second attempt is made with the same request, its body at
    the position where the first attempt left it: it has only the rest of
    the chunk to send, nothing at all if the first attempt read the body
    to its end, while its ContentLength is still the length of the whole
    chunk. *)
Theorem uploadPart_retry_sends_remainder (m : MultipartUpload)
    (c : s3.S3) (r : s3.CreateMultipartUploadOutput.t)
    (chunk : list byte) (partNum : Z) (w w' : World be)
    (o : s3.UploadPartOutput.t) (err : error) (pos : Z) :
  2 <= MaxRetries m <= max_int ->
  svc m = Some c ->
  res m = Some r ->
  UploadPart be c (part_input r chunk partNum) w = ((o, Some err, pos), w') ->
  let first := part_input r chunk partNum in
  let second := s3.UploadPartInput.body_at first pos in
  let answer := UploadPart be c second w' in
  exists rest,
    requests (log (uploadPart be m chunk partNum w)) =
      s3.UploadPart first o (Some err)
      :: s3.UploadPart second (fst (fst (fst answer))) (snd (fst (fst answer)))
      :: rest /\
    bytes.unread (s3.UploadPartInput.Body first) = chunk /\
    bytes.unread (s3.UploadPartInput.Body second) = skipn (Z.to_nat pos) chunk /\
    s3.UploadPartInput.ContentLength second = Z.of_nat (List.length chunk) /\
    (Z.of_nat (List.length chunk) <= pos ->
     bytes.unread (s3.UploadPartInput.Body second) = []).
Proof.
  intros Hmax Hsvc Hres E. cbv zeta.
  rewrite uploadPart_eq. cbv zeta. cbn [log].
  rewrite (uploadPart_traced_eq be m r chunk partNum w Hres).
  destruct (uploadPart_fuel m) as [|[|fuel]] eqn:Ef;
    [unfold uploadPart_fuel in Ef; lia | unfold uploadPart_fuel in Ef; lia |].
  rewrite (uploadPart_loop_step be m c _ partNum (S fuel) 1 w w' o (Some err)
             pos Hsvc ltac:(lia) E).
  replace (1 =? MaxRetries m) with false by (symmetry; apply Z.eqb_neq; lia).
  rewrite (next_attempt m 1 (proj2 Hmax)) by lia.
  destruct (UploadPart be c
              (s3.UploadPartInput.body_at (part_input r chunk partNum) pos) w')
    as [[[o2 e2] pos2] w2] eqn:E2.
  rewrite (uploadPart_loop_step be m c _ partNum fuel (1 + 1) w' w2 o2 e2
             pos2 Hsvc ltac:(lia) E2).
  cbn [fst snd prefix_log log app].
  eexists. split.
  { cbn [requests flat_map app]. reflexivity. }
  split; [reflexivity|]. split; [reflexivity|]. split; [reflexivity|].
  intros Hend. change (skipn (Z.to_nat pos) chunk = []).
  apply skipn_all2. lia.
Qed.

(** X24.  On every target: with the required fields set, a part size
    that fits an [int] and a struct without an upload, [Send] of an input
    that is empty from the first [Read] panics on the nil [m.res] in
    [complete], before any request and without any event. *)
Theorem Send_empty_input_any_target (m : MultipartUpload) (r : Reader)
    (dest : string) (w : World be) :
  AccessKey m <> "" -> SecretKey m <> "" -> Bucket m <> "" ->
  0 <= MaxPartSize m ->
  (W = Int32 -> part_size m <= max_int) ->
  res m = None ->
  rerr (first_read r) = Some io_EOF ->
  Send be m r dest w =
  {| out := Panic nil_dereference; log := []; final := w |}.
Proof. apply Send_empty_input. Qed.

End Failures.

(* ================================================================== *)
(** ** The command line program and the package *)

(** X16.  When the command line program gets as far as calling [Send],
    its standard input is not a character device and has a positive
    size, bucket and path are not empty, and, the two keys of the
    environment being set, the struct it has built is a fresh one that
    passes the validation of [Send] and keeps its endpoint and region:
    the defaults of the package for these never apply. *)
Theorem main_run_struct_is_valid (f : main.Flags) (cfg : main.config.t)
    (info : main.FileInfo) (m : MultipartUpload) (dest : string) :
  main.run f (inl cfg) (inl info) = main.Sent m dest ->
  main.config.AccessKey cfg <> "" ->
  main.config.SecretKey cfg <> "" ->
  main.ModeCharDevice info = false /\ 0 < main.Size info /\
  Bucket m <> "" /\ dest <> "" /\
  missing_fields m = [] /\
  res m = None /\ completedParts m = [] /\
  Endpoint (set_defaults m) = Endpoint m /\
  Region (set_defaults m) = Region m.
Proof.
  unfold main.run. intros H Ha Hs.
  destruct (main.showVersion f); [discriminate|].
  destruct (main.endpoint f =? "")%string eqn:Ee;
    destruct (main.config.Endpoint cfg =? "")%string eqn:Ece;
    destruct (main.region f =? "")%string eqn:Er;
    destruct (main.config.Region cfg =? "")%string eqn:Ecr;
    destruct (main.bucket f =? "")%string eqn:Eb;
    destruct (main.remotePath f =? "")%string eqn:Ep;
    cbn in H; try discriminate;
    destruct (main.ModeCharDevice info) eqn:Emode; cbn in H; try discriminate;
    destruct (main.Size info <=? 0) eqn:Esize; cbn in H; try discriminate;
    apply Z.leb_gt in Esize; apply String.eqb_neq in Eb, Ep;
    inversion H; subst m dest; clear H;
    rewrite set_defaults_eq; unfold missing_fields; cbn;
    apply String.eqb_neq in Ha, Hs; rewrite ?Ha, ?Hs;
    rewrite ?Ee, ?Er, ?Ece, ?Ecr;
    (replace (main.bucket f =? "")%string with false
       by (symmetry; now apply String.eqb_neq));
    repeat split; auto.
Qed.

Lemma main_run_fields (f : main.Flags) (cfg : main.config.t)
    (stat : main.FileInfo + error) (m : MultipartUpload) (dest : string) :
  main.run f (inl cfg) stat = main.Sent m dest ->
  Endpoint m = (if (main.endpoint f =? "")%string
                then main.config.Endpoint cfg else main.endpoint f) /\
  Region m = (if (main.region f =? "")%string
              then main.config.Region cfg else main.region f) /\
  Bucket m = main.bucket f /\
  dest = main.remotePath f /\
  MaxRetries m = main.maxRetries f /\
  MaxPartSize m = int64_wrap (1024 * 1024 * main.maxPartSize f) /\
  AccessKey m = main.config.AccessKey cfg /\
  SecretKey m = main.config.SecretKey cfg.
Proof.
  unfold main.run. intros H.
  destruct (main.showVersion f); [discriminate|].
  destruct (main.endpoint f =? "")%string eqn:Ee;
    destruct (main.config.Endpoint cfg =? "")%string eqn:Ece;
    destruct (main.region f =? "")%string eqn:Er;
    destruct (main.config.Region cfg =? "")%string eqn:Ecr;
    destruct (main.bucket f =? "")%string eqn:Eb;
    destruct (main.remotePath f =? "")%string eqn:Ep;
    cbn in H; try discriminate;
    destruct stat as [info|err]; try discriminate;
    destruct (main.ModeCharDevice info || (main.Size info <=? 0));
    try discriminate;
    inversion H; subst m dest; cbn; repeat split; reflexivity.
Qed.

(** X17.  In the struct the command line program hands to [Send], a
    flag that is set wins over the environment: the endpoint and the
    region are those of the flags unless the flag is empty, in which case
    they are those of the environment; bucket, path and retries are the
    flags', the keys the environment's, and the part size is the flag in
    mebibytes. *)
Theorem main_run_flags_take_precedence (f : main.Flags) (cfg : main.config.t)
    (stat : main.FileInfo + error) (m : MultipartUpload) (dest : string) :
  main.run f (inl cfg) stat = main.Sent m dest ->
  Endpoint m = (if (main.endpoint f =? "")%string
                then main.config.Endpoint cfg else main.endpoint f) /\
  Region m = (if (main.region f =? "")%string
              then main.config.Region cfg else main.region f) /\
  Bucket m = main.bucket f /\
  dest = main.remotePath f /\
  MaxRetries m = main.maxRetries f /\
  MaxPartSize m = int64_wrap (1024 * 1024 * main.maxPartSize f) /\
  AccessKey m = main.config.AccessKey cfg /\
  SecretKey m = main.config.SecretKey cfg.
Proof. apply main_run_fields. Qed.

(** X18.  A negative part size on the command line (down to -2^43)
    reaches [Send] as a negative MaxPartSize: with the keys set, the
    upload then panics allocating its buffer, before any request and
    without any event. *)
Theorem main_run_negative_part_size {W : IntSize} (be : Backend)
    (f : main.Flags)
    (cfg : main.config.t) (stat : main.FileInfo + error)
    (m : MultipartUpload) (dest : string) (r : Reader) (w : World be) :
  main.run f (inl cfg) stat = main.Sent m dest ->
  main.config.AccessKey cfg <> "" ->
  main.config.SecretKey cfg <> "" ->
  - 2 ^ 43 <= main.maxPartSize f < 0 ->
  Send be m r dest w =
  {| out := Panic "makeslice: len out of range"; log := []; final := w |}.
Proof.
  intros H Ha Hs Hsize.
  destruct (main_run_fields f cfg stat m dest H)
    as (_ & _ & Hb & _ & _ & Hp & Hak & Hsk).
  apply Send_makeslice_panic.
  - now rewrite Hak.
  - now rewrite Hsk.
  - rewrite Hb. revert H. unfold main.run.
    destruct (main.showVersion f); [discriminate|].
    destruct (main.endpoint f =? "")%string;
      destruct (main.config.Endpoint cfg =? "")%string;
      destruct (main.region f =? "")%string;
      destruct (main.config.Region cfg =? "")%string;
      destruct (main.bucket f =? "")%string eqn:Eb;
      destruct (main.remotePath f =? "")%string;
      cbn; try discriminate; intros _; now apply String.eqb_neq.
  - rewrite Hp. unfold int64_wrap.
    rewrite wrap_small; [lia | lia |].
    change (2 ^ (64 - 1)) with 9223372036854775808. lia.
Qed.

(* ================================================================== *)
(** ** A struct used again, and the parts that are completed *)

Section Parts.

Context {W : IntSize} (be : Backend).

(** X19.  [Send] never replaces an upload the struct already holds: on
    a struct whose [res] is set (left by an earlier [Send]) no upload is
    created, and every request, parts, abort or completion, goes to the
    bucket, key and upload id of that earlier upload. *)
Theorem Send_reuses_upload (m : MultipartUpload) (r : Reader)
    (dest : string) (w : World be) (o : s3.CreateMultipartUploadOutput.t) :
  res m = Some o ->
  Forall (addressed_to o) (requests (log (Send be m r dest w))).
Proof.
  intros Hres.
  destruct (Send_cases be m r dest w) as [[_ [e He]] | [[_ [He _]] | [_ He]]];
    cbv zeta in He; rewrite He; clear He; try constructor.
  set (m2 := loop_start m r dest).
  assert (Hres2 : res m2 = Some o) by (unfold m2; now rewrite loop_start_res).
  destruct (run_loop_trace be o (MaxPartSize m2) r m2 0 w Hres2)
    as (body & fin & Hlog & Hbody & Hfin & Hb). cbv zeta in Hlog, Hb.
  destruct (run_loop be r m2 (MaxPartSize m2) 0 w) as [ol l f].
  cbn [out log final] in *. subst l.
  assert (Hfin' : Forall (addressed_to o) (requests fin)).
  { destruct Hfin as [Hfin | Hfin]; [subst fin; constructor|].
    destruct (abort_tail_requests o fin Hfin) as (ae & e & _ & Hq).
    rewrite Hq. repeat constructor; reflexivity. }
  assert (Hall : Forall (addressed_to o) (requests (body ++ fin))).
  { rewrite requests_app. apply Forall_app.
    split; [apply (part_actions_requests o _ body Hbody) | exact Hfin']. }
  destruct ol as [[m' t'|m']| |]; cbn [log]; try exact Hall.
  destruct (Hb m' t' eq_refl) as [Hnil Hres']. cbn [prefix_log log].
  rewrite requests_app. apply Forall_app. split; [exact Hall|].
  destruct (run_finish_tail be m' o t' f Hres') as [Hl | Hl].
  - rewrite Hl. constructor.
  - destruct (complete_tail_requests o _ Hl) as (parts & out & e & Hq).
    rewrite Hq. repeat constructor; reflexivity.
Qed.

Lemma acknowledged_app l1 l2 :
  acknowledged (l1 ++ l2) = acknowledged l1 ++ acknowledged l2.
Proof. unfold acknowledged. now rewrite requests_app, flat_map_app. Qed.

Lemma uploadPart_loop_acknowledged (m : MultipartUpload) (pn : Z) :
  forall (fuel : nat) (tryNum : Z) (input : s3.UploadPartInput.t)
         (w : World be),
    s3.UploadPartInput.PartNumber input = pn ->
    let R := uploadPart_loop be fuel m input pn tryNum w in
    match out R with
    | Ok (_, inl part) => acknowledged (log R) = [part]
    | _ => acknowledged (log R) = []
    end.
Proof.
  induction fuel as [|fuel IH]; intros tryNum input w Hpn; cbv zeta.
  - cbn [uploadPart_loop]. destruct (tryNum <=? MaxRetries m); reflexivity.
  - destruct (tryNum <=? MaxRetries m) eqn:Ele.
    2:{ cbn [uploadPart_loop]. rewrite Ele. reflexivity. }
    apply Z.leb_le in Ele.
    destruct (svc m) as [c|] eqn:Hsvc.
    2:{ cbn [uploadPart_loop].
        replace (tryNum <=? MaxRetries m) with true
          by (symmetry; now apply Z.leb_le).
        rewrite Hsvc. cbn [svc_UploadPart]. now rewrite bind_panic. }
    destruct (UploadPart be c input w) as [[[o e] pos] w'] eqn:E.
    rewrite (uploadPart_loop_step be m c input pn fuel tryNum w w' o e pos
               Hsvc Ele E).
    destruct e as [err|].
    + destruct (tryNum =? MaxRetries m); [reflexivity|].
      specialize (IH (int_add tryNum 1)
                     (s3.UploadPartInput.body_at input pos) w' Hpn).
      cbv zeta in IH.
      cbn [prefix_log out log app]. exact IH.
    + cbn. now rewrite Hpn.
Qed.

Lemma uploadPart_acknowledged (m : MultipartUpload) (chunk : list byte)
    (pn : Z) (w : World be) :
  let R := uploadPart be m chunk pn w in
  match out R with
  | Ok (inl part) => acknowledged (log R) = [part]
  | _ => acknowledged (log R) = []
  end.
Proof.
  cbv zeta. rewrite uploadPart_eq. cbv zeta. cbn [out log].
  destruct (res m) as [r|] eqn:Hres.
  - rewrite (uploadPart_traced_eq be m r chunk pn w Hres).
    pose proof (uploadPart_loop_acknowledged m pn (uploadPart_fuel m) 1
                  (part_input r chunk pn) w eq_refl) as H. cbv zeta in H.
    destruct (out (uploadPart_loop be (uploadPart_fuel m) m
                     (part_input r chunk pn) pn 1 w))
      as [[site [part|err]]| |]; exact H.
  - unfold uploadPart_traced. rewrite Hres. cbn [deref].
    now rewrite bind_panic.
Qed.

Lemma request_upload_acknowledged (m : MultipartUpload) (buf : Z)
    (rd : ReadResult) (w : World be) :
  let R := request_upload be m buf rd w in
  acknowledged (log R) = [] /\
  match out R with
  | Ok (m1, _) => completedParts m1 = completedParts m
  | _ => True
  end.
Proof.
  cbv zeta. destruct (res m) as [o|] eqn:Hres.
  - rewrite (request_upload_once be m buf rd w o Hres). cbn. auto.
  - destruct (request_upload_fresh be m buf rd w Hres)
      as [[why E] | (c & o & e & w' & _ & _ & _ & E)]; rewrite E; cbn.
    + auto.
    + split; [|reflexivity]. destruct e; reflexivity.
Qed.

Lemma run_body_acknowledged (m : MultipartUpload) (buf t : Z)
    (rd : ReadResult) (w : World be) :
  let R := run_body be m buf t rd w in
  match out R with
  | Ok (Continue m' _) =>
      completedParts m' = completedParts m ++ acknowledged (log R)
  | Ok Break => log R = []
  | _ => True
  end.
Proof.
  cbv zeta. pose proof (run_body_shape be m buf t rd w) as HB. cbv zeta in HB.
  unfold run_body in *. destruct (rerr rd) as [err|].
  - destruct (out _) as [[m' t'| |m']| |]; auto.
    + destruct HB as [HB _]. discriminate.
    + tauto.
  - clear HB.
    destruct (request_upload_acknowledged m buf rd w) as [Hq Hm].
    cbv zeta in Hq, Hm.
    destruct (request_upload be m buf rd w) as [o l f] eqn:ER.
    cbn [out log] in Hq, Hm.
    destruct o as [[m1 [|]]|why|].
    + rewrite (bind_Ok _ _ _ _ _ _ _ ER). cbn [negb prefix_log out log].
      unfold perform_upload.
      destruct (slice_to_cases be buf (data rd) f) as [[_ E] | [_ E]];
        [rewrite (bind_Ok _ _ _ _ _ _ _ E)
        |rewrite (bind_Panic _ _ _ _ _ _ _ E)]; [|exact I].
      rewrite prefix_log_nil.
      pose proof (uploadPart_acknowledged m1 (data rd) (currentPartNumber m1) f)
        as HU. cbv zeta in HU.
      destruct (uploadPart be m1 (data rd) (currentPartNumber m1) f)
        as [ou lu fu] eqn:EU. cbn [out log] in HU.
      destruct ou as [[part|err]|why|].
      * rewrite (bind_Ok _ _ _ _ _ _ _ EU). cbn.
        rewrite !acknowledged_app, Hq, HU, Hm. reflexivity.
      * rewrite (bind_Ok _ _ _ _ _ _ _ EU). cbn [prefix_log out].
        destruct (abort_return_log be m1 err fu) as [_ Hno]. cbv zeta in Hno.
        destruct (out (bind be (abort_and_report be m1 err)
                         (fun _ => ret be (Return_ m1)) fu))
          as [[m' t'| |m']| |]; auto; contradiction.
      * now rewrite (bind_Panic _ _ _ _ _ _ _ EU).
      * unfold bind. rewrite EU. exact I.
    + rewrite (bind_Ok _ _ _ _ _ _ _ ER). exact I.
    + now rewrite (bind_Panic _ _ _ _ _ _ _ ER).
    + unfold bind. rewrite ER. exact I.
Qed.

Lemma run_loop_acknowledged (buf : Z) :
  forall (r : Reader) (m : MultipartUpload) (t : Z) (w : World be),
    let R := run_loop be r m buf t w in
    match out R with
    | Ok (Broke m' _) =>
        completedParts m' = completedParts m ++ acknowledged (log R)
    | _ => True
    end.
Proof.
  induction r as [|rd r IH]; intros m t w; cbv zeta.
  - cbn. now rewrite app_nil_r.
  - rewrite run_loop_cons. cbv zeta.
    pose proof (run_body_acknowledged m buf t rd w) as HB. cbv zeta in HB.
    destruct (run_body be m buf t rd w) as [o l f]. cbn [out log final] in *.
    destruct o as [[m' t'| |m']|why|]; try exact I.
    + specialize (IH m' t' f). cbv zeta in IH. cbn [prefix_log out log].
      destruct (out (run_loop be r m' buf t' f)) as [[m2 t2|m2]| |]; auto.
      now rewrite IH, HB, acknowledged_app, app_assoc.
    + subst l. cbn. now rewrite app_nil_r.
Qed.

(** X20.  The parts [Send] hands to the completion request are the
    parts the struct held when [Send] was called followed by exactly the
    parts the service acknowledged during this run: for each part request
    that succeeded, in order, its part number with the ETag of its
    response. *)
Theorem Send_completes_acknowledged_parts (m : MultipartUpload) (r : Reader)
    (dest : string) (w : World be) (parts : list s3.CompletedPart.t) :
  let S := Send be m r dest w in
  In parts (completion_parts (log S)) ->
  parts = completedParts m ++ acknowledged (log S).
Proof.
  cbv zeta. intros Hin.
  destruct (Send_cases be m r dest w) as [[_ [e He]] | [[_ [He _]] | [_ He]]];
    cbv zeta in He; rewrite He in *; clear He; try (now destruct Hin).
  destruct (run_loop_bytes be (MaxPartSize (loop_start m r dest)) r
              (loop_start m r dest) 0 w) as (_ & Hcp & _).
  { int_lia. }
  pose proof (run_loop_acknowledged (MaxPartSize (loop_start m r dest)) r
                (loop_start m r dest) 0 w) as Hack.
  cbv zeta in Hcp, Hack. rewrite loop_start_completedParts in Hack.
  destruct (run_loop be r (loop_start m r dest)
              (MaxPartSize (loop_start m r dest)) 0 w) as [o l f].
  cbn [out log final] in *.
  destruct o as [[m' t'|m']| |]; cbn [log] in Hin;
    try (rewrite Hcp in Hin; now destruct Hin).
  cbn [prefix_log log] in *.
  rewrite completion_parts_app, Hcp in Hin. cbn [app] in Hin.
  rewrite acknowledged_app.
  destruct (run_finish_shape be m' t' f)
    as [(Hl & _) | (i & o & e & Hi & Hl & _)]; cbv zeta in Hl;
    rewrite Hl in *; [destruct Hin|].
  replace (acknowledged
             (Call (s3.CompleteMultipartUpload i o e)
                :: match e with
                   | Some err => [Emit (Error err)]
                   | None => []
                   end ++ [Emit (Complete t' o)])) with (@nil s3.CompletedPart.t)
    by (destruct e; reflexivity).
  rewrite app_nil_r.
  assert (Hp : parts = s3.CompleteMultipartUploadInput.Parts i).
  { destruct e; cbn in Hin; destruct Hin as [H | []]; now subst. }
  now rewrite Hp, Hi, Hack.
Qed.

End Parts.

(* ================================================================== *)
(** ** An upload the service accepts *)

Section Accepted.

Context {W : IntSize} (be : Backend) (Inv : World be -> Prop).

Hypothesis service : accepting be Inv.

Lemma uploadPart_accepted (m : MultipartUpload) (chunk : list byte)
    (pn : Z) (w : World be) (c : s3.S3)
    (o : s3.CreateMultipartUploadOutput.t) :
  svc m = Some c -> res m = Some o -> 1 <= MaxRetries m -> Inv w ->
  exists part L w',
    uploadPart be m chunk pn w =
      {| out := Ok (inl part); log := L; final := w' |} /\
    events L = [] /\ Inv w'.
Proof.
  intros Hsvc Hres HM Hw.
  rewrite uploadPart_eq, (uploadPart_traced_eq be m o chunk pn w Hres).
  cbv zeta. unfold uploadPart_fuel.
  destruct (Z.to_nat (MaxRetries m)) as [|fuel] eqn:Ef; [lia|].
  cbn [uploadPart_loop].
  replace (1 <=? MaxRetries m) with true by (symmetry; apply Z.leb_le; lia).
  rewrite Hsvc.
  destruct service as (_ & Hup & _).
  destruct (Hup c (part_input o chunk pn) w Hw) as [He Hi].
  unfold bind, svc_UploadPart.
  destruct (UploadPart be c (part_input o chunk pn) w)
    as [[[uo e] pos] w'] eqn:E.
  cbn [fst snd] in He, Hi. subst e. cbn.
  eexists _, _, _. split; [reflexivity|]. split; [reflexivity | exact Hi].
Qed.

Lemma request_upload_accepted (m : MultipartUpload) (buf : Z)
    (rd : ReadResult) (w : World be) (c : s3.S3) :
  svc m = Some c -> Inv w ->
  Z.of_nat (List.length (data rd)) <= buf ->
  exists m1 L w1 o,
    request_upload be m buf rd w =
      {| out := Ok (m1, true); log := L; final := w1 |} /\
    events L = [] /\ Inv w1 /\
    svc m1 = Some c /\ MaxRetries m1 = MaxRetries m /\
    res m1 = Some o /\ currentPartNumber m1 = currentPartNumber m.
Proof.
  intros Hsvc Hw Hlen.
  destruct (res m) as [o|] eqn:Hres.
  - exists m, [], w, o.
    rewrite (request_upload_once be m buf rd w o Hres). cbn. auto 10.
  - destruct (request_upload_fresh be m buf rd w Hres)
      as [[why E] | (c' & o & e & w' & Hc & _ & EC & E)].
    + exfalso. revert E. unfold request_upload. rewrite Hres.
      destruct (slice_to_cases be buf (data rd) w) as [[_ E] | [Hbad _]];
        [|lia].
      rewrite (bind_Ok _ _ _ _ _ _ _ E), prefix_log_nil, Hsvc.
      rewrite (bind_Ok _ _ _ _ _ _ _ (svc_CreateMultipartUpload_Some _ _ _ _)).
      destruct (fst (CreateMultipartUpload be c _ w)) as [o e].
      destruct e; cbn; discriminate.
    + rewrite Hsvc in Hc. injection Hc as <-.
      destruct service as (Hcr & _ & _).
      match type of EC with
      | CreateMultipartUpload be c ?i w = _ =>
          destruct (Hcr c i w Hw) as [He Hi]
      end.
      rewrite EC in He, Hi.
      cbn [fst snd] in He, Hi. subst e.
      eexists (set_res m (Some o)), _, w', o. split; [exact E|].
      destruct m; cbn in *. auto 10.
Qed.

Lemma run_body_accepted (m : MultipartUpload) (buf t : Z) (rd : ReadResult)
    (w : World be) (c : s3.S3) :
  svc m = Some c -> 1 <= MaxRetries m -> Inv w ->
  rerr rd = None -> Z.of_nat (List.length (data rd)) <= buf ->
  exists m' L w',
    run_body be m buf t rd w =
      {| out := Ok (Continue m'
                      (int_add t (Z.of_nat (List.length (data rd)))));
         log := L; final := w' |} /\
    events L = [Progress (currentPartNumber m)
                  (Z.of_nat (List.length (data rd)))] /\
    Inv w' /\ svc m' = Some c /\ MaxRetries m' = MaxRetries m /\
    res m' <> None /\
    currentPartNumber m' = int_add (currentPartNumber m) 1.
Proof.
  intros Hsvc HM Hw Hrd Hlen. unfold run_body. rewrite Hrd.
  destruct (request_upload_accepted m buf rd w c Hsvc Hw Hlen)
    as (m1 & L1 & w1 & o & E1 & Hev1 & Hw1 & Hsvc1 & HM1 & Hres1 & Hk1).
  rewrite (bind_Ok _ _ _ _ _ _ _ E1). cbn [negb].
  unfold perform_upload.
  destruct (slice_to_cases be buf (data rd) w1) as [[_ E] | [Hbad _]]; [|lia].
  rewrite (bind_Ok _ _ _ _ _ _ _ E), prefix_log_nil.
  destruct (uploadPart_accepted m1 (data rd) (currentPartNumber m1) w1 c o
              Hsvc1 Hres1 ltac:(lia) Hw1)
    as (part & L2 & w2 & E2 & Hev2 & Hw2).
  rewrite (bind_Ok _ _ _ _ _ _ _ E2), bind_emit.
  cbn [prefix_log ret out log final].
  eexists _, _, w2. split; [reflexivity|].
  unfold prefix_log, ret. cbn [out log final].
  rewrite !events_app, Hev1, Hev2, Hk1.
  split; [reflexivity|]. split; [exact Hw2|].
  destruct m1; cbn in *. subst. repeat split; auto. discriminate.
Qed.

Lemma run_loop_accepted (buf : Z) (c : s3.S3) (r : Reader) :
  Forall (fun rd => rerr rd = None /\
                    Z.of_nat (List.length (data rd)) <= buf) r ->
  forall (m : MultipartUpload) (t : Z) (w : World be),
    svc m = Some c -> 1 <= MaxRetries m -> Inv w ->
    min_int <= currentPartNumber m ->
    currentPartNumber m + Z.of_nat (List.length r) <= max_int ->
    exists m' L w',
      run_loop be r m buf t w =
        {| out := Ok (Broke m' (fold_left int_add (read_sizes r) t));
           log := L; final := w' |} /\
      events L = progress_events (currentPartNumber m) (read_sizes r) /\
      Inv w' /\ svc m' = Some c /\
      (r <> [] \/ res m <> None -> res m' <> None).
Proof.
  induction 1 as [|rd r [Hrd Hlen] Hall IH]; intros m t w Hsvc HM Hw Hlo Hhi.
  - exists m, [], w. cbn. repeat split; auto. intros [H | H]; [now elim H | exact H].
  - destruct (run_body_accepted m buf t rd w c Hsvc HM Hw Hrd Hlen)
      as (m1 & L1 & w1 & E1 & Hev1 & Hw1 & Hsvc1 & HM1 & Hres1 & Hk1).
    rewrite run_loop_cons. cbv zeta. rewrite E1. cbn [out log final].
    assert (Hk : currentPartNumber m1 = currentPartNumber m + 1).
    { rewrite Hk1. unfold int_add. apply int_wrap_small.
      cbn [List.length] in Hhi. int_lia. }
    destruct (IH m1 (int_add t (Z.of_nat (List.length (data rd)))) w1
                Hsvc1 ltac:(lia) Hw1)
      as (m' & L & w' & E & Hev & Hw' & Hsvc' & Hres').
    { lia. }
    { cbn [List.length] in Hhi. lia. }
    rewrite E. cbn [prefix_log out log final].
    exists m', (L1 ++ L), w'. split; [reflexivity|].
    rewrite events_app, Hev1, Hev, Hk.
    split; [reflexivity|]. split; [exact Hw'|]. split; [exact Hsvc'|].
    intros _. apply Hres'. now right.
Qed.

Lemma run_finish_accepted (m : MultipartUpload) (t : Z) (w : World be)
    (c : s3.S3) :
  svc m = Some c -> res m <> None -> Inv w ->
  exists result L w',
    run_finish be m t w = {| out := Ok m; log := L; final := w' |} /\
    events L = [Complete t result] /\ Inv w'.
Proof.
  intros Hsvc Hres Hw. unfold run_finish, complete.
  destruct (res m) as [o|]; [|now elim Hres]. cbn [deref].
  rewrite bind_assoc, bind_ret, Hsvc.
  rewrite (bind_Ok _ _ _ _ _ _ _ (svc_CompleteMultipartUpload_Some _ _ _ _)).
  destruct service as (_ & _ & Hco).
  match goal with
  | |- context [CompleteMultipartUpload be c ?i w] =>
      destruct (Hco c i w Hw) as [He Hi];
      destruct (CompleteMultipartUpload be c i w) as [[co e] w'] eqn:E
  end.
  cbn [fst snd] in He, Hi. subst e.
  eexists co, _, w'. cbn. split; [reflexivity|]. split; [reflexivity | exact Hi].
Qed.

(** An upload the service accepts, from the call of [Send] to the end. *)
Lemma Send_accepted_run (m : MultipartUpload) (r : Reader) (dest : string)
    (w : World be) :
  AccessKey m <> "" -> SecretKey m <> "" -> Bucket m <> "" ->
  0 <= MaxRetries m ->
  0 <= MaxPartSize m -> (W = Int32 -> part_size m <= max_int) ->
  r <> [] ->
  Forall (fun rd => rerr rd = None /\
                    Z.of_nat (List.length (data rd)) <= part_size m) r ->
  Z.of_nat (List.length r) < max_int ->
  Inv w ->
  exists result m',
    events (log (Send be m r dest w)) =
      progress_events 1 (read_sizes r)
      ++ [Complete (sum_int (read_sizes r)) result] /\
    out (Send be m r dest w) = Ok m' /\
    Inv (final (Send be m r dest w)).
Proof.
  intros Ha Hs Hb HM Hsize Hfit Hne Hall Hlen Hw.
  rewrite (Send_valid be m r dest w Ha Hs Hb Hsize Hfit). cbv zeta.
  destruct (loop_start_fields m r dest) as (_ & _ & Hsvc & HMax).
  assert (Hall' : Forall (fun rd => rerr rd = None /\
                    Z.of_nat (List.length (data rd))
                    <= MaxPartSize (loop_start m r dest)) r)
    by (rewrite loop_start_MaxPartSize; exact Hall).
  assert (HM' : 1 <= MaxRetries (loop_start m r dest)).
  { rewrite HMax. destruct (MaxRetries m =? 0) eqn:E0; [lia|].
    apply Z.eqb_neq in E0. lia. }
  destruct (run_loop_accepted (MaxPartSize (loop_start m r dest)) _ r Hall'
              (loop_start m r dest) 0 w Hsvc HM' Hw)
    as (m1 & L1 & w1 & E1 & Hev1 & Hw1 & Hsvc1 & Hres1).
  - rewrite loop_start_currentPartNumber. int_lia.
  - rewrite loop_start_currentPartNumber. lia.
  - rewrite E1. cbn [out log final].
    destruct (run_finish_accepted m1 (fold_left int_add (read_sizes r) 0) w1 _
                Hsvc1 (Hres1 (or_introl Hne)) Hw1)
      as (result & L2 & w2 & E2 & Hev2 & Hw2).
    rewrite E2. cbn [prefix_log out log final].
    exists result, m1. rewrite events_app, Hev1, Hev2.
    rewrite loop_start_currentPartNumber.
    split; [reflexivity|]. split; [reflexivity | exact Hw2].
Qed.

(** X23.  When the service accepts every request, the required fields
    are set, MaxRetries and MaxPartSize are not negative and the part
    size fits an [int], [Send] of a source that is not empty and whose
    reads succeed within the buffer uploads it to the end: the events
    are one [Progress] per read, numbered from 1 and each with the bytes
    of its read, then one [Complete] with their sum as an [int]; and
    [run] returns. *)
Theorem Send_accepted (m : MultipartUpload) (r : Reader) (dest : string)
    (w : World be) :
  AccessKey m <> "" -> SecretKey m <> "" -> Bucket m <> "" ->
  0 <= MaxRetries m ->
  0 <= MaxPartSize m -> (W = Int32 -> part_size m <= max_int) ->
  r <> [] ->
  Forall (fun rd => rerr rd = None /\
                    Z.of_nat (List.length (data rd)) <= part_size m) r ->
  Z.of_nat (List.length r) < max_int ->
  Inv w ->
  exists result m',
    events (log (Send be m r dest w)) =
      progress_events 1 (read_sizes r)
      ++ [Complete (sum_int (read_sizes r)) result] /\
    out (Send be m r dest w) = Ok m' /\
    Inv (final (Send be m r dest w)).
Proof. apply Send_accepted_run. Qed.

End Accepted.




(** The scripted service with nothing to fail accepts every request and
    stays as it is. *)
Lemma healthy_accepting :
  accepting Scripted.backend (fun w => w = Scripted.healthy).
Proof.
  repeat split; subst; reflexivity.
Qed.



(* ================================================================== *)
(** ** More concrete runs *)

Module MoreRuns.

Import Scripted.

(** The runs are those of a 64-bit target. *)
#[local] Existing Instance Int64.

Lemma Send_negative_part_size_witness :
  let m := upload "key" "secret" "bucket" 3 (-1) in
  MaxPartSize m < 0 /\
  out (Send backend m [chunk "abc"] "dump.rdb" healthy)
    = Panic "makeslice: len out of range" /\
  log (Send backend m [chunk "abc"] "dump.rdb" healthy) = [].
Proof.
  assert (Hn : MaxPartSize (upload "key" "secret" "bucket" 3 (-1)) < 0)
    by (cbn; lia).
  split; [exact Hn|].
  destruct (Send_negative_part_size backend
              (upload "key" "secret" "bucket" 3 (-1)) [chunk "abc"]
              "dump.rdb" healthy) as (Ho & Hl & _);
    [discriminate | discriminate | discriminate | exact Hn |].
  split; [exact Ho | exact Hl].
Defined.

Lemma Send_create_failure_witness :
  let m := upload "key" "secret" "bucket" 3 4 in
  let w := Sample.no_upload (errors_New "access denied") in
  res m = None /\
  rerr (chunk "abc") = None /\
  Z.of_nat (List.length (data (chunk "abc"))) <= part_size m /\
  events (log (Send backend m [chunk "abc"; chunk "def"] "dump.rdb" w))
    = [Error (errors_New "access denied")].
Proof.
  assert (Hlen : Z.of_nat (List.length (data (chunk "abc")))
                 <= part_size (upload "key" "secret" "bucket" 3 4))
    by (vm_compute; discriminate).
  assert (Hsz : 0 <= MaxPartSize (upload "key" "secret" "bucket" 3 4))
    by (cbn; lia).
  split; [reflexivity|]. split; [reflexivity|]. split; [exact Hlen|].
  destruct (Send_create_failure backend (upload "key" "secret" "bucket" 3 4)
              (chunk "abc") [chunk "def"] "dump.rdb"
              (Sample.no_upload (errors_New "access denied"))
              (Sample.no_upload (errors_New "access denied"))
              {| s3.CreateMultipartUploadOutput.Bucket := "bucket";
                 s3.CreateMultipartUploadOutput.Key := "dump.rdb";
                 s3.CreateMultipartUploadOutput.UploadId := "upload-1" |}
              (errors_New "access denied"))
    as (Hl & _ & _);
    [discriminate | discriminate | discriminate | exact Hsz | reflexivity
    | reflexivity | exact Hlen | reflexivity |].
  rewrite Hl. reflexivity.
Defined.

Lemma Send_requests_one_upload_witness :
  let m := upload "key" "secret" "bucket" 3 4 in
  let S := Send backend m [chunk "abcd"; chunk "ef"] "dump.rdb" healthy in
  res m = None /\
  (requests (log S) = [] \/
   exists ct o e rest,
     requests (log S) =
       s3.CreateMultipartUpload
         {| s3.CreateMultipartUploadInput.Bucket := "bucket";
            s3.CreateMultipartUploadInput.Key := "dump.rdb";
            s3.CreateMultipartUploadInput.ContentType := ct |} o e :: rest /\
     Forall (addressed_to o) rest).
Proof.
  split; [reflexivity|].
  exact (Send_requests_one_upload backend (upload "key" "secret" "bucket" 3 4)
           [chunk "abcd"; chunk "ef"] "dump.rdb" healthy eq_refl).
Defined.

Lemma Send_ends_upload_once_witness :
  let m := upload "key" "secret" "bucket" 3 4 in
  let S := Send backend m [chunk "abcd"; chunk "ef"] "dump.rdb" healthy in
  res m = None /\
  exists init fin,
    requests (log S) = init ++ fin /\
    Forall (fun c => is_finalizer c = false) init /\
    (fin = [] \/ exists c, fin = [c] /\ is_finalizer c = true).
Proof.
  split; [reflexivity|].
  exact (Send_ends_upload_once backend (upload "key" "secret" "bucket" 3 4)
           [chunk "abcd"; chunk "ef"] "dump.rdb" healthy eq_refl).
Defined.

Lemma Send_parts_sized_witness :
  let m := upload "key" "secret" "bucket" 3 4 in
  let S := Send backend m [chunk "abcd"; chunk "ef"] "dump.rdb"
             (failing [None; Some (errors_New "a")] None None) in
  res m = None /\
  Forall (sized_part 4) (requests (log S)) /\
  whole_unless_retried false (log S).
Proof.
  split; [reflexivity|].
  exact (Send_parts_sized backend (upload "key" "secret" "bucket" 3 4)
           [chunk "abcd"; chunk "ef"] "dump.rdb"
           (failing [None; Some (errors_New "a")] None None) eq_refl).
Defined.

Lemma Send_nothing_after_terminal_witness :
  let m := upload "key" "secret" "bucket" 3 4 in
  let S := Send backend m [chunk "abcd"; chunk "ef"] "dump.rdb"
             (failing [] (Some (errors_New "completion failed")) None) in
  res m = None /\
  exists pre post,
    log S = pre ++ post /\
    Forall (fun a => terminal_action a = false) pre /\
    (post = [] \/
     (exists e, post = [Emit (Error e)]) \/
     (exists b o, post = [Emit (Complete b o)]) \/
     (exists e b o, post = [Emit (Error e); Emit (Complete b o)])).
Proof.
  split; [reflexivity|].
  exact (Send_nothing_after_terminal backend
           (upload "key" "secret" "bucket" 3 4)
           [chunk "abcd"; chunk "ef"] "dump.rdb"
           (failing [] (Some (errors_New "completion failed")) None) eq_refl).
Defined.

Lemma Send_abort_then_error_witness :
  let m := upload "key" "secret" "bucket" 3 5 in
  let S := Send backend m
             [chunk "01234"; failing_read (errors_New "read failed")]
             "dump.rdb" healthy in
  let i := abort_input
             {| s3.CreateMultipartUploadOutput.Bucket := "bucket";
                s3.CreateMultipartUploadOutput.Key := "dump.rdb";
                s3.CreateMultipartUploadOutput.UploadId := "upload-1" |} in
  res m = None /\
  In (Call (s3.AbortMultipartUpload i None)) (log S) /\
  exists pre e,
    log S = pre ++ [Call (s3.AbortMultipartUpload i None); Emit (Error e)] /\
    Forall (fun a => terminal_action a = false) pre.
Proof.
  cbv zeta.
  match goal with
  | |- _ /\ ?I /\ _ => assert (H : I)
                         by (vm_compute; do 3 right; left; reflexivity)
  end.
  split; [reflexivity|]. split; [exact H|].
  exact (Send_abort_then_error backend (upload "key" "secret" "bucket" 3 5)
           _ "dump.rdb" healthy _ None eq_refl H).
Defined.

Lemma Send_completed_once_witness :
  let m := upload "key" "secret" "bucket" 3 5 in
  let S := Send backend m [chunk "01234"] "dump.rdb" healthy in
  let i := complete_input
             {| s3.CreateMultipartUploadOutput.Bucket := "bucket";
                s3.CreateMultipartUploadOutput.Key := "dump.rdb";
                s3.CreateMultipartUploadOutput.UploadId := "upload-1" |}
             [{| s3.CompletedPart.ETag := "etag";
                 s3.CompletedPart.PartNumber := 1 |}] in
  res m = None /\
  In (Call (s3.CompleteMultipartUpload i completed None)) (log S) /\
  exists pre b,
    log S = pre ++ [Call (s3.CompleteMultipartUpload i completed None);
                    Emit (Complete b completed)] /\
    Forall (fun a => terminal_action a = false) pre.
Proof.
  cbv zeta.
  match goal with
  | |- _ /\ ?I /\ _ => assert (H : I)
                         by (vm_compute; do 3 right; left; reflexivity)
  end.
  split; [reflexivity|]. split; [exact H|].
  exact (Send_completed_once backend (upload "key" "secret" "bucket" 3 5)
           _ "dump.rdb" healthy _ completed eq_refl H).
Defined.

Lemma Send_negative_retries_witness :
  let m := upload "key" "secret" "bucket" (-1) 5 in
  MaxRetries m < 0 /\
  Forall no_part
    (log (Send backend m [chunk "01234"; chunk "56"] "dump.rdb" healthy)).
Proof.
  assert (H : MaxRetries (upload "key" "secret" "bucket" (-1) 5) < 0)
    by (cbn; lia).
  split; [exact H|].
  exact (Send_negative_retries backend (upload "key" "secret" "bucket" (-1) 5)
           [chunk "01234"; chunk "56"] "dump.rdb" healthy H).
Defined.

Lemma Send_retries_per_part_witness :
  let m := upload "key" "secret" "bucket" 3 5 in
  let r := [chunk "01234"; chunk "56"] in
  let w := failing [None; Some (errors_New "a"); Some (errors_New "b")]
             None None in
  MaxRetries m <= max_int /\
  Z.of_nat (List.length r) < max_int /\
  count_retries 2 (log (Send backend m r "dump.rdb" w)) <= 2.
Proof.
  assert (H1 : MaxRetries (upload "key" "secret" "bucket" 3 5) <= max_int)
    by (unfold max_int; cbn; lia).
  assert (H2 : Z.of_nat (List.length [chunk "01234"; chunk "56"]) < max_int)
    by (unfold max_int; cbn; lia).
  split; [exact H1|]. split; [exact H2|].
  exact (Send_retries_per_part backend (upload "key" "secret" "bucket" 3 5)
           [chunk "01234"; chunk "56"] "dump.rdb"
           (failing [None; Some (errors_New "a"); Some (errors_New "b")]
              None None) 2 H1 H2).
Defined.

Lemma run_body_read_failure_witness :
  let m := active 3 2 in
  let rd := failing_read (errors_New "read failed") in
  rerr rd = Some (errors_New "read failed") /\
  is_EOF (errors_New "read failed") = false /\
  events (log (run_body backend m 5 0 rd
                 (failing [] None (Some (errors_New "gone"))))) =
  [Error (errors_New
     "upload error: read failed, as well as an error aborting the upload: gone")].
Proof.
  split; [reflexivity|]. split; [reflexivity|].
  rewrite (run_body_read_failure backend (active 3 2) 5 0
             (failing_read (errors_New "read failed"))
             (errors_New "read failed")
             (failing [] None (Some (errors_New "gone"))) _ _
             eq_refl eq_refl eq_refl eq_refl).
  reflexivity.
Defined.

Lemma main_run_struct_is_valid_witness :
  let f := Sample.flags "backups" "dump.rdb" 3 5 in
  exists m dest,
    main.run f (inl Sample.env) (inl (Sample.pipe 10)) = main.Sent m dest /\
    main.config.AccessKey Sample.env <> "" /\
    main.config.SecretKey Sample.env <> "" /\
    missing_fields m = [].
Proof.
  eexists _, _.
  assert (H : main.run (Sample.flags "backups" "dump.rdb" 3 5)
                (inl Sample.env) (inl (Sample.pipe 10))
              = main.Sent _ _) by reflexivity.
  assert (Ha : main.config.AccessKey Sample.env <> "") by discriminate.
  assert (Hs : main.config.SecretKey Sample.env <> "") by discriminate.
  split; [exact H|]. split; [exact Ha|]. split; [exact Hs|].
  exact (proj1 (proj2 (proj2 (proj2 (proj2
           (main_run_struct_is_valid _ _ _ _ _ H Ha Hs)))))).
Defined.

Lemma main_run_flags_take_precedence_witness :
  let f := Sample.flags "backups" "dump.rdb" 3 5 in
  exists m dest,
    main.run f (inl Sample.env) (inl (Sample.pipe 10)) = main.Sent m dest /\
    Endpoint m = "s3.amazonaws.com" /\ Bucket m = "backups".
Proof.
  eexists _, _.
  assert (H : main.run (Sample.flags "backups" "dump.rdb" 3 5)
                (inl Sample.env) (inl (Sample.pipe 10))
              = main.Sent _ _) by reflexivity.
  split; [exact H|].
  destruct (main_run_flags_take_precedence _ _ _ _ _ H)
    as (He & _ & Hb & _).
  split; [exact He | exact Hb].
Defined.

Lemma main_run_negative_part_size_witness :
  let f := Sample.flags "backups" "dump.rdb" 3 (-1) in
  exists m dest,
    main.run f (inl Sample.env) (inl (Sample.pipe 10)) = main.Sent m dest /\
    - 2 ^ 43 <= main.maxPartSize f < 0 /\
    log (Send backend m [chunk "abc"] dest healthy) = [].
Proof.
  eexists _, _.
  assert (H : main.run (Sample.flags "backups" "dump.rdb" 3 (-1))
                (inl Sample.env) (inl (Sample.pipe 10))
              = main.Sent _ _) by reflexivity.
  assert (Ha : main.config.AccessKey Sample.env <> "") by discriminate.
  assert (Hs : main.config.SecretKey Sample.env <> "") by discriminate.
  assert (Hn : - 2 ^ 43 <= main.maxPartSize
                             (Sample.flags "backups" "dump.rdb" 3 (-1)) < 0)
    by (cbn; lia).
  split; [exact H|]. split; [exact Hn|].
  now rewrite (main_run_negative_part_size backend _ _ _ _ _
                 [chunk "abc"] healthy H Ha Hs Hn).
Defined.

Lemma Send_reuses_upload_witness :
  let o := {| s3.CreateMultipartUploadOutput.Bucket := "bucket";
              s3.CreateMultipartUploadOutput.Key := "dump.rdb";
              s3.CreateMultipartUploadOutput.UploadId := "upload-1" |} in
  res (active 3 0) = Some o /\
  Forall (addressed_to o)
    (requests (log (Send backend (active 3 0) [chunk "abc"] "other.rdb"
                      healthy))).
Proof.
  split; [reflexivity|].
  exact (Send_reuses_upload backend (active 3 0) [chunk "abc"] "other.rdb"
           healthy _ eq_refl).
Defined.

Lemma Send_completes_acknowledged_parts_witness :
  let m := upload "key" "secret" "bucket" 3 4 in
  let S := Send backend m [chunk "abcd"; chunk "ef"] "dump.rdb"
             (failing [Some (errors_New "a")] None None) in
  let parts := [{| s3.CompletedPart.ETag := "etag";
                   s3.CompletedPart.PartNumber := 1 |};
                {| s3.CompletedPart.ETag := "etag";
                   s3.CompletedPart.PartNumber := 2 |}] in
  In parts (completion_parts (log S)) /\
  parts = completedParts m ++ acknowledged (log S).
Proof.
  cbv zeta.
  match goal with
  | |- ?I /\ _ => assert (H : I) by (vm_compute; left; reflexivity)
  end.
  split; [exact H|].
  exact (Send_completes_acknowledged_parts backend
           (upload "key" "secret" "bucket" 3 4)
           [chunk "abcd"; chunk "ef"] "dump.rdb"
           (failing [Some (errors_New "a")] None None)
           [{| s3.CompletedPart.ETag := "etag";
               s3.CompletedPart.PartNumber := 1 |};
            {| s3.CompletedPart.ETag := "etag";
               s3.CompletedPart.PartNumber := 2 |}] H).
Defined.

Lemma uploadPart_retry_sends_remainder_witness :
  let m := active 3 1 in
  let w := failing [Some (errors_New "a")] None None in
  let chunk := list_byte_of_string "abc" in
  2 <= MaxRetries m <= max_int /\
  (exists r, res m = Some r /\
             UploadPart backend
               (s3.New "key" "secret" "nyc3.digitaloceanspaces.com" DefaultRegion)
               (part_input r chunk 1) w
             = (({| s3.UploadPartOutput.ETag := "etag" |},
                 Some (errors_New "a"), 3), healthy)) /\
  map (fun q => match q with
                | s3.UploadPart i _ e =>
                    (bytes.unread (s3.UploadPartInput.Body i),
                     s3.UploadPartInput.ContentLength i, e)
                | _ => ([], 0, None)
                end)
      (firstn 2 (requests (log (uploadPart backend m chunk 1 w))))
  = [(chunk, 3, Some (errors_New "a")); ([], 3, None)].
Proof.
  assert (H : 2 <= 3 <= max_int) by int_lia.
  split; [exact H|]. split; [eexists; split; reflexivity|].
  destruct (uploadPart_retry_sends_remainder backend (active 3 1) _ _
              (list_byte_of_string "abc") 1
              (failing [Some (errors_New "a")] None None) healthy
              {| s3.UploadPartOutput.ETag := "etag" |} (errors_New "a") 3
              H eq_refl eq_refl eq_refl) as (rest & Hreq & _).
  rewrite Hreq. reflexivity.
Defined.

Lemma Send_accepted_witness :
  let m := upload "key" "secret" "bucket" 3 4 in
  let r := [chunk "abcd"; chunk "ef"] in
  (AccessKey m <> "" /\ SecretKey m <> "" /\ Bucket m <> "") /\
  (0 <= MaxRetries m /\ 0 <= MaxPartSize m) /\
  Forall (fun rd => rerr rd = None /\
                    Z.of_nat (List.length (data rd)) <= part_size m) r /\
  exists result m',
    events (log (Send backend m r "dump.rdb" healthy)) =
      [Progress 1 4; Progress 2 2; Complete 6 result] /\
    out (Send backend m r "dump.rdb" healthy) = Ok m' /\
    final (Send backend m r "dump.rdb" healthy) = healthy.
Proof.
  assert (Ha : AccessKey (upload "key" "secret" "bucket" 3 4) <> "")
    by discriminate.
  assert (Hs : SecretKey (upload "key" "secret" "bucket" 3 4) <> "")
    by discriminate.
  assert (Hb : Bucket (upload "key" "secret" "bucket" 3 4) <> "")
    by discriminate.
  assert (HM : 0 <= MaxRetries (upload "key" "secret" "bucket" 3 4))
    by (cbn; lia).
  assert (HP : 0 <= MaxPartSize (upload "key" "secret" "bucket" 3 4))
    by (cbn; lia).
  assert (Hfit : Int64 = Int32 ->
                 part_size (upload "key" "secret" "bucket" 3 4) <= max_int)
    by discriminate.
  assert (Hne : [chunk "abcd"; chunk "ef"] <> []) by discriminate.
  assert (Hall : Forall (fun rd => rerr rd = None /\
                           Z.of_nat (List.length (data rd))
                           <= part_size (upload "key" "secret" "bucket" 3 4))
                   [chunk "abcd"; chunk "ef"]).
  { repeat constructor; cbn; lia. }
  assert (Hlen : Z.of_nat (List.length [chunk "abcd"; chunk "ef"]) < max_int)
    by (vm_compute; reflexivity).
  split; [auto|]. split; [auto|]. split; [exact Hall|].
  exact (Send_accepted backend (fun w => w = healthy) healthy_accepting
           (upload "key" "secret" "bucket" 3 4) [chunk "abcd"; chunk "ef"]
           "dump.rdb" healthy Ha Hs Hb HM HP Hfit Hne Hall Hlen eq_refl).
Defined.

End MoreRuns.

(** A run where an [int] has 32 bits. *)
Module Runs32.

Import Scripted.

#[local] Existing Instance Int32.

Lemma Send_part_size_beyond_int_witness :
  let m := upload "key" "secret" "bucket" 3 (5 * 1024 * 1024 * 1024) in
  (AccessKey m <> "" /\ SecretKey m <> "" /\ Bucket m <> "") /\
  2147483647 < MaxPartSize m /\
  Send backend m [chunk "abc"] "dump.rdb" healthy =
  {| out := Panic "makeslice: len out of range"; log := [];
     final := (healthy : World backend) |}.
Proof.
  assert (Ha : AccessKey (upload "key" "secret" "bucket" 3
                            (5 * 1024 * 1024 * 1024)) <> "") by discriminate.
  assert (Hs : SecretKey (upload "key" "secret" "bucket" 3
                            (5 * 1024 * 1024 * 1024)) <> "") by discriminate.
  assert (Hb : Bucket (upload "key" "secret" "bucket" 3
                         (5 * 1024 * 1024 * 1024)) <> "") by discriminate.
  assert (Hn : 2147483647 < MaxPartSize (upload "key" "secret" "bucket" 3
                                           (5 * 1024 * 1024 * 1024)))
    by (cbn; lia).
  split; [auto|]. split; [exact Hn|].
  exact (Send_part_size_beyond_int backend
           (upload "key" "secret" "bucket" 3 (5 * 1024 * 1024 * 1024))
           [chunk "abc"] "dump.rdb" healthy Ha Hs Hb Hn).
Defined.

Lemma Send_empty_input_any_target_witness :
  let m := upload "key" "secret" "bucket" 3 4 in
  (AccessKey m <> "" /\ SecretKey m <> "" /\ Bucket m <> "") /\
  0 <= MaxPartSize m /\
  part_size m <= max_int /\
  res m = None /\
  rerr (first_read []) = Some io_EOF /\
  Send backend m [] "dump.rdb" healthy =
  {| out := Panic nil_dereference; log := [];
     final := (healthy : World backend) |}.
Proof.
  assert (Ha : AccessKey (upload "key" "secret" "bucket" 3 4) <> "")
    by discriminate.
  assert (Hs : SecretKey (upload "key" "secret" "bucket" 3 4) <> "")
    by discriminate.
  assert (Hb : Bucket (upload "key" "secret" "bucket" 3 4) <> "")
    by discriminate.
  assert (Hn : 0 <= MaxPartSize (upload "key" "secret" "bucket" 3 4))
    by (cbn; lia).
  assert (Hfit : part_size (upload "key" "secret" "bucket" 3 4) <= max_int)
    by (vm_compute; discriminate).
  split; [auto|]. split; [exact Hn|]. split; [exact Hfit|].
  split; [reflexivity|]. split; [reflexivity|].
  exact (Send_empty_input_any_target backend
           (upload "key" "secret" "bucket" 3 4) [] "dump.rdb" healthy
           Ha Hs Hb Hn (fun _ => Hfit) eq_refl eq_refl).
Defined.


End Runs32.
